(** * vpc-setup.py: the checks and the CIDR block allocator

    A shallow embedding of [vpc-setup.py] up to the allocation of a block:
    the checks of the arguments (lines 33-86), the names of the files
    (lines 95-97), the function [cidr_slicing] (lines 115-129) and the
    bookkeeping of the blocks in DynamoDB (lines 132-257); and the
    properties of it that the specification states, with further ones read
    off the code.

    Layout:
    - [Py]: the Python primitives the script relies on (exceptions,
      [str], [int], [strip], [in], slices, [split], [range]);
    - [Ipaddress]: the part of the standard [ipaddress] module that
      [cidr_slicing] calls ([IPv4Network], [subnets], [compressed]);
    - [Dynamo]: the [ip_allocations] table and the three client calls
      the script makes on it ([scan], [update_item], [delete_item]);
    - [VpcSetup]: the allocator part of the script, on a client that
      answers every call;
    - [Re]: the part of the [re] module that the patterns of the script use;
    - [Checks]: the checks before the allocation, and the file names;
    - [Unreliable]: the allocator part again, on a client that may refuse
      a call;
    - the vocabulary of the statements;
    - the lemmas and the theorems. *)

From Stdlib Require Import ZArith List String Ascii Bool Lia Permutation.
From Stdlib Require Import Decimal DecimalString.
Import ListNotations.

Open Scope string_scope.
Open Scope Z_scope.

(* ================================================================== *)
(** * Python primitives *)

Module Py.

(** The exceptions that can leave the modelled code.  [SystemExit] is what
    [exit(msg)] raises; [ClientError] stands for what a call of boto3
    raises when the service refuses the request or cannot be reached
    (botocore's [ClientError] and its like); [OutOfFuel] is not a Python
    exception: it marks a loop of the model that was given too few
    iterations, and is shown never to be returned. *)
Inductive exn : Type :=
| SystemExit (msg : string)
| ValueError
| IndexError
| KeyError
| ClientError
| OutOfFuel.

Inductive result (A : Type) : Type :=
| Ok (a : A)
| Raise (e : exn).
Arguments Ok {A} a.
Arguments Raise {A} e.

Definition rbind {A B} (r : result A) (k : A -> result B) : result B :=
  match r with
  | Ok a => k a
  | Raise e => Raise e
  end.

(** [str(n)] for an [int]. *)
Definition str (n : Z) : string := NilZero.string_of_int (Z.to_int n).

Definition isspace (c : ascii) : bool :=
  let n := nat_of_ascii c in
  (Nat.eqb n 32 || (Nat.leb 9 n && Nat.leb n 13))%bool.

Definition isdigit_char (c : ascii) : bool :=
  let n := nat_of_ascii c in (Nat.leb 48 n && Nat.leb n 57)%bool.

(** [s.isascii()]: every character is below 128.  The strings of this
    development are sequences of 8-bit characters, and they stand for a
    Python [str] faithfully when it is ASCII; a statement that depends on
    what Python does with other characters says so with [isascii]. *)
Fixpoint isascii (s : string) : bool :=
  match s with
  | EmptyString => true
  | String c t => (Nat.ltb (nat_of_ascii c) 128 && isascii t)%bool
  end.

(** [s.isascii() and s.isdigit()]: non-empty and made of [0-9] only. *)
Fixpoint all_digits (s : string) : bool :=
  match s with
  | EmptyString => true
  | String c t => (isdigit_char c && all_digits t)%bool
  end.

Definition isdigit (s : string) : bool :=
  match s with
  | EmptyString => false
  | _ => all_digits s
  end.

Fixpoint lstrip (p : ascii -> bool) (s : string) : string :=
  match s with
  | EmptyString => EmptyString
  | String c t => if p c then lstrip p t else s
  end.

Fixpoint rstrip (p : ascii -> bool) (s : string) : string :=
  match s with
  | EmptyString => EmptyString
  | String c t =>
      match rstrip p t with
      | EmptyString => if p c then EmptyString else String c EmptyString
      | r => String c r
      end
  end.

(** [s.strip(chars)], the characters given as a predicate. *)
Definition strip (p : ascii -> bool) (s : string) : string :=
  rstrip p (lstrip p s).

(** [int(s)]: surrounding whitespace is dropped, then an optional [-] and
    decimal digits are read.  (Python also accepts a leading [+] and
    underscores between digits; the script never passes such a string
    here, and the model raises [ValueError] on them.) *)
Definition int (s : string) : result Z :=
  match NilZero.int_of_string (strip isspace s) with
  | Some d => Ok (Z.of_int d)
  | None => Raise ValueError
  end.

(** [needle in hay] on strings. *)
Fixpoint str_in (needle hay : string) : bool :=
  (prefix needle hay ||
   match hay with
   | EmptyString => false
   | String _ t => str_in needle t
   end)%bool.

(** [s[-3:]]. *)
Definition last3 (s : string) : string :=
  substring (String.length s - 3) 3 s.

(** [l[-2]]. *)
Definition index_m2 {A} (l : list A) : result A :=
  match nth_error l (List.length l - 2) with
  | Some a => if Nat.leb 2 (List.length l) then Ok a else Raise IndexError
  | None => Raise IndexError
  end.

(** [l[-1]]. *)
Definition index_m1 {A} (l : list A) : result A :=
  match nth_error l (List.length l - 1) with
  | Some a => Ok a
  | None => Raise IndexError
  end.

(** [l[0]]. *)
Definition index_0 {A} (l : list A) : result A :=
  match l with
  | a :: _ => Ok a
  | [] => Raise IndexError
  end.

(** [s.split(sep)] for a one-character separator. *)
Fixpoint split (sep : ascii) (s : string) : list string :=
  match s with
  | EmptyString => [EmptyString]
  | String c t =>
      if Ascii.eqb c sep then EmptyString :: split sep t
      else match split sep t with
           | h :: r => String c h :: r
           | [] => [String c EmptyString]
           end
  end.

Fixpoint range_from (n : nat) (start step : Z) : list Z :=
  match n with
  | O => []
  | S n' => start :: range_from n' (start + step) step
  end.

(** [list(range(start, stop, step))] for a positive [step] (the only kind
    the modelled code uses). *)
Definition range (start stop step : Z) : list Z :=
  range_from (Z.to_nat ((stop - start + step - 1) / step)) start step.

End Py.

Import Py.

Notation "x <- r ;; k" := (rbind r (fun x => k))
  (at level 100, r at next level, right associativity).

(* ================================================================== *)
(** * The [ipaddress] module *)

Module Ipaddress.

(** An [IPv4Network]: the integer of its network address and its prefix
    length. *)
Record IPv4Network : Type := mkNet {
  network_address : Z;
  prefixlen : Z
}.

Definition ALL_ONES : Z := 2 ^ 32 - 1.
Definition max_prefixlen : Z := 32.

(** [_ip_int_from_prefix] *)
Definition ip_int_from_prefix (p : Z) : Z :=
  Z.lxor ALL_ONES (Z.shiftr ALL_ONES p).

Definition netmask (n : IPv4Network) : Z := ip_int_from_prefix (prefixlen n).
Definition hostmask (n : IPv4Network) : Z := Z.lxor (netmask n) ALL_ONES.
Definition broadcast_address (n : IPv4Network) : Z :=
  Z.lor (network_address n) (hostmask n).

(** [_parse_octet] *)
Definition parse_octet (octet_str : string) : result Z :=
  if negb (isdigit octet_str) then Raise ValueError
  else if Nat.ltb 3 (String.length octet_str) then Raise ValueError
  else if (negb (String.eqb octet_str "0") && prefix "0" octet_str)%bool
       then Raise ValueError
  else octet_int <- int octet_str ;;
       if 255 <? octet_int then Raise ValueError else Ok octet_int.

Fixpoint parse_octets (l : list string) : result (list Z) :=
  match l with
  | [] => Ok []
  | o :: r => x <- parse_octet o ;; xs <- parse_octets r ;; Ok (x :: xs)
  end.

(** [int.from_bytes(octets, 'big')] *)
Definition from_bytes (octets : list Z) : Z :=
  fold_left (fun acc b => Z.lor (Z.shiftl acc 8) b) octets 0.

(** [_ip_int_from_string] *)
Definition ip_int_from_string (ip_str : string) : result Z :=
  if String.eqb ip_str "" then Raise ValueError
  else let octets := split "." ip_str in
       if negb (Nat.eqb (List.length octets) 4) then Raise ValueError
       else bs <- parse_octets octets ;; Ok (from_bytes bs).

(** [_prefix_from_prefix_string] *)
Definition prefix_from_prefix_string (prefixlen_str : string) : result Z :=
  if negb (isdigit prefixlen_str) then Raise ValueError
  else p <- int prefixlen_str ;;
       if ((0 <=? p) && (p <=? max_prefixlen))%bool then Ok p
       else Raise ValueError.

(** [n.bit_length()] for [n >= 0]. *)
Definition bit_length (n : Z) : Z :=
  if n =? 0 then 0 else Z.log2 n + 1.

(** [_count_righthand_zero_bits] *)
Definition count_righthand_zero_bits (number bits : Z) : Z :=
  if number =? 0 then bits
  else Z.min bits (bit_length (Z.land (Z.lnot number) (number - 1))).

(** [_prefix_from_ip_int]: the prefix length of a netmask given as an
    integer; [ValueError] when zeroes and ones are mixed. *)
Definition prefix_from_ip_int (ip_int : Z) : result Z :=
  let trailing_zeroes := count_righthand_zero_bits ip_int max_prefixlen in
  let prefixlen := max_prefixlen - trailing_zeroes in
  let leading_ones := Z.shiftr ip_int trailing_zeroes in
  let all_ones := Z.shiftl 1 prefixlen - 1 in
  if negb (leading_ones =? all_ones) then Raise ValueError
  else Ok prefixlen.

(** [_prefix_from_ip_string]: a mask in dotted form, read as a netmask
    ([255.255.240.0]) and, when that fails, as a hostmask
    ([0.0.15.255]). *)
Definition prefix_from_ip_string (ip_str : string) : result Z :=
  match ip_int_from_string ip_str with
  | Raise _ => Raise ValueError
  | Ok ip_int =>
      match prefix_from_ip_int ip_int with
      | Ok p => Ok p
      | Raise _ =>
          match prefix_from_ip_int (Z.lxor ip_int ALL_ONES) with
          | Ok p => Ok p
          | Raise _ => Raise ValueError
          end
      end
  end.

(** [_make_netmask] for a string, as far as the prefix length goes: the
    mask is read as a prefix length, and in dotted form when that fails. *)
Definition make_netmask (arg : string) : result Z :=
  match prefix_from_prefix_string arg with
  | Ok p => Ok p
  | Raise _ => prefix_from_ip_string arg
  end.

(** [IPv4Network(address)] for a string, [strict=True]. *)
Definition IPv4Network_of_string (address : string) : result IPv4Network :=
  match split "/" address with
  | [addr] =>
      a <- ip_int_from_string addr ;;
      Ok (mkNet a max_prefixlen)
  | [addr; mask] =>
      a <- ip_int_from_string addr ;;
      p <- make_netmask mask ;;
      if negb (Z.land a (ip_int_from_prefix p) =? a) then Raise ValueError
      else Ok (mkNet a p)
  | _ => Raise ValueError
  end.

(** [ip_int.to_bytes(4, 'big')] *)
Definition to_bytes (a : Z) : list Z :=
  [Z.land (Z.shiftr a 24) 255; Z.land (Z.shiftr a 16) 255;
   Z.land (Z.shiftr a 8) 255; Z.land a 255].

(** ['.'.join(map(str, octets))] *)
Definition string_from_ip_int (a : Z) : string :=
  String.concat "." (map str (to_bytes a)).

(** [net.compressed], that is [str(net)]. *)
Definition compressed (n : IPv4Network) : string :=
  string_from_ip_int (network_address n) ++ "/" ++ str (prefixlen n).

(** [net.subnets(new_prefix=new_prefix)], as a list.  The networks are
    built from [(address, prefix)] pairs; that their host bits are clear is
    lemmas [first_half_valid] and [second_half_valid] below. *)
Definition subnets (self : IPv4Network) (new_prefix : Z)
  : result (list IPv4Network) :=
  if prefixlen self =? max_prefixlen then Ok [self]
  else if new_prefix <? prefixlen self then Raise ValueError
  else
    let prefixlen_diff := new_prefix - prefixlen self in
    let new_prefixlen := prefixlen self + prefixlen_diff in
    if max_prefixlen <? new_prefixlen then Raise ValueError
    else
      let start := network_address self in
      let end_ := broadcast_address self + 1 in
      let step := Z.shiftr (hostmask self + 1) prefixlen_diff in
      Ok (map (fun new_addr => mkNet new_addr new_prefixlen)
              (range start end_ step)).

End Ipaddress.

Import Ipaddress.

(* ================================================================== *)
(** * The [ip_allocations] table *)

Module Dynamo.

(** The attributes the script reads or writes, besides the key [cidr].
    A missing attribute is [None]. *)
Record Item : Type := mkItem {
  size : option string;
  availability : option string;
  region : option string;
  account_id : option string;
  config_options : option string
}.

Definition empty_item : Item := mkItem None None None None None.

Inductive attr : Type :=
| Size | Availability | Region | AccountId | ConfigOptions.

Definition set_attr (a : attr) (v : string) (it : Item) : Item :=
  match a with
  | Size => mkItem (Some v) (availability it) (region it) (account_id it) (config_options it)
  | Availability => mkItem (size it) (Some v) (region it) (account_id it) (config_options it)
  | Region => mkItem (size it) (availability it) (Some v) (account_id it) (config_options it)
  | AccountId => mkItem (size it) (availability it) (region it) (Some v) (config_options it)
  | ConfigOptions => mkItem (size it) (availability it) (region it) (account_id it) (Some v)
  end.

(** An [UpdateExpression] of the form [SET a1 = :v1, a2 = :v2, ...]. *)
Definition assignments : Type := list (attr * string).

Definition apply_set (sets : assignments) (it : Item) : Item :=
  fold_left (fun it av => set_attr (fst av) (snd av) it) sets it.

(** The table: one item per key, in the order in which a scan returns
    them.  DynamoDB does not promise any order; the theorems hold for
    every order. *)
Definition Table : Type := list (string * Item).

Definition keys (t : Table) : list string := map fst t.

Fixpoint get_item (key : string) (t : Table) : option Item :=
  match t with
  | [] => None
  | (k, it) :: r => if String.eqb k key then Some it else get_item key r
  end.

(** [update_item]: the item is created when the key is absent, and
    attributes not named by the expression keep their value. *)
Fixpoint update_item (key : string) (sets : assignments) (t : Table) : Table :=
  match t with
  | [] => [(key, apply_set sets empty_item)]
  | (k, it) :: r =>
      if String.eqb k key then (k, apply_set sets it) :: r
      else (k, it) :: update_item key sets r
  end.

(** [delete_item]: no error when the key is absent. *)
Fixpoint delete_item (key : string) (t : Table) : Table :=
  match t with
  | [] => []
  | (k, it) :: r =>
      if String.eqb k key then delete_item key r
      else (k, it) :: delete_item key r
  end.

Definition attr_is (o : option string) (v : string) : bool :=
  match o with
  | Some s => String.eqb s v
  | None => false
  end.

(** The filter [#size = :size and availability = :availability and
    #region = :region] with [:availability = "available"]. *)
Definition filter_expression (sz rg : string) (kv : string * Item) : bool :=
  (attr_is (size (snd kv)) sz &&
   attr_is (availability (snd kv)) "available" &&
   attr_is (region (snd kv)) rg)%bool.

(** [scan]: the matching items ([response['Items']]); the whole table is
    read in one page. *)
Definition scan (sz rg : string) (t : Table) : list (string * Item) :=
  filter (filter_expression sz rg) t.

(** The calls made on the client, in order. *)
Inductive call : Type :=
| Scan (sz rg : string)
| UpdateItem (key : string) (sets : assignments)
| DeleteItem (key : string).

Definition apply_call (c : call) (t : Table) : Table :=
  match c with
  | Scan _ _ => t
  | UpdateItem key sets => update_item key sets t
  | DeleteItem key => delete_item key t
  end.

(** The table after a sequence of calls. *)
Definition replay (cs : list call) (t : Table) : Table :=
  fold_left (fun t c => apply_call c t) cs t.

(** The client: the table and the calls made so far. *)
Record client : Type := mkClient {
  table : Table;
  calls : list call
}.

(** A computation that talks to the client and may raise.  What was
    written before an exception stays written. *)
Definition M (A : Type) : Type := client -> result A * client.

Definition ret {A} (a : A) : M A := fun c => (Ok a, c).
Definition raise {A} (e : exn) : M A := fun c => (Raise e, c).
Definition lift {A} (r : result A) : M A := fun c => (r, c).

Definition bind {A B} (m : M A) (k : A -> M B) : M B :=
  fun c =>
    match m c with
    | (Ok a, c') => k a c'
    | (Raise e, c') => (Raise e, c')
    end.

(** A call that the service answers: it is applied to the table and
    logged.  (A call can also be refused; the allocator on such a client
    is in [Unreliable].) *)
Definition do_call (cl : call) : M unit :=
  fun c => (Ok tt, mkClient (apply_call cl (table c)) (calls c ++ [cl])%list).

Definition client_scan (sz rg : string) : M (list (string * Item)) :=
  fun c => (Ok (scan sz rg (table c)), mkClient (table c) (calls c ++ [Scan sz rg])%list).

Definition client_update_item (key : string) (sets : assignments) : M unit :=
  do_call (UpdateItem key sets).

Definition client_delete_item (key : string) : M unit :=
  do_call (DeleteItem key).

Fixpoint for_each {A} (l : list A) (body : A -> M unit) : M unit :=
  match l with
  | [] => ret tt
  | a :: r => bind (body a) (fun _ => for_each r body)
  end.

End Dynamo.

Import Dynamo.

Notation "x <~ m ;; k" := (bind m (fun x => k))
  (at level 100, m at next level, right associativity).

(* ================================================================== *)
(** * The script *)

Module VpcSetup.

Definition config_map (account_type : string) : result string :=
  if String.eqb account_type "production-pci" then Ok "prod-pci"
  else if String.eqb account_type "production" then Ok "prod"
  else if String.eqb account_type "nonproduction-customer" then Ok "prod"
  else if String.eqb account_type "internal" then Ok "nonprod"
  else Raise KeyError.

Definition newline : string := String (ascii_of_nat 10) EmptyString.

(** [ip_re.match(s)] for [ip_re = ^/[1-2][0-9]$]; without [re.MULTILINE],
    [$] matches at the end of the string and also just before a newline
    that ends the string. *)
Definition ip_re_match (s : string) : bool :=
  match s with
  | String c0 (String d1 (String d2 rest)) =>
      (Ascii.eqb c0 "/" &&
       (Ascii.eqb d1 "1" || Ascii.eqb d1 "2") &&
       isdigit_char d2 &&
       (String.eqb rest "" || String.eqb rest newline))%bool
  | _ => false
  end.

Definition is_slash (c : ascii) : bool := Ascii.eqb c "/".

(** Lines 115-129.  [fuel] bounds the iterations of the [while]; the
    loop runs [prefixlen_diff] times. *)
Fixpoint slicing_loop (fuel : nat) (prefixlen prefixlen_diff i : Z)
    (availablenetwork : IPv4Network) (sliced2_network_fulllist : list string)
  : result (list string) :=
  if i <=? prefixlen_diff then
    match fuel with
    | O => Raise OutOfFuel
    | S fuel' =>
        sliced2_network <- subnets availablenetwork (prefixlen + i) ;;
        first <- index_0 sliced2_network ;;
        let fulllist := (sliced2_network_fulllist ++ [compressed first])%list in
        availablenetwork <- index_m1 sliced2_network ;;
        let fulllist :=
          if i =? prefixlen_diff
          then (fulllist ++ [compressed availablenetwork])%list
          else fulllist in
        slicing_loop fuel' prefixlen prefixlen_diff (i + 1)
                     availablenetwork fulllist
    end
  else Ok sliced2_network_fulllist.

Definition cidr_slicing (ip_block : string) (netmask : Z)
  : result (list string) :=
  availablenetwork <- IPv4Network_of_string ip_block ;;
  let prefixlen := prefixlen availablenetwork in
  let prefixlen_diff := netmask - prefixlen in
  slicing_loop (Z.to_nat prefixlen_diff) prefixlen prefixlen_diff 1
               availablenetwork [].

Definition pool_exhausted : exn :=
  SystemExit "Not able to find an appropriately sized CIDR in the region. Please consult Cloud Services DevSecOps".

Definition invalid_request : exn :=
  SystemExit "Your IP Allocation looks invalid (should be /18 - /28).".

(** Lines 149-169, the [while response['Count'] == 0] loop. *)
Fixpoint widen (fuel : nat) (base_region : string) (netmask : Z)
    (response : list (string * Item)) : M (list (string * Item)) :=
  if Nat.eqb (List.length response) 0 then
    match fuel with
    | O => raise OutOfFuel
    | S fuel' =>
        let netmask := netmask - 1 in
        if netmask <? 16 then raise pool_exhausted
        else
          response <~ client_scan ("/" ++ str netmask) base_region ;;
          widen fuel' base_region netmask response
    end
  else ret response.

Definition sibling_sets (base_region network : string) : assignments :=
  [(Size, last3 network); (Availability, "available"); (Region, base_region)].

Definition in_use_sets (account_id base_region config_options sz : string)
  : assignments :=
  [(Size, sz); (Availability, "in-use"); (AccountId, account_id);
   (Region, base_region); (ConfigOptions, config_options)].

Definition claim_sets (account_id config_options : string) : assignments :=
  [(Availability, "in-use"); (AccountId, account_id);
   (ConfigOptions, config_options)].

(** Lines 175-187: the block found has the requested size and is claimed
    as it is. *)
Definition claim_found (account_id config_options ip_block : string)
  : M string :=
  _ <~ client_update_item ip_block (claim_sets account_id config_options) ;;
  ret ip_block.

(** Lines 189-233: the block found is sliced, every slice is written as
    available, [network_list[-2]] is then marked in-use and the sliced
    block is removed.  ([network_list[-2]] is first evaluated by the
    [print] of line 190, before any write.) *)
Definition slice_and_claim (account_id base_region config_options ip_block
                            : string) (netmask : Z) : M string :=
  network_list <~ lift (cidr_slicing ip_block netmask) ;;
  _ <~ lift (index_m2 network_list) ;;
  _ <~ for_each network_list
         (fun network =>
            client_update_item network (sibling_sets base_region network)) ;;
  claimed <~ lift (index_m2 network_list) ;;
  _ <~ client_update_item claimed
         (in_use_sets account_id base_region config_options (last3 claimed)) ;;
  _ <~ client_delete_item ip_block ;;
  ret claimed.

(** Lines 132-233, the branch [manual_cidr == "no"].  The result is
    [new_cidr]. *)
Definition automatic (account_id account_type base_region ip_allocation : string)
  : M string :=
  response <~ client_scan ip_allocation base_region ;;
  netmask <~ lift (int (strip is_slash ip_allocation)) ;;
  response <~ widen (S (Z.to_nat netmask)) base_region netmask response ;;
  env <~ lift (config_map account_type) ;;
  let config_options := env ++ "-" ++ base_region in
  CIDR <~ lift (index_0 response) ;;
  let ip_block := fst CIDR in
  netmask <~ lift (int (strip is_slash ip_allocation)) ;;
  if str_in ip_allocation ip_block
  then claim_found account_id config_options ip_block
  else slice_and_claim account_id base_region config_options ip_block netmask.

(** Lines 236-257, the branch [manual_cidr != "no"]. *)
Definition manual (account_id account_type base_region ip_allocation
                   manual_cidr : string) : M string :=
  let ip_block := manual_cidr in
  env <~ lift (config_map account_type) ;;
  let config_options := env ++ "-" ++ base_region in
  _ <~ client_update_item ip_block
         (in_use_sets account_id base_region config_options ip_allocation) ;;
  ret ip_block.

(** The allocator part of the script: the size check of lines 76-78, then
    one of the two branches. *)
Definition allocate (account_id account_type base_region ip_allocation
                     manual_cidr : string) : M string :=
  if negb (ip_re_match ip_allocation) then raise invalid_request
  else if String.eqb manual_cidr "no"
       then automatic account_id account_type base_region ip_allocation
       else manual account_id account_type base_region ip_allocation manual_cidr.

End VpcSetup.

Import VpcSetup.

(* ================================================================== *)
(** * The [re] module, as far as the script uses it *)

Module Re.

(** The patterns of the script are made of literal characters, character
    classes, sequences, alternatives and counted repetitions, between [^]
    and [$]. *)
Inductive regex : Type :=
| Eps
| Chr (c : ascii)
| Class (cs : list ascii)
| Seq (r1 r2 : regex)
| Alt (r1 r2 : regex).

(** [r{n}] *)
Fixpoint times (n : nat) (r : regex) : regex :=
  match n with
  | O => Eps
  | S n' => Seq r (times n' r)
  end.

(** A literal word. *)
Fixpoint lit (s : string) : regex :=
  match s with
  | EmptyString => Eps
  | String c t => Seq (Chr c) (lit t)
  end.

(** [(w1|w2|...)] for literal words, in that order. *)
Fixpoint words (w : string) (ws : list string) : regex :=
  match ws with
  | [] => lit w
  | w' :: ws' => Alt (lit w) (words w' ws')
  end.

(** [\d] on ASCII text: the digits [0-9].  (On a [str] Python's [\d] also
    matches the decimal digits of other scripts, which the 8-bit characters
    of these strings do not represent; the statements about [\d] are about
    ASCII strings.) *)
Definition digit : regex :=
  Class ["0"; "1"; "2"; "3"; "4"; "5"; "6"; "7"; "8"; "9"]%char.

(** Matching by backtracking: [matches r s k] tries every way in which [r]
    matches at the start of [s], and asks [k] about what is left. *)
Fixpoint matches (r : regex) (s : string) (k : string -> bool) : bool :=
  match r with
  | Eps => k s
  | Chr c =>
      match s with
      | String a t => (Ascii.eqb a c && k t)%bool
      | EmptyString => false
      end
  | Class cs =>
      match s with
      | String a t => (existsb (Ascii.eqb a) cs && k t)%bool
      | EmptyString => false
      end
  | Seq r1 r2 => matches r1 s (fun rest => matches r2 rest k)
  | Alt r1 r2 => (matches r1 s k || matches r2 s k)%bool
  end.

(** [$] without [re.MULTILINE]: at the end of the string, and also just
    before a newline that ends the string. *)
Definition at_end (s : string) : bool :=
  (String.eqb s "" || String.eqb s newline)%bool.

(** [re.compile("^" + r + "$").match(s)] finds a match. *)
Definition re_match (r : regex) (s : string) : bool := matches r s at_end.

End Re.

Import Re.

(* ================================================================== *)
(** * The checks before the allocation *)

Module Checks.

(** Line 37: [^\d{12}$]. *)
Definition account_id_re : regex := times 12 digit.

(** Line 61:
    [^(us|ap|sa|eu|ca)\-(east|west|northeast|southeast|south|central)\-[1-3]$]. *)
Definition region_re : regex :=
  Seq (words "us" ["ap"; "sa"; "eu"; "ca"])
      (Seq (Chr "-")
           (Seq (words "east" ["west"; "northeast"; "southeast"; "south";
                               "central"])
                (Seq (Chr "-") (Class ["1"; "2"; "3"]%char)))).

(** [get_item] on a table keyed by a string; [None] when the response has
    no ['Item']. *)
Fixpoint lookup {A} (key : string) (t : list (string * A)) : option A :=
  match t with
  | [] => None
  | (k, v) :: r => if String.eqb k key then Some v else lookup key r
  end.

Definition wrong_place : exn :=
  SystemExit "This script is designed to be run in AWS Cloud Management regions only (US-WEST-2 and EU-WEST-1)".

Definition malformed_account_id : exn :=
  SystemExit "Malformed AWS Account ID. Please verify and try again.".

Definition unknown_account : exn :=
  SystemExit "Unable to find Account ID in the mapping table. Please verify the ID or raise a ticket with AWS Cloud Services.".

Definition sandbox_account : exn :=
  SystemExit "VPCs in sandbox accounts are not created via this process, but directly within the AWS console.".

Definition invalid_region : exn :=
  SystemExit "Your region looks invalid.".

Definition unknown_region : exn :=
  SystemExit "Unable to find region details in the mapping table. Please verify the availability of the region in the same environment as the requesting account or raise a ticket with AWS Cloud Services.".

Definition invalid_transit : exn :=
  SystemExit "You must specify yes or no for the transit connectivity.".

Definition invalid_peering : exn :=
  SystemExit "You must specify yes or no for the peering connectivity".

(** Lines 66-73: the mapping table is read only when peering or transit is
    asked for; [config_map[account_type]] is evaluated first. *)
Definition check_vpc_mapping (vpc_mapping : list (string * unit))
    (account_type base_region transit peering : string) : result unit :=
  if (String.eqb peering "yes" || String.eqb transit "yes")%bool then
    env <- config_map account_type ;;
    match lookup (env ++ "-" ++ base_region) vpc_mapping with
    | None => Raise unknown_region
    | Some _ => Ok tt
    end
  else Ok tt.

(** Lines 33-86, in the order of the script.  [metadata_region] is
    [ec2_metadata.region]; [account_mapping] gives the name and the type of
    an account, [vpc_mapping] has one item per [config_options].  The size
    check of lines 76-78 is [ip_re_match], as in [allocate].  The result is
    [(account_name, account_type)]. *)
Definition checks (metadata_region : string)
    (account_mapping : list (string * (string * string)))
    (vpc_mapping : list (string * unit))
    (account_id base_region ip_allocation transit peering : string)
  : result (string * string) :=
  if (negb (String.eqb metadata_region "us-west-2") &&
      negb (String.eqb metadata_region "eu-west-1"))%bool
  then Raise wrong_place
  else if negb (re_match account_id_re account_id)
  then Raise malformed_account_id
  else
    match lookup account_id account_mapping with
    | None => Raise unknown_account
    | Some (account_name, account_type) =>
        if String.eqb account_type "sandbox" then Raise sandbox_account
        else if negb (re_match region_re base_region) then Raise invalid_region
        else
          _ <- check_vpc_mapping vpc_mapping account_type base_region
                                 transit peering ;;
          if negb (ip_re_match ip_allocation) then Raise invalid_request
          else if (negb (String.eqb transit "yes") &&
                   negb (String.eqb transit "no"))%bool
          then Raise invalid_transit
          else if (negb (String.eqb peering "yes") &&
                   negb (String.eqb peering "no"))%bool
          then Raise invalid_peering
          else Ok (account_name, account_type)
    end.

(** [s.replace(old, new)] for one-character [old] and [new]. *)
Fixpoint replace (old new : ascii) (s : string) : string :=
  match s with
  | EmptyString => EmptyString
  | String c t =>
      String (if Ascii.eqb c old then new else c) (replace old new t)
  end.

(** [c.lower()] on an ASCII character: the letters [A-Z] become [a-z].
    (On other characters [str.lower] follows Unicode, and can even change
    the length of a string; the statements about [lower] are about ASCII
    strings.) *)
Definition lower_char (c : ascii) : ascii :=
  let n := nat_of_ascii c in
  if (Nat.leb 65 n && Nat.leb n 90)%bool then ascii_of_nat (n + 32) else c.

(** [s.lower()] *)
Fixpoint lower (s : string) : string :=
  match s with
  | EmptyString => EmptyString
  | String c t => String (lower_char c) (lower t)
  end.

(** Line 95: [vpc_name = vpc_name.replace(" ", "_")]. *)
Definition normal_name (vpc_name : string) : string := replace " " "_" vpc_name.

(** Line 96, [vd]. *)
Definition vd (account_dir base_region : string) : string :=
  account_dir ++ "/environment_regional_" ++ replace "-" "_" base_region.

(** Line 97, [vf], with [vpc_name] as line 95 left it. *)
Definition vf (account_dir base_region vpc_name : string) : string :=
  account_dir ++ "/environment_regional_" ++ replace "-" "_" base_region
  ++ "/vpc_" ++ lower vpc_name ++ ".tf".

End Checks.

Import Checks.

(* ================================================================== *)
(** * The allocator when a call on the table can fail *)

Module Unreliable.

(** In [VpcSetup] every call on the client is answered.  A call of boto3
    can also raise: the service refuses the request (an empty key, a
    throttled or unauthorised call) or cannot be reached.  The script has
    no [try] around its calls, so the exception ends the run, and what
    was written before stays written.

    Here the statements of lines 132-257 run against such a client.
    [answers log cl] says whether the call [cl], made after the calls
    [log] were answered, is answered too; when it is not, the call raises
    and leaves the table and the log as they are. *)

Section Ledger.

Variable answers : list call -> call -> bool.

Definition attempt {A} (cl : call) (m : M A) : M A :=
  fun c => if answers (calls c) cl then m c else (Raise ClientError, c).

Definition client_scan (sz rg : string) : M (list (string * Item)) :=
  attempt (Scan sz rg) (Dynamo.client_scan sz rg).

Definition client_update_item (key : string) (sets : assignments) : M unit :=
  attempt (UpdateItem key sets) (Dynamo.client_update_item key sets).

Definition client_delete_item (key : string) : M unit :=
  attempt (DeleteItem key) (Dynamo.client_delete_item key).

(** Lines 149-169. *)
Fixpoint widen (fuel : nat) (base_region : string) (netmask : Z)
    (response : list (string * Item)) : M (list (string * Item)) :=
  if Nat.eqb (List.length response) 0 then
    match fuel with
    | O => raise OutOfFuel
    | S fuel' =>
        let netmask := netmask - 1 in
        if netmask <? 16 then raise pool_exhausted
        else
          response <~ client_scan ("/" ++ str netmask) base_region ;;
          widen fuel' base_region netmask response
    end
  else ret response.

(** Lines 175-187. *)
Definition claim_found (account_id config_options ip_block : string)
  : M string :=
  _ <~ client_update_item ip_block (claim_sets account_id config_options) ;;
  ret ip_block.

(** Lines 189-233. *)
Definition slice_and_claim (account_id base_region config_options ip_block
                            : string) (netmask : Z) : M string :=
  network_list <~ lift (cidr_slicing ip_block netmask) ;;
  _ <~ lift (index_m2 network_list) ;;
  _ <~ for_each network_list
         (fun network =>
            client_update_item network (sibling_sets base_region network)) ;;
  claimed <~ lift (index_m2 network_list) ;;
  _ <~ client_update_item claimed
         (in_use_sets account_id base_region config_options (last3 claimed)) ;;
  _ <~ client_delete_item ip_block ;;
  ret claimed.

(** Lines 132-233. *)
Definition automatic (account_id account_type base_region ip_allocation : string)
  : M string :=
  response <~ client_scan ip_allocation base_region ;;
  netmask <~ lift (int (strip is_slash ip_allocation)) ;;
  response <~ widen (S (Z.to_nat netmask)) base_region netmask response ;;
  env <~ lift (config_map account_type) ;;
  let config_options := env ++ "-" ++ base_region in
  CIDR <~ lift (index_0 response) ;;
  let ip_block := fst CIDR in
  netmask <~ lift (int (strip is_slash ip_allocation)) ;;
  if str_in ip_allocation ip_block
  then claim_found account_id config_options ip_block
  else slice_and_claim account_id base_region config_options ip_block netmask.

(** Lines 236-257. *)
Definition manual (account_id account_type base_region ip_allocation
                   manual_cidr : string) : M string :=
  let ip_block := manual_cidr in
  env <~ lift (config_map account_type) ;;
  let config_options := env ++ "-" ++ base_region in
  _ <~ client_update_item ip_block
         (in_use_sets account_id base_region config_options ip_allocation) ;;
  ret ip_block.

(** The size check of lines 76-78, then one of the two branches. *)
Definition allocate (account_id account_type base_region ip_allocation
                     manual_cidr : string) : M string :=
  if negb (ip_re_match ip_allocation) then raise invalid_request
  else if String.eqb manual_cidr "no"
       then automatic account_id account_type base_region ip_allocation
       else manual account_id account_type base_region ip_allocation manual_cidr.

End Ledger.

End Unreliable.

(* ================================================================== *)
(** * The vocabulary of the statements *)

(** What the constructor of [IPv4Network] guarantees: a prefix length in
    [0..32], a 32-bit address, and no host bit set. *)
Definition valid (n : IPv4Network) : Prop :=
  0 <= prefixlen n <= 32 /\
  0 <= network_address n < 2 ^ 32 /\
  network_address n mod 2 ^ (32 - prefixlen n) = 0.

(** [x in n], for an address [x]: Python compares [x] with the network and
    broadcast addresses. *)
Definition in_net (x : Z) (n : IPv4Network) : Prop :=
  network_address n <= x <= broadcast_address n.

(** The two halves of a network. *)
Definition first_half (n : IPv4Network) : IPv4Network :=
  mkNet (network_address n) (prefixlen n + 1).

Definition second_half (n : IPv4Network) : IPv4Network :=
  mkNet (network_address n + 2 ^ (31 - prefixlen n)) (prefixlen n + 1).

(** The character [c] occurs in [s]. *)
Fixpoint has_char (c : ascii) (s : string) : bool :=
  match s with
  | EmptyString => false
  | String a t => (Ascii.eqb a c || has_char c t)%bool
  end.

(** A byte is printed without [.] or [/], and read back as itself. *)
Definition octet_check (o : Z) : bool :=
  (negb (has_char "." (str o)) && negb (has_char "/" (str o)) &&
   match parse_octet (str o) with
   | Ok o' => o' =? o
   | Raise _ => false
   end)%bool.

(** A prefix length is printed without [/], on at most two characters
    (two from 10 on), and read back as itself. *)
Definition prefix_check (p : Z) : bool :=
  (negb (has_char "/" (str p)) &&
   Nat.leb (String.length (str p)) 2 &&
   (if 10 <=? p then Nat.eqb (String.length (str p)) 2 else true) &&
   match prefix_from_prefix_string (str p) with
   | Ok p' => p' =? p
   | Raise _ => false
   end)%bool.

(** The halving chain: [r] times, keep the first half and go on with the
    second half; the block that remains closes the list. *)
Fixpoint chain (r : nat) (n : IPv4Network) : list IPv4Network :=
  match r with
  | O => [n]
  | S r' => first_half n :: chain r' (second_half n)
  end.

(** The strings of a list are the compressed forms of these networks;
    each string reads back as its network. *)
Definition denotes (strs : list string) (nets : list IPv4Network) : Prop :=
  Forall2 (fun s n => s = compressed n /\ IPv4Network_of_string s = Ok n)
          strs nets.

(** [l] covers [lo, hi) from left to right, each block starting where the
    one before it ends. *)
Fixpoint tiles (l : list IPv4Network) (lo hi : Z) : Prop :=
  match l with
  | [] => lo = hi
  | n :: r =>
      network_address n = lo /\ tiles r (lo + 2 ^ (32 - prefixlen n)) hi
  end.

(** [hi, hi-1, ..., lo]; empty when [hi < lo]. *)
Definition countdown (hi lo : Z) : list Z :=
  map (fun i => hi - Z.of_nat i) (seq 0 (Z.to_nat (hi - lo + 1))).

(** The scans of the widening loop for these prefix lengths. *)
Definition scans (base_region : string) (ms : list Z) : list call :=
  map (fun m => Scan ("/" ++ str m) base_region) ms.

(** The writes of the [for network in network_list] loop. *)
Definition sibling_updates (base_region : string) (network_list : list string)
  : list call :=
  map (fun network => UpdateItem network (sibling_sets base_region network))
      network_list.

(** The prefix length that [ip_re] lets through and the script reads. *)
Definition requested_netmask (s : string) : Z :=
  match int (strip is_slash s) with
  | Ok m => m
  | Raise _ => 0
  end.

(** A block of the free pool as the table holds it. *)
Definition free_block (sz rg : string) : Item :=
  mkItem (Some sz) (Some "available") (Some rg) None None.

(** The client after the split path has run: slices written, the claimed
    one marked, the sliced block removed. *)
Definition after_slicing (account_id base_region config_options ip_block
                          claimed : string) (network_list : list string)
                         (c : client) : client :=
  mkClient
    (delete_item ip_block
       (update_item claimed
          (in_use_sets account_id base_region config_options (last3 claimed))
          (replay (sibling_updates base_region network_list) (table c))))
    (calls c ++ sibling_updates base_region network_list ++
     [UpdateItem claimed
        (in_use_sets account_id base_region config_options (last3 claimed));
      DeleteItem ip_block]).

(** The record of a block that is in use. *)
Definition in_use_item (sz account_id base_region config_options : string)
  : Item :=
  mkItem (Some sz) (Some "in-use") (Some base_region) (Some account_id)
         (Some config_options).

(** The size check on [/m] and on [/m] followed by a newline, for the
    numbers the pattern is meant to accept. *)
Definition ip_re_check (m : Z) : bool :=
  if 10 <=? m
  then (ip_re_match ("/" ++ str m) && ip_re_match ("/" ++ str m ++ newline))%bool
  else true.

(** The table [t] holds an available block [key] of size [sz] in the
    region [rg], and no other available block of that region. *)
Definition only_available (key sz rg : string) (t : Table) : Prop :=
  (exists it, In (key, it) t /\ size it = Some sz /\
              availability it = Some "available" /\ region it = Some rg) /\
  forall k it, In (k, it) t ->
    availability it = Some "available" -> region it = Some rg ->
    k = key /\ size it = Some sz.

(** The blocks named by a list of keys do not overlap: no key occurs
    twice, every key reads as a block, and two keys whose blocks share an
    address are the same key. *)
Definition disjoint_blocks (ks : list string) : Prop :=
  NoDup ks /\
  (forall k, In k ks -> exists n, IPv4Network_of_string k = Ok n) /\
  (forall k1 k2 n1 n2 x,
      In k1 ks -> In k2 ks ->
      IPv4Network_of_string k1 = Ok n1 -> IPv4Network_of_string k2 = Ok n2 ->
      in_net x n1 -> in_net x n2 -> k1 = k2).

(** The table records the block [k] as in use. *)
Definition recorded_in_use (k : string) (t : Table) : Prop :=
  exists it, get_item k t = Some it /\ availability it = Some "in-use".

(** The arguments of one run of the script. *)
Record request : Type := mkRequest {
  req_account_id : string;
  req_account_type : string;
  req_region : string;
  req_ip_allocation : string
}.

(** Successful automatic runs, one after another, with the blocks they
    returned.  A run starts from the table the run before it left; the
    order in which a scan lists the items is not fixed, and the log of
    calls of each run is its own. *)
Inductive runs : Table -> list string -> Table -> Prop :=
| runs_done (t : Table) : runs t [] t
| runs_step (t t1 : Table) (log : list call) (r : request) (cidr : string)
            (c' : client) (claimed : list string) (t' : Table) :
    Permutation t t1 ->
    allocate (req_account_id r) (req_account_type r) (req_region r)
             (req_ip_allocation r) "no" (mkClient t1 log) = (Ok cidr, c') ->
    runs (table c') claimed t' ->
    runs t (cidr :: claimed) t'.

(** The result is the marker of a loop of the model that ran out of
    iterations. *)
Definition is_out_of_fuel {A} (r : result A) : bool :=
  match r with
  | Raise OutOfFuel => true
  | _ => false
  end.

(** [m in s] for the sizes the check accepts and the prefix lengths a block
    can have, on the two numbers as they are printed. *)
Definition size_in_prefix_check (m : Z) : bool :=
  ((m <? 10) ||
   forallb (fun p => Bool.eqb (prefix (str m) (str p)) (p =? m))
           (map Z.of_nat (seq 0 33)))%bool.

(** The words a pattern matches in full. *)
Fixpoint lang (r : regex) (w : string) : Prop :=
  match r with
  | Eps => w = ""
  | Chr c => w = String c ""
  | Class cs => exists c, In c cs /\ w = String c ""
  | Seq r1 r2 => exists u v, w = u ++ v /\ lang r1 u /\ lang r2 v
  | Alt r1 r2 => lang r1 w \/ lang r2 w
  end.

(** The first parts and the second parts of the names of regions. *)
Definition region_areas : list string := ["us"; "ap"; "sa"; "eu"; "ca"].

Definition region_directions : list string :=
  ["east"; "west"; "northeast"; "southeast"; "south"; "central"].

(** [m] only talks to the client: the calls it makes are added to the
    log, and the table is what these calls make of it. *)
Definition traced {A} (m : M A) : Prop :=
  forall c, exists made,
    snd (m c) = mkClient (replay made (table c)) (calls c ++ made).

(** [mf] is [m] on a client that may refuse a call: it goes as [m] goes,
    or it stops with [ClientError] at the first call that is refused,
    after the calls that [m] makes before that one. *)
Definition interrupts {A} (answers : list call -> call -> bool)
    (mf m : M A) : Prop :=
  forall c,
    mf c = m c \/
    exists made cl rest,
      mf c = (Raise ClientError,
              mkClient (replay made (table c)) (calls c ++ made)) /\
      calls (snd (m c)) = (calls c ++ made ++ cl :: rest)%list /\
      answers (calls c ++ made)%list cl = false.

(** The client that answers the first [n] calls and refuses the next. *)
Definition answers_first (n : nat) (log : list call) (cl : call) : bool :=
  Nat.ltb (List.length log) n.

(* ================================================================== *)
(** * Bounded case analysis *)

(** A boolean property checked on [0 .. n-1] holds on that interval. *)
Lemma forall_below (f : Z -> bool) (n : nat) :
  forallb f (map Z.of_nat (seq 0 n)) = true ->
  forall z, 0 <= z < Z.of_nat n -> f z = true.
Proof.
  intros H z Hz.
  rewrite forallb_forall in H. apply H.
  replace z with (Z.of_nat (Z.to_nat z)) by lia.
  apply in_map, in_seq. lia.
Qed.

(* ================================================================== *)
(** * Networks as address ranges *)

Section Networks.

Lemma hostmask_ones a p :
  0 <= p <= 32 -> hostmask (mkNet a p) = 2 ^ (32 - p) - 1.
Proof.
  intros Hp. unfold hostmask, netmask. cbn [prefixlen].
  apply Z.eqb_eq.
  apply (forall_below
           (fun p => Z.lxor (ip_int_from_prefix p) ALL_ONES =? 2 ^ (32 - p) - 1)
           33); [vm_compute; reflexivity | lia].
Qed.

Lemma masks_disjoint p :
  0 <= p <= 32 ->
  Z.land (ip_int_from_prefix p) (2 ^ (32 - p) - 1) = 0 /\
  Z.lor (ip_int_from_prefix p) (2 ^ (32 - p) - 1) = Z.ones 32.
Proof.
  intros Hp.
  assert (H : ((Z.land (ip_int_from_prefix p) (2 ^ (32 - p) - 1) =? 0) &&
               (Z.lor (ip_int_from_prefix p) (2 ^ (32 - p) - 1) =? Z.ones 32))%bool
              = true).
  { apply (forall_below
             (fun p => ((Z.land (ip_int_from_prefix p) (2 ^ (32 - p) - 1) =? 0) &&
                        (Z.lor (ip_int_from_prefix p) (2 ^ (32 - p) - 1) =? Z.ones 32))%bool)
             33); [vm_compute; reflexivity | lia]. }
  apply andb_true_iff in H. destruct H as [H1 H2].
  apply Z.eqb_eq in H1, H2. split; assumption.
Qed.

Lemma pow2_minus_1_ones k : 0 <= k -> 2 ^ k - 1 = Z.ones k.
Proof. intros. rewrite Z.ones_equiv. lia. Qed.

(** The strict check of the constructor says that the host bits are
    clear. *)
Lemma strict_check_iff a p :
  0 <= p <= 32 -> 0 <= a < 2 ^ 32 ->
  Z.land a (ip_int_from_prefix p) = a <-> a mod 2 ^ (32 - p) = 0.
Proof.
  intros Hp Ha.
  destruct (masks_disjoint p Hp) as [Hd Hu].
  assert (Hk : 0 <= 32 - p) by lia.
  rewrite <- (Z.land_ones a (32 - p) Hk), <- pow2_minus_1_ones by lia.
  split; intros H.
  - rewrite <- H, <- Z.land_assoc, Hd. apply Z.land_0_r.
  - assert (Ha32 : Z.land a (Z.ones 32) = a).
    { rewrite Z.land_ones by lia. apply Z.mod_small. lia. }
    rewrite <- Hu, Z.land_lor_distr_r, H, Z.lor_0_r in Ha32. exact Ha32.
Qed.

Lemma broadcast_address_valid n :
  valid n ->
  broadcast_address n = network_address n + 2 ^ (32 - prefixlen n) - 1.
Proof.
  destruct n as [a p]. unfold valid, broadcast_address. cbn [network_address prefixlen].
  intros (Hp & Ha & Hm).
  rewrite hostmask_ones by lia.
  assert (Hl : Z.land a (2 ^ (32 - p) - 1) = 0).
  { rewrite pow2_minus_1_ones, Z.land_ones by lia. exact Hm. }
  pose proof (Z.add_lor_land a (2 ^ (32 - p) - 1)) as H.
  rewrite Hl in H. lia.
Qed.

Lemma in_net_valid x n :
  valid n ->
  in_net x n <->
  network_address n <= x < network_address n + 2 ^ (32 - prefixlen n).
Proof.
  intros Hv. unfold in_net. rewrite (broadcast_address_valid n Hv). lia.
Qed.

Lemma pow2_half k : 1 <= k -> 2 ^ k = 2 * 2 ^ (k - 1).
Proof.
  intros Hk. replace k with (1 + (k - 1)) at 1 by lia.
  rewrite Z.pow_add_r by lia. reflexivity.
Qed.

Lemma valid_end_le n :
  valid n -> network_address n + 2 ^ (32 - prefixlen n) <= 2 ^ 32.
Proof.
  destruct n as [a p]. unfold valid. cbn [network_address prefixlen].
  intros (Hp & Ha & Hm).
  assert (Hpos : 0 < 2 ^ (32 - p)) by (apply Z.pow_pos_nonneg; lia).
  assert (Hsplit : 2 ^ 32 = 2 ^ p * 2 ^ (32 - p)).
  { rewrite <- Z.pow_add_r by lia. f_equal. lia. }
  pose proof (Z.div_mod a (2 ^ (32 - p)) ltac:(lia)) as Hdm.
  rewrite Hm, Z.add_0_r in Hdm.
  assert (Hq : a / 2 ^ (32 - p) < 2 ^ p).
  { apply Z.div_lt_upper_bound; lia. }
  nia.
Qed.

Lemma first_half_valid n :
  valid n -> prefixlen n < 32 -> valid (first_half n).
Proof.
  destruct n as [a p]. unfold valid, first_half. cbn [network_address prefixlen].
  intros (Hp & Ha & Hm) Hlt.
  repeat split; try lia.
  replace (32 - (p + 1)) with (32 - p - 1) by lia.
  assert (Hpos : 0 < 2 ^ (32 - p - 1)) by (apply Z.pow_pos_nonneg; lia).
  pose proof (pow2_half (32 - p) ltac:(lia)) as Hh.
  apply Z.mod_divide in Hm; [| lia].
  apply Z.mod_divide; [lia |].
  destruct Hm as [q Hq]. exists (q * 2). lia.
Qed.

Lemma second_half_valid n :
  valid n -> prefixlen n < 32 -> valid (second_half n).
Proof.
  intros Hv Hlt.
  pose proof (valid_end_le n Hv) as Hend.
  pose proof (first_half_valid n Hv Hlt) as Hf.
  destruct n as [a p]. unfold valid, first_half, second_half in *.
  cbn [network_address prefixlen] in *.
  destruct Hv as (Hp & Ha & Hm). destruct Hf as (_ & _ & Hfm).
  replace (32 - (p + 1)) with (31 - p) in * by lia.
  assert (Hpos : 0 < 2 ^ (31 - p)) by (apply Z.pow_pos_nonneg; lia).
  pose proof (pow2_half (32 - p) ltac:(lia)) as Hh.
  replace (32 - p - 1) with (31 - p) in Hh by lia.
  repeat split; try lia.
  rewrite <- Z.add_mod_idemp_l, Hfm by lia.
  rewrite Z.add_0_l. apply Z.mod_same. lia.
Qed.

Lemma range_two start step :
  0 < step -> range start (start + 2 * step) step = [start; start + step].
Proof.
  intros Hs. unfold range.
  replace ((start + 2 * step - start + step - 1) / step) with 2.
  - reflexivity.
  - apply Z.div_unique with (r := step - 1); lia.
Qed.

(** Halving: [subnets] to the next prefix length yields the two halves. *)
Lemma subnets_halves n :
  valid n -> prefixlen n < 32 ->
  subnets n (prefixlen n + 1) = Ok [first_half n; second_half n].
Proof.
  intros Hv Hlt.
  pose proof (broadcast_address_valid n Hv) as Hb.
  destruct n as [a p]. unfold subnets, max_prefixlen, valid in *.
  cbn [network_address prefixlen] in *.
  destruct Hv as (Hp & Ha & Hm).
  replace (p =? 32) with false by (symmetry; apply Z.eqb_neq; lia).
  replace (p + 1 <? p) with false by (symmetry; apply Z.ltb_ge; lia).
  replace (p + 1 - p) with 1 by lia.
  replace (32 <? p + 1) with false by (symmetry; apply Z.ltb_ge; lia).
  rewrite Hb, hostmask_ones by lia.
  replace (2 ^ (32 - p) - 1 + 1) with (2 ^ (32 - p)) by lia.
  rewrite Z.shiftr_div_pow2 by lia.
  pose proof (pow2_half (32 - p) ltac:(lia)) as Hh.
  replace (32 - p - 1) with (31 - p) in Hh by lia.
  assert (Hpos : 0 < 2 ^ (31 - p)) by (apply Z.pow_pos_nonneg; lia).
  replace (2 ^ (32 - p) / 2 ^ 1) with (2 ^ (31 - p)).
  2:{ rewrite Hh. change (2 ^ 1) with 2.
      rewrite Z.mul_comm, Z.div_mul by lia. reflexivity. }
  replace (a + 2 ^ (32 - p) - 1 + 1) with (a + 2 * 2 ^ (31 - p)) by lia.
  rewrite range_two by lia. reflexivity.
Qed.

Lemma in_first_half x n :
  valid n -> prefixlen n < 32 ->
  in_net x (first_half n) <->
  network_address n <= x < network_address n + 2 ^ (31 - prefixlen n).
Proof.
  intros Hv Hlt.
  rewrite in_net_valid by (apply first_half_valid; assumption).
  unfold first_half. cbn [network_address prefixlen].
  replace (32 - (prefixlen n + 1)) with (31 - prefixlen n) by lia. lia.
Qed.

Lemma in_second_half x n :
  valid n -> prefixlen n < 32 ->
  in_net x (second_half n) <->
  network_address n + 2 ^ (31 - prefixlen n) <= x
  < network_address n + 2 ^ (32 - prefixlen n).
Proof.
  intros Hv Hlt.
  rewrite in_net_valid by (apply second_half_valid; assumption).
  unfold second_half. cbn [network_address prefixlen].
  replace (32 - (prefixlen n + 1)) with (31 - prefixlen n) by lia.
  pose proof (pow2_half (32 - prefixlen n) ltac:(destruct Hv; lia)) as Hh.
  replace (32 - prefixlen n - 1) with (31 - prefixlen n) in Hh by lia.
  lia.
Qed.

End Networks.

(* ================================================================== *)
(** * Printing a network and reading it back *)

Section Strings.

Lemma has_char_app c s1 s2 :
  has_char c (s1 ++ s2) = (has_char c s1 || has_char c s2)%bool.
Proof.
  induction s1 as [| a s1 IH]; cbn [append has_char]; [reflexivity |].
  rewrite IH. apply orb_assoc.
Qed.

Lemma split_no_sep sep s : has_char sep s = false -> split sep s = [s].
Proof.
  induction s as [| a s IH]; cbn [has_char split]; [reflexivity |].
  intros H. apply orb_false_iff in H. destruct H as [Ha Hs].
  rewrite Ha, (IH Hs). reflexivity.
Qed.

Lemma split_app sep s1 s2 :
  has_char sep s1 = false ->
  split sep (s1 ++ String sep s2) = s1 :: split sep s2.
Proof.
  induction s1 as [| a s1 IH]; cbn [has_char split append].
  - intros _. rewrite Ascii.eqb_refl. reflexivity.
  - intros H. apply orb_false_iff in H. destruct H as [Ha Hs].
    rewrite Ha, (IH Hs). reflexivity.
Qed.

Lemma octet_facts o :
  0 <= o < 256 ->
  has_char "." (str o) = false /\ has_char "/" (str o) = false /\
  parse_octet (str o) = Ok o.
Proof.
  intros Ho.
  assert (H : octet_check o = true).
  { apply (forall_below octet_check 256); [vm_compute; reflexivity | lia]. }
  unfold octet_check in H.
  apply andb_true_iff in H. destruct H as [H H3].
  apply andb_true_iff in H. destruct H as [H1 H2].
  apply negb_true_iff in H1, H2.
  destruct (parse_octet (str o)) as [o' |]; [| discriminate].
  apply Z.eqb_eq in H3. subst o'. auto.
Qed.

Lemma prefix_facts p :
  0 <= p <= 32 ->
  has_char "/" (str p) = false /\
  (String.length (str p) <= 2)%nat /\
  (10 <= p -> String.length (str p) = 2%nat) /\
  prefix_from_prefix_string (str p) = Ok p.
Proof.
  intros Hp.
  assert (H : prefix_check p = true).
  { apply (forall_below prefix_check 33); [vm_compute; reflexivity | lia]. }
  unfold prefix_check in H.
  apply andb_true_iff in H. destruct H as [H H4].
  apply andb_true_iff in H. destruct H as [H H3].
  apply andb_true_iff in H. destruct H as [H1 H2].
  apply negb_true_iff in H1. apply Nat.leb_le in H2.
  destruct (prefix_from_prefix_string (str p)) as [p' |]; [| discriminate].
  apply Z.eqb_eq in H4. subst p'.
  repeat split; auto.
  intros H10. apply Z.leb_le in H10. rewrite H10 in H3.
  apply Nat.eqb_eq. exact H3.
Qed.

Lemma lor_shiftl_byte acc b :
  0 <= b < 256 -> Z.lor (Z.shiftl acc 8) b = acc * 256 + b.
Proof.
  intros Hb.
  rewrite Z.shiftl_mul_pow2 by lia. change (2 ^ 8) with 256.
  pose proof (Z.add_lor_land (acc * 256) b) as H.
  assert (Hl : Z.land (acc * 256) b = 0).
  { replace b with (Z.land b (Z.ones 8)) at 1
      by (rewrite Z.land_ones by lia; apply Z.mod_small; exact Hb).
    rewrite (Z.land_comm b), Z.land_assoc, Z.land_ones by lia.
    change (2 ^ 8) with 256. rewrite Z.mod_mul by lia. reflexivity. }
  lia.
Qed.

Lemma to_bytes_range a :
  Forall (fun o => 0 <= o < 256) (to_bytes a).
Proof.
  unfold to_bytes.
  repeat constructor;
    (change 255 with (Z.ones 8); rewrite Z.land_ones by lia;
     change (2 ^ 8) with 256; apply Z.mod_pos_bound; lia).
Qed.

Lemma from_to_bytes a : 0 <= a < 2 ^ 32 -> from_bytes (to_bytes a) = a.
Proof.
  intros Ha.
  pose proof (to_bytes_range a) as Hr.
  unfold to_bytes in *. unfold from_bytes. cbn [fold_left].
  inversion_clear Hr as [| ? ? H1 Hr1].
  inversion_clear Hr1 as [| ? ? H2 Hr2].
  inversion_clear Hr2 as [| ? ? H3 Hr3].
  inversion_clear Hr3 as [| ? ? H4 _].
  rewrite !lor_shiftl_byte by assumption.
  change 255 with (Z.ones 8) in *.
  rewrite !Z.land_ones in * by lia.
  rewrite !Z.shiftr_div_pow2 in * by lia.
  change (2 ^ 8) with 256 in *. change (2 ^ 16) with 65536 in *.
  change (2 ^ 24) with 16777216 in *.
  change (2 ^ 32) with 4294967296 in *.
  clear H1 H2 H3 H4.
  Z.div_mod_to_equations. lia.
Qed.

Lemma string_from_ip_int_spec a :
  0 <= a < 2 ^ 32 ->
  has_char "/" (string_from_ip_int a) = false /\
  ip_int_from_string (string_from_ip_int a) = Ok a.
Proof.
  intros Ha.
  pose proof (from_to_bytes a Ha) as Hft.
  pose proof (to_bytes_range a) as Hr.
  unfold string_from_ip_int.
  destruct (to_bytes a) as [| o1 [| o2 [| o3 [| o4 [| ? ?]]]]] eqn:Eb;
    try discriminate.
  inversion_clear Hr as [| ? ? H1 Hr1].
  inversion_clear Hr1 as [| ? ? H2 Hr2].
  inversion_clear Hr2 as [| ? ? H3 Hr3].
  inversion_clear Hr3 as [| ? ? H4 _].
  destruct (octet_facts o1 H1) as (Hd1 & Hs1 & Hp1).
  destruct (octet_facts o2 H2) as (Hd2 & Hs2 & Hp2).
  destruct (octet_facts o3 H3) as (Hd3 & Hs3 & Hp3).
  destruct (octet_facts o4 H4) as (Hd4 & Hs4 & Hp4).
  cbn [map String.concat].
  generalize dependent (str o1). generalize dependent (str o2).
  generalize dependent (str o3). generalize dependent (str o4).
  intros s4 Hd4 Hs4 Hp4 s3 Hd3 Hs3 Hp3 s2 Hd2 Hs2 Hp2 s1 Hd1 Hs1 Hp1.
  change ("." ++ s2 ++ "." ++ s3 ++ "." ++ s4)
    with (String "." (s2 ++ String "." (s3 ++ String "." s4))).
  split.
  - rewrite !has_char_app. cbn [has_char].
    rewrite !has_char_app. cbn [has_char].
    rewrite !has_char_app. cbn [has_char].
    rewrite Hs1, Hs2, Hs3, Hs4. reflexivity.
  - unfold ip_int_from_string.
    assert (Hne : String.eqb (s1 ++ String "." (s2 ++ String "." (s3 ++ String "." s4))) "" = false).
    { destruct s1; reflexivity. }
    rewrite Hne.
    rewrite (split_app "." s1 _ Hd1), (split_app "." s2 _ Hd2),
            (split_app "." s3 _ Hd3), (split_no_sep "." s4 Hd4).
    cbn [List.length Nat.eqb negb parse_octets].
    rewrite Hp1, Hp2, Hp3, Hp4. cbn [rbind].
    rewrite Hft. reflexivity.
Qed.

(** Reading back the compressed form of a network gives the network. *)
Lemma IPv4Network_of_compressed n :
  valid n -> IPv4Network_of_string (compressed n) = Ok n.
Proof.
  destruct n as [a p]. unfold valid, compressed. cbn [network_address prefixlen].
  intros (Hp & Ha & Hm).
  destruct (string_from_ip_int_spec a Ha) as [Hs Hi].
  destruct (prefix_facts p Hp) as (Hps & _ & _ & Hpp).
  unfold IPv4Network_of_string.
  change ("/" ++ str p) with (String "/" (str p)).
  rewrite (split_app "/" _ _ Hs), (split_no_sep "/" _ Hps).
  unfold make_netmask. rewrite Hi, Hpp. cbn [rbind].
  replace (Z.land a (ip_int_from_prefix p) =? a) with true.
  - reflexivity.
  - symmetry. apply Z.eqb_eq. apply strict_check_iff; assumption.
Qed.

Lemma compressed_inj n m :
  valid n -> valid m -> compressed n = compressed m -> n = m.
Proof.
  intros Hn Hm E.
  pose proof (IPv4Network_of_compressed n Hn) as H1.
  rewrite E, (IPv4Network_of_compressed m Hm) in H1. congruence.
Qed.

End Strings.

(* ================================================================== *)
(** * What the constructor accepts is a valid network *)

Section Parsing.

Lemma isdigit_char_not_minus c : isdigit_char c = true -> Ascii.eqb c "-" = false.
Proof.
  intros H. apply Ascii.eqb_neq. intros ->. discriminate H.
Qed.

Lemma isdigit_char_not_space c : isdigit_char c = true -> isspace c = false.
Proof.
  unfold isdigit_char, isspace. intros H.
  apply andb_true_iff in H. destruct H as [H1 H2].
  apply Nat.leb_le in H1. apply Nat.leb_le in H2.
  apply orb_false_iff. split.
  - apply Nat.eqb_neq. lia.
  - apply andb_false_iff. right. apply Nat.leb_gt. lia.
Qed.

Lemma strip_keeps_head p c t :
  p c = false -> exists r, strip p (String c t) = String c r.
Proof.
  intros Hc. unfold strip. cbn [lstrip]. rewrite Hc. cbn [rstrip].
  rewrite Hc. destruct (rstrip p t); eexists; reflexivity.
Qed.

Lemma int_digits_nonneg s z : isdigit s = true -> int s = Ok z -> 0 <= z.
Proof.
  destruct s as [| c t]; [discriminate |].
  cbn [isdigit all_digits]. intros H. apply andb_true_iff in H.
  destruct H as [Hc _].
  destruct (strip_keeps_head isspace c t (isdigit_char_not_space c Hc)) as [r Hr].
  unfold int. rewrite Hr. cbn [NilZero.int_of_string].
  rewrite (isdigit_char_not_minus c Hc).
  destruct (NilZero.uint_of_string (String c r)) as [u |]; cbn [option_map];
    [| discriminate].
  intros E. injection E as <-. cbn [Z.of_int].
  unfold Z.of_uint. apply N2Z.is_nonneg.
Qed.

Lemma parse_octet_range s o : parse_octet s = Ok o -> 0 <= o < 256.
Proof.
  unfold parse_octet.
  destruct (isdigit s) eqn:Hd; cbn [negb]; [| discriminate].
  destruct (Nat.ltb 3 (String.length s)); [discriminate |].
  destruct (negb (String.eqb s "0") && prefix "0" s)%bool; [discriminate |].
  destruct (int s) as [z |] eqn:Hi; cbn [rbind]; [| discriminate].
  destruct (255 <? z) eqn:Hz; [discriminate |].
  intros E. injection E as <-.
  apply Z.ltb_ge in Hz. pose proof (int_digits_nonneg s z Hd Hi). lia.
Qed.

Lemma ip_int_from_string_range s a :
  ip_int_from_string s = Ok a -> 0 <= a < 2 ^ 32.
Proof.
  unfold ip_int_from_string.
  destruct (String.eqb s ""); [discriminate |].
  destruct (split "." s) as [| s1 [| s2 [| s3 [| s4 [| ? ?]]]]];
    cbn [List.length Nat.eqb negb]; try discriminate.
  cbn [parse_octets].
  destruct (parse_octet s1) as [o1 |] eqn:H1; cbn [rbind]; [| discriminate].
  destruct (parse_octet s2) as [o2 |] eqn:H2; cbn [rbind]; [| discriminate].
  destruct (parse_octet s3) as [o3 |] eqn:H3; cbn [rbind]; [| discriminate].
  destruct (parse_octet s4) as [o4 |] eqn:H4; cbn [rbind]; [| discriminate].
  intros E. injection E as <-.
  apply parse_octet_range in H1, H2, H3, H4.
  unfold from_bytes. cbn [fold_left].
  rewrite !lor_shiftl_byte by assumption.
  change (2 ^ 32) with 4294967296. lia.
Qed.

Lemma prefix_from_prefix_string_range s p :
  prefix_from_prefix_string s = Ok p -> 0 <= p <= 32.
Proof.
  unfold prefix_from_prefix_string.
  destruct (isdigit s); cbn [negb]; [| discriminate].
  destruct (int s) as [q |]; cbn [rbind]; [| discriminate].
  destruct ((0 <=? q) && (q <=? max_prefixlen))%bool eqn:Hq; [| discriminate].
  intros [= <-].
  apply andb_true_iff in Hq. destruct Hq as [H1 H2].
  apply Z.leb_le in H1. apply Z.leb_le in H2. unfold max_prefixlen in H2. lia.
Qed.

Lemma count_righthand_zero_bits_range number :
  0 <= count_righthand_zero_bits number 32 <= 32.
Proof.
  unfold count_righthand_zero_bits, bit_length.
  destruct (number =? 0); [lia |].
  destruct (Z.land (Z.lnot number) (number - 1) =? 0); [lia |].
  pose proof (Z.log2_nonneg (Z.land (Z.lnot number) (number - 1))). lia.
Qed.

Lemma prefix_from_ip_int_range a p :
  prefix_from_ip_int a = Ok p -> 0 <= p <= 32.
Proof.
  unfold prefix_from_ip_int. change max_prefixlen with 32.
  generalize (count_righthand_zero_bits_range a).
  generalize (count_righthand_zero_bits a 32). intros tz Htz. lazy zeta.
  destruct (negb _); [discriminate |].
  intros E. assert (E' : 32 - tz = p) by congruence. lia.
Qed.

(** Whatever the spelling of the mask, the prefix length read from it is
    in [0..32]. *)
Lemma make_netmask_range s p : make_netmask s = Ok p -> 0 <= p <= 32.
Proof.
  unfold make_netmask.
  destruct (prefix_from_prefix_string s) as [q |] eqn:Hq.
  - intros [= <-]. apply (prefix_from_prefix_string_range _ _ Hq).
  - unfold prefix_from_ip_string.
    destruct (ip_int_from_string s) as [a |]; [| discriminate].
    destruct (prefix_from_ip_int a) as [q |] eqn:H1.
    + intros [= <-]. apply (prefix_from_ip_int_range _ _ H1).
    + destruct (prefix_from_ip_int (Z.lxor a ALL_ONES)) as [q |] eqn:H2;
        [| discriminate].
      intros [= <-]. apply (prefix_from_ip_int_range _ _ H2).
Qed.

Lemma IPv4Network_of_string_valid s n :
  IPv4Network_of_string s = Ok n -> valid n.
Proof.
  unfold IPv4Network_of_string.
  destruct (split "/" s) as [| addr [| mask [| ? ?]]]; try discriminate.
  - destruct (ip_int_from_string addr) as [a |] eqn:Ha; cbn [rbind];
      [| discriminate].
    intros E. injection E as <-.
    apply ip_int_from_string_range in Ha.
    unfold valid, max_prefixlen. cbn [network_address prefixlen].
    repeat split; try lia.
    change (2 ^ (32 - 32)) with 1. apply Z.mod_1_r.
  - destruct (ip_int_from_string addr) as [a |] eqn:Ha; cbn [rbind];
      [| discriminate].
    destruct (make_netmask mask) as [p |] eqn:Hp; cbn [rbind];
      [| discriminate].
    destruct (Z.land a (ip_int_from_prefix p) =? a) eqn:Hs; cbn [negb];
      [| discriminate].
    intros E. injection E as <-.
    apply ip_int_from_string_range in Ha.
    apply make_netmask_range in Hp.
    apply Z.eqb_eq in Hs.
    unfold valid. cbn [network_address prefixlen].
    repeat split; try lia.
    apply strict_check_iff; [lia | lia | exact Hs].
Qed.

End Parsing.

(* ================================================================== *)
(** * What [cidr_slicing] returns *)

Section Slicing.

Lemma index_m1_two {A} (a b : A) : index_m1 [a; b] = Ok b.
Proof. reflexivity. Qed.

Lemma slicing_loop_done fuel p0 d i avail acc :
  d < i -> slicing_loop fuel p0 d i avail acc = Ok acc.
Proof.
  intros H. destruct fuel; cbn [slicing_loop];
    replace (i <=? d) with false by (symmetry; apply Z.leb_gt; lia);
    reflexivity.
Qed.

Lemma slicing_loop_chain p0 d :
  p0 + d <= 32 ->
  forall r i avail acc,
    (1 <= r)%nat -> Z.of_nat r = d - i + 1 ->
    valid avail -> prefixlen avail = p0 + i - 1 ->
    slicing_loop r p0 d i avail acc
    = Ok (acc ++ map compressed (chain r avail))%list.
Proof.
  intros Hd. induction r as [| r IH]; intros i avail acc Hr Hi Hv Hp; [lia |].
  cbn [slicing_loop].
  replace (i <=? d) with true by (symmetry; apply Z.leb_le; lia).
  replace (p0 + i) with (prefixlen avail + 1) by lia.
  rewrite subnets_halves by (assumption || lia).
  cbn [rbind index_0]. rewrite index_m1_two. cbn [rbind].
  destruct (i =? d) eqn:E.
  - apply Z.eqb_eq in E. assert (r = O) by lia. subst r.
    rewrite slicing_loop_done by lia.
    cbn [chain map]. rewrite <- app_assoc. reflexivity.
  - apply Z.eqb_neq in E.
    rewrite IH.
    + cbn [chain map]. rewrite <- app_assoc. reflexivity.
    + lia.
    + lia.
    + apply second_half_valid; [assumption | lia].
    + unfold second_half. cbn [prefixlen]. lia.
Qed.

(** A proper split returns the halving chain of the parent. *)
Lemma cidr_slicing_chain ip_block parent target :
  IPv4Network_of_string ip_block = Ok parent ->
  prefixlen parent < target <= 32 ->
  cidr_slicing ip_block target
  = Ok (map compressed (chain (Z.to_nat (target - prefixlen parent)) parent)).
Proof.
  intros Hparse Ht. unfold cidr_slicing. rewrite Hparse. cbn [rbind].
  rewrite (slicing_loop_chain (prefixlen parent) (target - prefixlen parent));
    try lia.
  - reflexivity.
  - apply (IPv4Network_of_string_valid _ _ Hparse).
Qed.

(** Nothing is split when the target is not longer than the parent's
    prefix. *)
Lemma cidr_slicing_no_split ip_block parent target :
  IPv4Network_of_string ip_block = Ok parent ->
  target <= prefixlen parent ->
  cidr_slicing ip_block target = Ok [].
Proof.
  intros Hparse Ht. unfold cidr_slicing. rewrite Hparse. cbn [rbind].
  apply slicing_loop_done. lia.
Qed.

Lemma chain_length r n : List.length (chain r n) = S r.
Proof.
  revert n. induction r as [| r IH]; intros n; cbn [chain List.length];
    [reflexivity | rewrite IH; reflexivity].
Qed.

Lemma chain_valid r : forall n,
  valid n -> prefixlen n + Z.of_nat r <= 32 -> Forall valid (chain r n).
Proof.
  induction r as [| r IH]; intros n Hv Hp; cbn [chain].
  - constructor; [exact Hv | constructor].
  - constructor.
    + apply first_half_valid; [assumption | lia].
    + apply IH.
      * apply second_half_valid; [assumption | lia].
      * unfold second_half. cbn [prefixlen]. lia.
Qed.

Lemma chain_last r : forall n d,
  prefixlen (last (chain r n) d) = prefixlen n + Z.of_nat r.
Proof.
  induction r as [| r IH]; intros n d.
  - cbn [chain last]. lia.
  - cbn [chain].
    assert (E : exists m l, chain r (second_half n) = m :: l)
      by (destruct r; cbn [chain]; eauto).
    destruct E as (m & l & E).
    specialize (IH (second_half n) d). rewrite E in *.
    cbn [last] in IH |- *. rewrite IH.
    unfold second_half. cbn [prefixlen]. lia.
Qed.

Lemma chain_prefixes r : forall n i m,
  nth_error (chain r n) i = Some m ->
  prefixlen m = prefixlen n + Z.min (Z.of_nat i + 1) (Z.of_nat r).
Proof.
  induction r as [| r IH]; intros n i m H.
  - cbn [chain] in H. destruct i as [| [| i]]; cbn in H; try discriminate.
    injection H as <-. lia.
  - cbn [chain] in H. destruct i as [| i]; cbn [nth_error] in H.
    + injection H as <-. unfold first_half. cbn [prefixlen]. lia.
    + apply IH in H. rewrite H. unfold second_half. cbn [prefixlen]. lia.
Qed.

Lemma chain_tiles r : forall n,
  valid n -> prefixlen n + Z.of_nat r <= 32 ->
  tiles (chain r n) (network_address n)
        (network_address n + 2 ^ (32 - prefixlen n)).
Proof.
  induction r as [| r IH]; intros n Hv Hp.
  - cbn [chain tiles]. auto.
  - cbn [chain tiles]. split; [reflexivity |].
    assert (Hlt : prefixlen n < 32) by lia.
    pose proof (IH (second_half n) (second_half_valid n Hv Hlt)) as H.
    unfold second_half in H. cbn [network_address prefixlen] in H.
    unfold first_half. cbn [network_address prefixlen].
    replace (32 - (prefixlen n + 1)) with (31 - prefixlen n) in * by lia.
    pose proof (pow2_half (32 - prefixlen n) ltac:(destruct Hv; lia)) as Hh.
    replace (32 - prefixlen n - 1) with (31 - prefixlen n) in Hh by lia.
    replace (network_address n + 2 ^ (32 - prefixlen n))
      with (network_address n + 2 ^ (31 - prefixlen n) + 2 ^ (31 - prefixlen n))
      by lia.
    apply H. lia.
Qed.

Lemma tiles_le l : forall lo hi,
  Forall valid l -> tiles l lo hi -> lo <= hi.
Proof.
  induction l as [| n l IH]; intros lo hi Hv Ht; cbn [tiles] in Ht.
  - lia.
  - destruct Ht as [_ Ht]. inversion_clear Hv as [| ? ? Hn Hl].
    apply IH in Ht; [| assumption].
    assert (0 < 2 ^ (32 - prefixlen n))
      by (apply Z.pow_pos_nonneg; destruct Hn; lia).
    lia.
Qed.

(** The blocks of a tiling cover exactly the tiled interval... *)
Lemma tiles_union l : forall lo hi,
  Forall valid l -> tiles l lo hi ->
  forall x, (exists n, In n l /\ in_net x n) <-> lo <= x < hi.
Proof.
  induction l as [| n l IH]; intros lo hi Hv Ht x; cbn [tiles] in Ht.
  - subst. split; [intros (n & [] & _) | lia].
  - destruct Ht as [Ha Ht]. inversion_clear Hv as [| ? ? Hn Hl].
    pose proof (tiles_le l _ _ Hl Ht) as Hle.
    assert (Hpos : 0 < 2 ^ (32 - prefixlen n))
      by (apply Z.pow_pos_nonneg; destruct Hn; lia).
    specialize (IH _ _ Hl Ht x).
    split.
    + intros (m & [-> | Hin] & Hx).
      * apply in_net_valid in Hx; [| assumption]. lia.
      * assert (lo + 2 ^ (32 - prefixlen n) <= x < hi)
          by (apply IH; exists m; auto).
        lia.
    + intros Hx.
      destruct (Z_lt_ge_dec x (lo + 2 ^ (32 - prefixlen n))) as [Hlt | Hge].
      * exists n. split; [left; reflexivity |].
        apply in_net_valid; [assumption | lia].
      * destruct IH as [_ IH]. destruct IH as (m & Hin & Hm); [lia |].
        exists m. split; [right; assumption | assumption].
Qed.

(** ... and no two of them share an address. *)
Lemma tiles_disjoint l : forall lo hi,
  Forall valid l -> tiles l lo hi ->
  forall i j n m x,
    i <> j -> nth_error l i = Some n -> nth_error l j = Some m ->
    in_net x n -> in_net x m -> False.
Proof.
  induction l as [| k l IH]; intros lo hi Hv Ht i j n m x Hij Hi Hj Hxn Hxm.
  - destruct i; discriminate.
  - cbn [tiles] in Ht. destruct Ht as [Ha Ht].
    inversion_clear Hv as [| ? ? Hk Hl].
    pose proof (tiles_union l _ _ Hl Ht x) as Hu.
    destruct i as [| i], j as [| j]; cbn [nth_error] in Hi, Hj.
    + congruence.
    + injection Hi as <-. apply nth_error_In in Hj.
      apply in_net_valid in Hxn; [| assumption].
      assert (lo + 2 ^ (32 - prefixlen k) <= x < hi)
        by (apply Hu; exists m; auto).
      lia.
    + injection Hj as <-. apply nth_error_In in Hi.
      apply in_net_valid in Hxm; [| assumption].
      assert (lo + 2 ^ (32 - prefixlen k) <= x < hi)
        by (apply Hu; exists n; auto).
      lia.
    + apply (IH _ _ Hl Ht i j n m x); auto.
Qed.

Lemma denotes_compressed nets :
  Forall valid nets -> denotes (map compressed nets) nets.
Proof.
  induction 1 as [| n l Hn Hl IH]; cbn [map]; constructor.
  - split; [reflexivity | apply IPv4Network_of_compressed; assumption].
  - exact IH.
Qed.

End Slicing.

(* ================================================================== *)
(** * Reading and writing the table *)

Section Tables.

Lemma keys_update_item key sets t k :
  In k (keys (update_item key sets t)) <-> k = key \/ In k (keys t).
Proof.
  induction t as [| [k0 it] t IH]; cbn [update_item keys map fst In].
  - intuition.
  - destruct (String.eqb k0 key) eqn:E; cbn [keys map fst In].
    + apply String.eqb_eq in E. subst. intuition.
    + fold (keys (update_item key sets t)). fold (keys t). rewrite IH. intuition.
Qed.

Lemma keys_delete_item key t k :
  In k (keys (delete_item key t)) <-> k <> key /\ In k (keys t).
Proof.
  induction t as [| [k0 it] t IH]; cbn [delete_item keys map fst In].
  - intuition.
  - destruct (String.eqb k0 key) eqn:E; cbn [keys map fst In].
    + apply String.eqb_eq in E. subst.
      fold (keys (delete_item key t)). fold (keys t). rewrite IH.
      intuition congruence.
    + apply String.eqb_neq in E.
      fold (keys (delete_item key t)). fold (keys t). rewrite IH.
      intuition congruence.
Qed.

Lemma NoDup_update_item key sets t :
  NoDup (keys t) -> NoDup (keys (update_item key sets t)).
Proof.
  induction t as [| [k0 it] t IH]; cbn [update_item keys map fst]; intros H.
  - constructor; [intros [] | constructor].
  - inversion_clear H as [| ? ? Hn Hd].
    destruct (String.eqb k0 key) eqn:E; cbn [keys map fst].
    + constructor; assumption.
    + apply String.eqb_neq in E. constructor.
      * fold (keys (update_item key sets t)). rewrite keys_update_item.
        intros [-> | Hin]; [congruence | exact (Hn Hin)].
      * apply IH. exact Hd.
Qed.

Lemma NoDup_delete_item key t :
  NoDup (keys t) -> NoDup (keys (delete_item key t)).
Proof.
  induction t as [| [k0 it] t IH]; cbn [delete_item keys map fst]; intros H.
  - constructor.
  - inversion_clear H as [| ? ? Hn Hd].
    destruct (String.eqb k0 key) eqn:E; cbn [keys map fst].
    + apply IH. exact Hd.
    + constructor.
      * fold (keys (delete_item key t)). rewrite keys_delete_item.
        intros [_ Hin]. exact (Hn Hin).
      * apply IH. exact Hd.
Qed.

Lemma get_item_None key t : get_item key t = None <-> ~ In key (keys t).
Proof.
  induction t as [| [k0 it] t IH]; cbn [get_item keys map fst In].
  - intuition.
  - destruct (String.eqb k0 key) eqn:E.
    + apply String.eqb_eq in E. subst. split; [discriminate | intuition].
    + apply String.eqb_neq in E. fold (keys t). rewrite IH. intuition.
Qed.

Lemma get_item_In key t it : get_item key t = Some it -> In (key, it) t.
Proof.
  induction t as [| [k0 it0] t IH]; cbn [get_item In]; [discriminate |].
  destruct (String.eqb k0 key) eqn:E.
  - apply String.eqb_eq in E. subst. intros [= ->]. left. reflexivity.
  - intros H. right. apply IH. exact H.
Qed.

Lemma In_get_item key t it :
  NoDup (keys t) -> In (key, it) t -> get_item key t = Some it.
Proof.
  induction t as [| [k0 it0] t IH]; cbn [get_item In keys map fst]; [intros _ [] |].
  intros Hd [E | Hin]; inversion_clear Hd as [| ? ? Hn Hd'].
  - injection E as -> ->. rewrite String.eqb_refl. reflexivity.
  - destruct (String.eqb k0 key) eqn:E.
    + apply String.eqb_eq in E. subst. exfalso. apply Hn.
      change key with (fst (key, it)). apply in_map. exact Hin.
    + apply IH; assumption.
Qed.

(** Reading after writing. *)
Lemma get_update_same key sets t :
  get_item key (update_item key sets t)
  = Some (apply_set sets (match get_item key t with
                          | Some it => it
                          | None => empty_item
                          end)).
Proof.
  induction t as [| [k0 it] t IH]; cbn [update_item get_item].
  - rewrite String.eqb_refl. reflexivity.
  - destruct (String.eqb k0 key) eqn:E; cbn [get_item]; rewrite E.
    + reflexivity.
    + exact IH.
Qed.

Lemma get_update_other key sets t k :
  k <> key -> get_item k (update_item key sets t) = get_item k t.
Proof.
  intros Hk.
  induction t as [| [k0 it] t IH]; cbn [update_item get_item].
  - replace (String.eqb key k) with false
      by (symmetry; apply String.eqb_neq; congruence).
    reflexivity.
  - destruct (String.eqb k0 key) eqn:E; cbn [get_item].
    + apply String.eqb_eq in E. subst k0.
      replace (String.eqb key k) with false
        by (symmetry; apply String.eqb_neq; congruence).
      reflexivity.
    + rewrite IH. reflexivity.
Qed.

Lemma get_delete_same key t : get_item key (delete_item key t) = None.
Proof.
  induction t as [| [k0 it] t IH]; cbn [delete_item get_item]; [reflexivity |].
  destruct (String.eqb k0 key) eqn:E; cbn [get_item]; [| rewrite E]; exact IH.
Qed.

Lemma get_delete_other key t k :
  k <> key -> get_item k (delete_item key t) = get_item k t.
Proof.
  intros Hk.
  induction t as [| [k0 it] t IH]; cbn [delete_item get_item]; [reflexivity |].
  destruct (String.eqb k0 key) eqn:E; cbn [get_item].
  - apply String.eqb_eq in E. subst k0.
    replace (String.eqb key k) with false
      by (symmetry; apply String.eqb_neq; congruence).
    exact IH.
  - rewrite IH. reflexivity.
Qed.

Lemma delete_item_absent key t :
  ~ In key (keys t) -> delete_item key t = t.
Proof.
  induction t as [| [k0 it] t IH]; cbn [delete_item keys map fst In];
    [reflexivity |].
  intros H. destruct (String.eqb k0 key) eqn:E.
  - apply String.eqb_eq in E. subst. exfalso. apply H. left. reflexivity.
  - rewrite IH; [reflexivity | intros Hin; apply H; right; exact Hin].
Qed.

Lemma get_item_Permutation t t' key :
  NoDup (keys t) -> Permutation t t' -> get_item key t = get_item key t'.
Proof.
  intros Hd Hp.
  assert (Hd' : NoDup (keys t')).
  { apply (Permutation_NoDup (l := keys t)); [| exact Hd].
    apply Permutation_map. exact Hp. }
  destruct (get_item key t) as [it |] eqn:E.
  - symmetry. apply In_get_item; [exact Hd' |].
    apply (Permutation_in _ Hp). apply get_item_In. exact E.
  - destruct (get_item key t') as [it' |] eqn:E'; [| reflexivity].
    apply get_item_In in E'. apply Permutation_sym in Hp.
    apply (Permutation_in _ Hp) in E'.
    apply (In_get_item _ _ _ Hd) in E'. congruence.
Qed.

(** What a scan returns is in the table, and matches the filter. *)
Lemma scan_In sz rg t k it :
  In (k, it) (scan sz rg t) ->
  In (k, it) t /\ size it = Some sz /\
  availability it = Some "available" /\ region it = Some rg.
Proof.
  unfold scan. rewrite filter_In. intros [Hin Hf]. split; [exact Hin |].
  unfold filter_expression in Hf. cbn [snd] in Hf.
  apply andb_true_iff in Hf. destruct Hf as [Hf H3].
  apply andb_true_iff in Hf. destruct Hf as [H1 H2].
  unfold attr_is in *.
  destruct (size it); [| discriminate].
  destruct (availability it); [| discriminate].
  destruct (region it); [| discriminate].
  apply String.eqb_eq in H1, H2, H3. subst. auto.
Qed.

End Tables.

(* ================================================================== *)
(** * Runs of the client *)

Section Runs.

Lemma client_eta c : mkClient (table c) (calls c) = c.
Proof. destruct c; reflexivity. Qed.

Lemma replay_app cs1 cs2 t : replay (cs1 ++ cs2) t = replay cs2 (replay cs1 t).
Proof. unfold replay. apply fold_left_app. Qed.

(** The loop over [network_list] makes one [update_item] per element, in
    order. *)
Lemma for_each_update base_region network_list : forall c,
  for_each network_list
    (fun network => client_update_item network (sibling_sets base_region network)) c
  = (Ok tt,
     mkClient (replay (sibling_updates base_region network_list) (table c))
              (calls c ++ sibling_updates base_region network_list)).
Proof.
  induction network_list as [| n l IH]; intros c; cbn [for_each].
  - unfold ret, sibling_updates. cbn [map replay fold_left].
    rewrite app_nil_r, client_eta. reflexivity.
  - unfold bind. unfold client_update_item at 1. unfold do_call at 1. rewrite IH.
    cbn [table calls]. unfold sibling_updates. cbn [map].
    rewrite <- app_assoc. reflexivity.
Qed.

Lemma get_replay_updates base_region l : forall t k,
  In k l ->
  exists it0,
    get_item k (replay (sibling_updates base_region l) t)
    = Some (apply_set (sibling_sets base_region k) it0).
Proof.
  induction l as [| a l IH] using rev_ind; intros t k Hin; [destruct Hin |].
  unfold sibling_updates. rewrite map_app, replay_app. cbn [map replay fold_left apply_call].
  destruct (string_dec k a) as [-> | Hne].
  - rewrite get_update_same. eexists. reflexivity.
  - rewrite get_update_other by exact Hne.
    apply in_app_or in Hin. destruct Hin as [Hin | [-> | []]]; [| congruence].
    apply IH. exact Hin.
Qed.

Lemma get_replay_updates_other base_region l : forall t k,
  ~ In k l ->
  get_item k (replay (sibling_updates base_region l) t) = get_item k t.
Proof.
  induction l as [| a l IH] using rev_ind; intros t k Hin; [reflexivity |].
  unfold sibling_updates. rewrite map_app, replay_app. cbn [map replay fold_left apply_call].
  rewrite get_update_other.
  - apply IH. intros H. apply Hin. apply in_or_app. left. exact H.
  - intros ->. apply Hin. apply in_or_app. right. left. reflexivity.
Qed.

Lemma keys_replay_updates base_region l : forall t k,
  In k (keys (replay (sibling_updates base_region l) t)) <-> In k l \/ In k (keys t).
Proof.
  induction l as [| a l IH] using rev_ind; intros t k.
  - cbn. intuition.
  - unfold sibling_updates. rewrite map_app, replay_app.
    cbn [map replay fold_left apply_call].
    rewrite keys_update_item.
    fold (sibling_updates base_region l). rewrite IH, in_app_iff. cbn [In].
    intuition.
Qed.

Lemma NoDup_replay_updates base_region l : forall t,
  NoDup (keys t) -> NoDup (keys (replay (sibling_updates base_region l) t)).
Proof.
  induction l as [| a l IH] using rev_ind; intros t H; [exact H |].
  unfold sibling_updates. rewrite map_app, replay_app.
  cbn [map replay fold_left apply_call].
  apply NoDup_update_item. apply IH. exact H.
Qed.

Lemma countdown_step hi lo :
  lo <= hi -> countdown hi lo = hi :: countdown (hi - 1) lo.
Proof.
  intros H. unfold countdown.
  replace (Z.to_nat (hi - lo + 1)) with (S (Z.to_nat (hi - 1 - lo + 1))) by lia.
  cbn [seq map]. f_equal; [lia |].
  rewrite <- seq_shift, map_map. apply map_ext. intros i. lia.
Qed.

Lemma countdown_nil hi lo : hi < lo -> countdown hi lo = [].
Proof.
  intros H. unfold countdown.
  replace (Z.to_nat (hi - lo + 1)) with O by lia. reflexivity.
Qed.

(** With nothing available in the region, the widening loop scans for every
    size down to [/16] and then gives up. *)
Lemma widen_empty_pool base_region fuel : forall netmask c,
  (forall sz, scan sz base_region (table c) = []) ->
  (Z.to_nat netmask < fuel)%nat ->
  widen fuel base_region netmask [] c
  = (Raise pool_exhausted,
     mkClient (table c)
              (calls c ++ scans base_region (countdown (netmask - 1) 16))).
Proof.
  induction fuel as [| fuel IH]; intros netmask c Hempty Hfuel; [lia |].
  cbn [widen List.length Nat.eqb].
  destruct (netmask - 1 <? 16) eqn:E.
  - apply Z.ltb_lt in E. rewrite countdown_nil by lia.
    unfold raise, scans. cbn [map]. rewrite app_nil_r, client_eta. reflexivity.
  - apply Z.ltb_ge in E. unfold bind, client_scan.
    rewrite Hempty. rewrite IH.
    + cbn [table calls]. rewrite (countdown_step (netmask - 1) 16) by lia.
      unfold scans. cbn [map]. rewrite <- app_assoc. reflexivity.
    + cbn [table]. exact Hempty.
    + lia.
Qed.

(** The widening loop in general: it only scans, for sizes between [/16]
    and the size it started from; it ends with the exit message or with a
    response that is not empty and comes from a scan of the table. *)
Lemma widen_spec base_region fuel : forall netmask response c res c',
  (Z.to_nat netmask < fuel)%nat ->
  (forall kv, In kv response -> exists sz, In kv (scan sz base_region (table c))) ->
  widen fuel base_region netmask response c = (res, c') ->
  table c' = table c /\
  (exists ms, calls c' = (calls c ++ scans base_region ms)%list /\
              Forall (fun m => 16 <= m < netmask) ms) /\
  (res = Raise pool_exhausted \/
   exists response', res = Ok response' /\ response' <> [] /\
     forall kv, In kv response' -> exists sz, In kv (scan sz base_region (table c))).
Proof.
  induction fuel as [| fuel IH]; intros netmask response c res c' Hfuel Hresp Hrun;
    [lia |].
  cbn [widen] in Hrun.
  destruct (Nat.eqb (List.length response) 0) eqn:El.
  - destruct (netmask - 1 <? 16) eqn:E.
    + unfold raise in Hrun. injection Hrun as <- <-.
      split; [reflexivity |]. split.
      * exists []. unfold scans. cbn [map]. rewrite app_nil_r. auto.
      * left. reflexivity.
    + apply Z.ltb_ge in E. unfold bind, client_scan in Hrun.
      apply IH in Hrun.
      * cbn [table calls] in Hrun. destruct Hrun as (Ht & (ms & Hc & Hms) & Hres).
        split; [exact Ht |]. split; [| exact Hres].
        exists ((netmask - 1) :: ms). split.
        -- rewrite Hc. unfold scans. cbn [map]. rewrite <- app_assoc. reflexivity.
        -- constructor; [lia |].
           eapply Forall_impl; [| exact Hms]. cbn beta. intros; lia.
      * lia.
      * cbn [table]. intros kv Hin. eexists. exact Hin.
  - unfold ret in Hrun. injection Hrun as <- <-.
    split; [reflexivity |]. split.
    + exists []. unfold scans. cbn [map]. rewrite app_nil_r. auto.
    + right. exists response. split; [reflexivity |]. split; [| exact Hresp].
      intros ->. discriminate El.
Qed.

End Runs.

(* ================================================================== *)
(** * The size check *)

Section SizeCheck.

Lemma isdigit_char_inv c :
  isdigit_char c = true ->
  In c ["0"; "1"; "2"; "3"; "4"; "5"; "6"; "7"; "8"; "9"]%char.
Proof.
  destruct c as [[] [] [] [] [] [] [] []]; intros H;
    try (vm_compute in H; discriminate H); cbn [In]; tauto.
Qed.

(** What [ip_re] matches: a slash and a number from 10 to 29, possibly
    followed by a newline. *)
Lemma ip_re_match_inv s :
  ip_re_match s = true ->
  10 <= requested_netmask s <= 29 /\
  int (strip is_slash s) = Ok (requested_netmask s) /\
  (s = "/" ++ str (requested_netmask s) \/
   s = "/" ++ str (requested_netmask s) ++ newline).
Proof.
  destruct s as [| c0 [| d1 [| d2 rest]]]; try discriminate.
  unfold ip_re_match. intros H.
  apply andb_true_iff in H. destruct H as [H Hrest].
  apply andb_true_iff in H. destruct H as [H Hd2].
  apply andb_true_iff in H. destruct H as [Hc0 Hd1].
  apply Ascii.eqb_eq in Hc0. subst c0.
  apply isdigit_char_inv in Hd2.
  apply orb_true_iff in Hd1. apply orb_true_iff in Hrest.
  destruct Hd1 as [Hd1 | Hd1]; apply Ascii.eqb_eq in Hd1; subst d1;
  destruct Hrest as [Hr | Hr]; apply String.eqb_eq in Hr; subst rest;
  cbn [In] in Hd2;
  repeat (destruct Hd2 as [<- | Hd2]; [vm_compute; intuition congruence |]);
  destruct Hd2.
Qed.

End SizeCheck.

(* ================================================================== *)
(** * The split path *)

Section SplitPath.

Lemma index_m2_snoc2 {A} (l : list A) (a b : A) : index_m2 (l ++ [a; b]) = Ok a.
Proof.
  unfold index_m2. rewrite length_app. cbn [List.length].
  replace (List.length l + 2 - 2)%nat with (List.length l + 0)%nat by lia.
  rewrite nth_error_app2 by lia.
  replace (List.length l + 0 - List.length l)%nat with O by lia.
  cbn [nth_error].
  replace (Nat.leb 2 (List.length l + 2)) with true
    by (symmetry; apply Nat.leb_le; lia).
  reflexivity.
Qed.

Lemma index_m2_In {A} (l : list A) (a : A) : index_m2 l = Ok a -> In a l.
Proof.
  unfold index_m2.
  destruct (nth_error l (List.length l - 2)) as [x |] eqn:E; [| discriminate].
  destruct (Nat.leb 2 (List.length l)); [| discriminate].
  intros [= <-]. apply nth_error_In in E. exact E.
Qed.

Lemma index_m2_nil {A} : index_m2 (@nil A) = Raise IndexError.
Proof. reflexivity. Qed.

(** A chain of at least one halving ends with the two halves of one block. *)
Lemma chain_two_last r : forall n,
  valid n -> prefixlen n + Z.of_nat r < 32 ->
  exists pre x,
    chain (S r) n = (pre ++ [first_half x; second_half x])%list /\
    prefixlen x = prefixlen n + Z.of_nat r /\ valid x.
Proof.
  induction r as [| r IH]; intros n Hv Hp.
  - exists [], n. repeat split; [lia | apply Hv ..].
  - destruct (IH (second_half n)) as (pre & x & E & Hx & Hvx).
    + apply second_half_valid; [exact Hv | lia].
    + unfold second_half. cbn [prefixlen]. lia.
    + exists (first_half n :: pre), x. repeat split; try apply Hvx.
      * change (chain (S (S r)) n)
          with (first_half n :: chain (S r) (second_half n)).
        rewrite E. reflexivity.
      * rewrite Hx. unfold second_half. cbn [prefixlen]. lia.
Qed.

Lemma halves_differ x :
  valid x -> prefixlen x < 32 -> first_half x <> second_half x.
Proof.
  intros (Hp & _ & _) Hlt E. unfold first_half, second_half in E.
  apply (f_equal network_address) in E. cbn [network_address] in E.
  assert (0 < 2 ^ (31 - prefixlen x)) by (apply Z.pow_pos_nonneg; lia).
  lia.
Qed.

Lemma chain_In_prefix r n m :
  In m (chain r n) -> (1 <= r)%nat -> prefixlen n < prefixlen m.
Proof.
  intros Hin Hr. apply In_nth_error in Hin. destruct Hin as [i Hi].
  apply chain_prefixes in Hi. lia.
Qed.

Lemma chain_In_valid r n m :
  valid n -> prefixlen n + Z.of_nat r <= 32 -> In m (chain r n) -> valid m.
Proof.
  intros Hv Hp Hin. pose proof (chain_valid r n Hv Hp) as H.
  rewrite Forall_forall in H. apply H. exact Hin.
Qed.

(** Every block of the chain lies inside the block that was halved. *)
Lemma chain_In_inside r n m x :
  valid n -> prefixlen n + Z.of_nat r <= 32 ->
  In m (chain r n) -> in_net x m -> in_net x n.
Proof.
  intros Hv Hp Hin Hx.
  apply in_net_valid; [exact Hv |].
  apply (tiles_union (chain r n) _ _ (chain_valid r n Hv Hp) (chain_tiles r n Hv Hp)).
  exists m. auto.
Qed.

(** The split path, run forward. *)
Lemma slice_and_claim_run account_id base_region config_options ip_block
      netmask c network_list claimed :
  cidr_slicing ip_block netmask = Ok network_list ->
  index_m2 network_list = Ok claimed ->
  slice_and_claim account_id base_region config_options ip_block netmask c
  = (Ok claimed,
     after_slicing account_id base_region config_options ip_block claimed
                   network_list c).
Proof.
  intros Hs Hc. unfold slice_and_claim, bind, lift.
  rewrite Hs, Hc, for_each_update.
  unfold client_update_item, client_delete_item, do_call, ret, after_slicing.
  cbn [table calls apply_call]. rewrite <- !app_assoc. reflexivity.
Qed.

(** The split path fails before it writes anything, or runs as above. *)
Lemma slice_and_claim_inv account_id base_region config_options ip_block
      netmask c res c' :
  slice_and_claim account_id base_region config_options ip_block netmask c
  = (res, c') ->
  (c' = c /\ exists e, res = Raise e) \/
  exists network_list claimed,
    cidr_slicing ip_block netmask = Ok network_list /\
    index_m2 network_list = Ok claimed /\
    res = Ok claimed /\
    c' = after_slicing account_id base_region config_options ip_block claimed
                       network_list c.
Proof.
  destruct (cidr_slicing ip_block netmask) as [network_list | e] eqn:Hs.
  - destruct (index_m2 network_list) as [claimed | e] eqn:Hc.
    + rewrite (slice_and_claim_run _ _ _ _ _ _ _ _ Hs Hc).
      intros [= <- <-]. right. exists network_list, claimed. auto.
    + unfold slice_and_claim, bind, lift. rewrite Hs, Hc.
      intros [= <- <-]. left. eauto.
  - unfold slice_and_claim, bind, lift. rewrite Hs.
    intros [= <- <-]. left. eauto.
Qed.

(** What a proper split returns, with all that the claims use. *)
Lemma cidr_slicing_proper ip_block parent target :
  IPv4Network_of_string ip_block = Ok parent ->
  prefixlen parent < target <= 32 ->
  exists pre x,
    let nets := (pre ++ [first_half x; second_half x])%list in
    cidr_slicing ip_block target = Ok (map compressed nets) /\
    nets = chain (Z.to_nat (target - prefixlen parent)) parent /\
    Forall valid nets /\
    prefixlen x + 1 = target /\ valid x /\
    index_m2 (map compressed nets) = Ok (compressed (first_half x)).
Proof.
  intros Hparse Ht.
  pose proof (IPv4Network_of_string_valid _ _ Hparse) as Hv.
  destruct (chain_two_last (Z.to_nat (target - prefixlen parent - 1)) parent)
    as (pre & x & E & Hp & Hvx); [exact Hv | lia |].
  replace (S (Z.to_nat (target - prefixlen parent - 1)))
    with (Z.to_nat (target - prefixlen parent)) in E by lia.
  exists pre, x. cbn zeta.
  split; [rewrite <- E; apply cidr_slicing_chain; assumption |].
  split; [symmetry; exact E |].
  split; [rewrite <- E; apply chain_valid; [exact Hv | lia] |].
  split; [lia |].
  split; [exact Hvx |].
  rewrite map_app. cbn [map]. apply index_m2_snoc2.
Qed.

End SplitPath.

(* ================================================================== *)
(** * What the split path leaves in the table *)

Section SplitTable.

Lemma substring_skip s t n :
  substring (String.length s) n (s ++ t) = substring 0 n t.
Proof.
  induction s as [| c s IH]; cbn [String.length append substring];
    [reflexivity | exact IH].
Qed.

Lemma length_append s t :
  String.length (s ++ t) = (String.length s + String.length t)%nat.
Proof.
  induction s as [| c s IH]; cbn [String.length append];
    [reflexivity | rewrite IH; reflexivity].
Qed.

(** [s[-3:]] of a string that ends with the three characters [t]. *)
Lemma last3_app s t : String.length t = 3%nat -> last3 (s ++ t) = t.
Proof.
  intros Ht. unfold last3. rewrite length_append, Ht.
  replace (String.length s + 3 - 3)%nat with (String.length s) by lia.
  rewrite substring_skip.
  destruct t as [| a [| b [| c [| ? ?]]]]; try discriminate. reflexivity.
Qed.

(** The last three characters of a block say its size when its prefix
    length has two digits. *)
Lemma last3_compressed n :
  valid n -> 10 <= prefixlen n ->
  last3 (compressed n) = "/" ++ str (prefixlen n).
Proof.
  intros (Hp & _ & _) H10. unfold compressed.
  apply last3_app.
  destruct (prefix_facts (prefixlen n) Hp) as (_ & _ & Hl & _).
  cbn [append String.length]. rewrite (Hl H10). reflexivity.
Qed.

Lemma apply_in_use_sets account_id base_region config_options sz it :
  apply_set (in_use_sets account_id base_region config_options sz) it
  = in_use_item sz account_id base_region config_options.
Proof. reflexivity. Qed.

Lemma apply_sibling_sets base_region network it :
  apply_set (sibling_sets base_region network) it
  = mkItem (Some (last3 network)) (Some "available") (Some base_region)
           (account_id it) (config_options it).
Proof. reflexivity. Qed.

(** The claimed block after the split path. *)
Lemma after_slicing_claimed account_id base_region config_options ip_block
      claimed network_list c :
  claimed <> ip_block ->
  get_item claimed
    (table (after_slicing account_id base_region config_options ip_block
                          claimed network_list c))
  = Some (in_use_item (last3 claimed) account_id base_region config_options).
Proof.
  intros Hne. unfold after_slicing. cbn [table].
  rewrite get_delete_other by exact Hne.
  rewrite get_update_same, apply_in_use_sets. reflexivity.
Qed.

(** The other slices after the split path. *)
Lemma after_slicing_sibling account_id base_region config_options ip_block
      claimed network_list c k :
  In k network_list -> k <> claimed -> k <> ip_block ->
  exists it,
    get_item k
      (table (after_slicing account_id base_region config_options ip_block
                            claimed network_list c)) = Some it /\
    size it = Some (last3 k) /\ availability it = Some "available" /\
    region it = Some base_region.
Proof.
  intros Hin Hc Hb. unfold after_slicing. cbn [table].
  rewrite get_delete_other by exact Hb.
  rewrite get_update_other by exact Hc.
  destruct (get_replay_updates base_region network_list (table c) k Hin)
    as [it0 E].
  rewrite E, apply_sibling_sets. eexists. split; [reflexivity |].
  cbn [size availability region]. auto.
Qed.

(** The strings of a proper split read back as blocks with a longer
    prefix than the block that was split; none of them is that block. *)
Lemma slices_read_back ip_block parent r k :
  IPv4Network_of_string ip_block = Ok parent ->
  (1 <= r)%nat -> prefixlen parent + Z.of_nat r <= 32 ->
  In k (map compressed (chain r parent)) ->
  exists n, In n (chain r parent) /\ k = compressed n /\ valid n /\
            IPv4Network_of_string k = Ok n /\
            prefixlen parent < prefixlen n /\ k <> ip_block.
Proof.
  intros Hparse Hr Hp Hin.
  pose proof (IPv4Network_of_string_valid _ _ Hparse) as Hv.
  apply in_map_iff in Hin. destruct Hin as (n & <- & Hin).
  pose proof (chain_In_valid r parent n Hv Hp Hin) as Hn.
  pose proof (chain_In_prefix r parent n Hin Hr) as Hlt.
  pose proof (IPv4Network_of_compressed n Hn) as Hread.
  exists n. repeat split; try assumption; try apply Hn.
  intros E. rewrite E, Hparse in Hread. injection Hread as <-. lia.
Qed.

End SplitTable.

(* ================================================================== *)
(** * The split *)

(** C3.  For a block [ip_block] that reads as [parent] and a target prefix
    length longer than the parent's (and at most 32), [cidr_slicing] returns
    a list of blocks: an address is in one of them exactly when it is in the
    parent, no address is in two of them, and the last one has the target
    prefix length. *)
Theorem split_tiles_parent ip_block parent target :
  IPv4Network_of_string ip_block = Ok parent ->
  prefixlen parent < target <= 32 ->
  exists network_list nets,
    cidr_slicing ip_block target = Ok network_list /\
    denotes network_list nets /\
    (forall x, (exists n, In n nets /\ in_net x n) <-> in_net x parent) /\
    (forall i j n m x,
        i <> j -> nth_error nets i = Some n -> nth_error nets j = Some m ->
        in_net x n -> in_net x m -> False) /\
    prefixlen (last nets parent) = target.
Proof.
  intros Hparse Ht.
  pose proof (IPv4Network_of_string_valid _ _ Hparse) as Hv.
  set (r := Z.to_nat (target - prefixlen parent)).
  assert (Hr : prefixlen parent + Z.of_nat r <= 32) by lia.
  pose proof (chain_valid r parent Hv Hr) as Hall.
  pose proof (chain_tiles r parent Hv Hr) as Htiles.
  exists (map compressed (chain r parent)), (chain r parent).
  split; [apply cidr_slicing_chain; assumption |].
  split; [apply denotes_compressed; exact Hall |].
  split; [| split].
  - intros x. rewrite (in_net_valid x parent Hv).
    apply (tiles_union _ _ _ Hall Htiles).
  - apply (tiles_disjoint _ _ _ Hall Htiles).
  - rewrite chain_last. lia.
Qed.

Lemma split_tiles_parent_witness :
  exists network_list nets,
    cidr_slicing "10.0.0.0/20" 22 = Ok network_list /\
    denotes network_list nets /\
    (forall x, (exists n, In n nets /\ in_net x n)
               <-> in_net x (mkNet 167772160 20)) /\
    (forall i j n m x,
        i <> j -> nth_error nets i = Some n -> nth_error nets j = Some m ->
        in_net x n -> in_net x m -> False) /\
    prefixlen (last nets (mkNet 167772160 20)) = 22.
Proof.
  apply (split_tiles_parent "10.0.0.0/20" (mkNet 167772160 20) 22);
    [vm_compute; reflexivity | cbn [prefixlen]; lia].
Defined.




(** C1, as the code has it.  The block marked in-use is [network_list[-2]]:
    in the split of [10.0.0.0/20] for a [/22], the last element of the list
    stays available and the one before it is claimed. *)
Lemma last_element_stays_available :
  cidr_slicing "10.0.0.0/20" 22
  = Ok ["10.0.0.0/21"; "10.0.8.0/22"; "10.0.12.0/22"] /\
  fst (slice_and_claim "006828683766" "us-west-2" "prod-us-west-2"
         "10.0.0.0/20" 22
         (mkClient [("10.0.0.0/20", free_block "/20" "us-west-2")] []))
  = Ok "10.0.8.0/22" /\
  get_item "10.0.12.0/22"
    (table (snd (slice_and_claim "006828683766" "us-west-2" "prod-us-west-2"
                   "10.0.0.0/20" 22
                   (mkClient [("10.0.0.0/20", free_block "/20" "us-west-2")] []))))
  = Some (free_block "/22" "us-west-2").
Proof.
  split; [vm_compute; reflexivity |].
  split; vm_compute; reflexivity.
Qed.

(** C1, amended.  For a free block with a prefix shorter than the requested
    one, the split returns an ordered list of blocks whose last two elements
    have the requested size.  The allocation claims the element before the
    last: it is the one recorded in-use, and every other element of the
    list, the last included, is recorded as available in the region. *)
Theorem split_claims_penultimate account_id base_region config_options
        ip_block parent netmask c :
  IPv4Network_of_string ip_block = Ok parent ->
  prefixlen parent < netmask <= 32 ->
  exists pre claimed_net last_net,
    let nets := (pre ++ [claimed_net; last_net])%list in
    let claimed := compressed claimed_net in
    let run := slice_and_claim account_id base_region config_options
                               ip_block netmask c in
    cidr_slicing ip_block netmask = Ok (map compressed nets) /\
    denotes (map compressed nets) nets /\
    prefixlen claimed_net = netmask /\ prefixlen last_net = netmask /\
    claimed_net <> last_net /\
    fst run = Ok claimed /\
    get_item claimed (table (snd run))
    = Some (in_use_item (last3 claimed) account_id base_region config_options) /\
    (forall k, In k (map compressed nets) -> k <> claimed ->
       exists it, get_item k (table (snd run)) = Some it /\
                  availability it = Some "available" /\
                  region it = Some base_region).
Proof.
  intros Hparse Ht.
  destruct (cidr_slicing_proper ip_block parent netmask Hparse Ht)
    as (pre & x & Hs & Hchain & Hall & Hx & Hvx & Hidx).
  cbn zeta in *.
  set (nets := (pre ++ [first_half x; second_half x])%list) in *.
  exists pre, (first_half x), (second_half x). cbn zeta. fold nets.
  rewrite (slice_and_claim_run _ _ _ _ _ c _ _ Hs Hidx). cbn [fst snd].
  assert (Hr : (1 <= Z.to_nat (netmask - prefixlen parent))%nat) by lia.
  assert (Hp : prefixlen parent + Z.of_nat (Z.to_nat (netmask - prefixlen parent))
               <= 32) by lia.
  assert (Hback : forall k, In k (map compressed nets) -> k <> ip_block).
  { intros k Hin. rewrite Hchain in Hin.
    destruct (slices_read_back _ _ _ _ Hparse Hr Hp Hin) as (n & _ & _ & _ & _ & _ & H).
    exact H. }
  split; [exact Hs |].
  split; [apply denotes_compressed; exact Hall |].
  split; [unfold first_half; cbn [prefixlen]; lia |].
  split; [unfold second_half; cbn [prefixlen]; lia |].
  split; [apply halves_differ; [exact Hvx | lia] |].
  split; [reflexivity |].
  split.
  - apply after_slicing_claimed. apply Hback.
    apply (index_m2_In _ _ Hidx).
  - intros k Hin Hne.
    destruct (after_slicing_sibling account_id base_region config_options
                ip_block (compressed (first_half x)) (map compressed nets) c k
                Hin Hne (Hback k Hin)) as (it & E & _ & Ha & Hrg).
    exists it. auto.
Qed.

Lemma split_claims_penultimate_witness :
  exists pre claimed_net last_net,
    let nets := (pre ++ [claimed_net; last_net])%list in
    let claimed := compressed claimed_net in
    let run := slice_and_claim "006828683766" "us-west-2" "prod-us-west-2"
                 "10.0.0.0/20" 22
                 (mkClient [("10.0.0.0/20", free_block "/20" "us-west-2")] []) in
    cidr_slicing "10.0.0.0/20" 22 = Ok (map compressed nets) /\
    denotes (map compressed nets) nets /\
    prefixlen claimed_net = 22 /\ prefixlen last_net = 22 /\
    claimed_net <> last_net /\
    fst run = Ok claimed /\
    get_item claimed (table (snd run))
    = Some (in_use_item (last3 claimed) "006828683766" "us-west-2"
                        "prod-us-west-2") /\
    (forall k, In k (map compressed nets) -> k <> claimed ->
       exists it, get_item k (table (snd run)) = Some it /\
                  availability it = Some "available" /\
                  region it = Some "us-west-2").
Proof.
  apply (split_claims_penultimate "006828683766" "us-west-2" "prod-us-west-2"
           "10.0.0.0/20" (mkNet 167772160 20) 22);
    [vm_compute; reflexivity | cbn [prefixlen]; lia].
Defined.

(** C10.  In the split path every element of the list, the block to be
    claimed included, is first written as available by the loop; the update
    to in-use comes after the loop and the removal of the sliced block comes
    last.  In the table as it is between the loop and the update, every
    element of the list is recorded as available. *)
Theorem siblings_written_before_claim account_id base_region config_options
        ip_block parent netmask c :
  IPv4Network_of_string ip_block = Ok parent ->
  prefixlen parent < netmask <= 32 ->
  exists network_list claimed,
    let run := slice_and_claim account_id base_region config_options
                               ip_block netmask c in
    let loop := sibling_updates base_region network_list in
    let claim :=
      UpdateItem claimed
        (in_use_sets account_id base_region config_options (last3 claimed)) in
    cidr_slicing ip_block netmask = Ok network_list /\
    In claimed network_list /\
    fst run = Ok claimed /\
    calls (snd run) = (calls c ++ loop ++ [claim; DeleteItem ip_block])%list /\
    table (snd run) = replay (loop ++ [claim; DeleteItem ip_block]) (table c) /\
    (forall k, In k network_list ->
       exists it, get_item k (replay loop (table c)) = Some it /\
                  availability it = Some "available") /\
    exists it, get_item claimed (replay (loop ++ [claim]) (table c)) = Some it /\
               availability it = Some "in-use".
Proof.
  intros Hparse Ht.
  destruct (cidr_slicing_proper ip_block parent netmask Hparse Ht)
    as (pre & x & Hs & _ & _ & _ & _ & Hidx).
  cbn zeta in *.
  set (network_list := map compressed (pre ++ [first_half x; second_half x])) in *.
  exists network_list, (compressed (first_half x)). cbn zeta.
  rewrite (slice_and_claim_run _ _ _ _ _ c _ _ Hs Hidx). cbn [fst snd].
  split; [exact Hs |].
  split; [apply (index_m2_In _ _ Hidx) |].
  split; [reflexivity |].
  split; [reflexivity |].
  split; [rewrite replay_app; reflexivity |].
  split.
  - intros k Hin.
    destruct (get_replay_updates base_region network_list (table c) k Hin)
      as [it0 E].
    rewrite E, apply_sibling_sets. eexists. split; reflexivity.
  - rewrite replay_app. cbn [replay fold_left apply_call].
    rewrite get_update_same, apply_in_use_sets. eexists. split; reflexivity.
Qed.

Lemma siblings_written_before_claim_witness :
  exists network_list claimed,
    let run := slice_and_claim "006828683766" "us-west-2" "prod-us-west-2"
                 "10.0.0.0/20" 22
                 (mkClient [("10.0.0.0/20", free_block "/20" "us-west-2")] []) in
    let loop := sibling_updates "us-west-2" network_list in
    let claim :=
      UpdateItem claimed
        (in_use_sets "006828683766" "us-west-2" "prod-us-west-2"
                     (last3 claimed)) in
    cidr_slicing "10.0.0.0/20" 22 = Ok network_list /\
    In claimed network_list /\
    fst run = Ok claimed /\
    calls (snd run) = ([] ++ loop ++ [claim; DeleteItem "10.0.0.0/20"])%list /\
    table (snd run)
    = replay (loop ++ [claim; DeleteItem "10.0.0.0/20"])
             [("10.0.0.0/20", free_block "/20" "us-west-2")] /\
    (forall k, In k network_list ->
       exists it,
         get_item k (replay loop [("10.0.0.0/20", free_block "/20" "us-west-2")])
         = Some it /\
         availability it = Some "available") /\
    exists it,
      get_item claimed
        (replay (loop ++ [claim]) [("10.0.0.0/20", free_block "/20" "us-west-2")])
      = Some it /\
      availability it = Some "in-use".
Proof.
  apply (siblings_written_before_claim "006828683766" "us-west-2"
           "prod-us-west-2" "10.0.0.0/20" (mkNet 167772160 20) 22
           (mkClient [("10.0.0.0/20", free_block "/20" "us-west-2")] []));
    [vm_compute; reflexivity | cbn [prefixlen]; lia].
Defined.

(* ================================================================== *)
(** * Sizes, the scenario, widening, the manual path, the size check *)

(** C6, as the code has it.  The manual path stores the requested size,
    whatever the block: a [/24] claimed by hand with a request for [/22] is
    recorded with size [/22].  And the split path stores the last three
    characters of the key, which are not the size when the prefix length
    has one digit: when the block found is [10.0.0.0/8], its slice
    [10.0.0.0/9] is recorded with size [0/9]. *)
Lemma stored_sizes_differ_from_keys :
  (IPv4Network_of_string "10.1.0.0/24" = Ok (mkNet 167837696 24) /\
   get_item "10.1.0.0/24"
     (table (snd (allocate "006828683766" "production" "us-west-2" "/22"
                           "10.1.0.0/24" (mkClient [] []))))
   = Some (in_use_item "/22" "006828683766" "us-west-2" "prod-us-west-2")) /\
  (IPv4Network_of_string "10.0.0.0/9" = Ok (mkNet 167772160 9) /\
   get_item "10.0.0.0/9"
     (table (snd (allocate "006828683766" "production" "us-west-2" "/17" "no"
                           (mkClient [("10.0.0.0/8", free_block "/16" "us-west-2")]
                                     []))))
   = Some (free_block "0/9" "us-west-2")).
Proof. repeat split; vm_compute; reflexivity. Qed.

(** C6, amended.  In the split path every record written (the slices and
    the claimed block) whose own prefix length is at least 10 has as size a
    slash followed by the prefix length of its key.  The manual path stores
    the requested size under the given key, whatever the prefix length of
    the key. *)
Theorem split_sizes_match_keys account_id account_type env base_region
        config_options ip_allocation manual_cidr ip_block parent netmask c :
  IPv4Network_of_string ip_block = Ok parent ->
  prefixlen parent < netmask <= 32 ->
  config_map account_type = Ok env ->
  (exists network_list,
     let run := slice_and_claim account_id base_region config_options
                                ip_block netmask c in
     cidr_slicing ip_block netmask = Ok network_list /\
     forall k, In k network_list ->
       exists n it,
         IPv4Network_of_string k = Ok n /\
         get_item k (table (snd run)) = Some it /\
         (10 <= prefixlen n -> size it = Some ("/" ++ str (prefixlen n)))) /\
  get_item manual_cidr
    (table (snd (manual account_id account_type base_region ip_allocation
                        manual_cidr c)))
  = Some (in_use_item ip_allocation account_id base_region
                      (env ++ "-" ++ base_region)).
Proof.
  intros Hparse Hp Hcfg. split.
  - destruct (cidr_slicing_proper ip_block parent netmask Hparse Hp)
      as (pre & x & Hs & Hchain & Hall & Hx & Hvx & Hidx).
    cbn zeta in *.
    set (nets := (pre ++ [first_half x; second_half x])%list) in *.
    exists (map compressed nets). cbn zeta.
    rewrite (slice_and_claim_run _ _ _ _ _ c _ _ Hs Hidx). cbn [snd].
    split; [exact Hs |].
    intros k Hin.
    assert (Hr : (1 <= Z.to_nat (netmask - prefixlen parent))%nat) by lia.
    assert (Hq : prefixlen parent + Z.of_nat (Z.to_nat (netmask - prefixlen parent))
                 <= 32) by lia.
    pose proof Hin as Hin'. rewrite Hchain in Hin'.
    destruct (slices_read_back _ _ _ _ Hparse Hr Hq Hin')
      as (n & _ & -> & Hn & Hread & Hlt & Hne).
    exists n.
    destruct (string_dec (compressed n) (compressed (first_half x))) as [E | E].
    + eexists. split; [exact Hread |]. split.
      * rewrite E. apply after_slicing_claimed. rewrite <- E. exact Hne.
      * intros H10. cbn [in_use_item size]. rewrite <- E.
        rewrite last3_compressed by assumption. reflexivity.
    + destruct (after_slicing_sibling account_id base_region config_options
                  ip_block (compressed (first_half x)) (map compressed nets) c
                  (compressed n) Hin E Hne) as (it & Hget & Hsz & _).
      exists it. split; [exact Hread |]. split; [exact Hget |].
      intros H10. rewrite Hsz, last3_compressed by assumption. reflexivity.
  - unfold manual, bind, lift. rewrite Hcfg.
    unfold client_update_item, do_call, ret. cbn [snd table apply_call].
    rewrite get_update_same, apply_in_use_sets. reflexivity.
Qed.

Lemma split_sizes_match_keys_witness :
  (exists network_list,
     let run := slice_and_claim "006828683766" "us-west-2" "prod-us-west-2"
                  "10.0.0.0/8" 10
                  (mkClient [("10.0.0.0/8", free_block "/8" "us-west-2")] []) in
     cidr_slicing "10.0.0.0/8" 10 = Ok network_list /\
     forall k, In k network_list ->
       exists n it,
         IPv4Network_of_string k = Ok n /\
         get_item k (table (snd run)) = Some it /\
         (10 <= prefixlen n -> size it = Some ("/" ++ str (prefixlen n)))) /\
  get_item "10.1.0.0/24"
    (table (snd (manual "006828683766" "production" "us-west-2" "/24"
                        "10.1.0.0/24"
                        (mkClient [("10.0.0.0/8", free_block "/8" "us-west-2")] []))))
  = Some (in_use_item "/24" "006828683766" "us-west-2"
                      ("prod" ++ "-" ++ "us-west-2")).
Proof.
  apply (split_sizes_match_keys "006828683766" "production" "prod" "us-west-2"
           "prod-us-west-2" "/24" "10.1.0.0/24" "10.0.0.0/8"
           (mkNet 167772160 8) 10);
    [vm_compute; reflexivity | cbn [prefixlen]; lia | reflexivity].
Defined.

(** C2, as the code has it.  From a table that holds only the available
    block [10.0.0.0/20], a request for [/22] leaves three records: a
    single [/21] and two [/22].  And the request is served only for an
    account type that [config_map] has: for another one the run ends with
    [KeyError] after the scans, and nothing is written. *)
Lemma scenario_writes_one_21 :
  (keys (table (snd (allocate "006828683766" "production" "us-west-2" "/22" "no"
                       (mkClient [("10.0.0.0/20", free_block "/20" "us-west-2")]
                                 []))))
   = ["10.0.0.0/21"; "10.0.8.0/22"; "10.0.12.0/22"] /\
   cidr_slicing "10.0.0.0/20" 22
   = Ok ["10.0.0.0/21"; "10.0.8.0/22"; "10.0.12.0/22"]) /\
  allocate "006828683766" "nonproduction" "us-west-2" "/22" "no"
           (mkClient [("10.0.0.0/20", free_block "/20" "us-west-2")] [])
  = (Raise KeyError,
     mkClient [("10.0.0.0/20", free_block "/20" "us-west-2")]
              [Scan "/22" "us-west-2"; Scan "/21" "us-west-2";
               Scan "/20" "us-west-2"]).
Proof. repeat split; vm_compute; reflexivity. Qed.

Lemma widen_unfold fuel base_region netmask response c :
  widen (S fuel) base_region netmask response c
  = if Nat.eqb (List.length response) 0
    then if netmask - 1 <? 16 then raise pool_exhausted c
         else bind (client_scan ("/" ++ str (netmask - 1)) base_region)
                   (fun response => widen fuel base_region (netmask - 1) response)
                   c
    else ret response c.
Proof.
  cbn [widen]. destruct (Nat.eqb (List.length response) 0); [| reflexivity].
  destruct (netmask - 1 <? 16); reflexivity.
Qed.

(** Only the block under [key] answers a scan of [rg]; it answers the scan
    for [sz]. *)
Lemma only_available_scan key sz rg t :
  only_available key sz rg t ->
  (forall sz', sz' <> sz -> scan sz' rg t = []) /\
  exists it rest, scan sz rg t = (key, it) :: rest.
Proof.
  intros [(it0 & Hin0 & Hsz0 & Hav0 & Hrg0) Honly]. split.
  - intros sz' Hne.
    destruct (scan sz' rg t) as [| [k it] r] eqn:E; [reflexivity |].
    assert (Hin : In (k, it) (scan sz' rg t)) by (rewrite E; left; reflexivity).
    apply scan_In in Hin. destruct Hin as (Hin & Hs & Ha & Hr).
    destruct (Honly k it Hin Ha Hr) as [_ Hs']. congruence.
  - destruct (scan sz rg t) as [| [k it] r] eqn:E.
    + exfalso.
      assert (H : In (key, it0) (scan sz rg t)).
      { unfold scan. apply filter_In. split; [exact Hin0 |].
        unfold filter_expression, attr_is. cbn [snd].
        rewrite Hsz0, Hav0, Hrg0, !String.eqb_refl. reflexivity. }
      rewrite E in H. destruct H.
    + assert (Hin : In (k, it) (scan sz rg t)) by (rewrite E; left; reflexivity).
      apply scan_In in Hin. destruct Hin as (Hin & Hs & Ha & Hr).
      destruct (Honly k it Hin Ha Hr) as [-> _]. eauto.
Qed.

(** C2, amended.  Take a table in which the only available block of
    [us-west-2] is [10.0.0.0/20]; it may hold records in use and blocks of
    other regions as well.  A request for [/22] in [us-west-2], from an
    account whose type [config_map] has, scans for [/22], [/21] and [/20],
    writes [10.0.0.0/21], [10.0.8.0/22] and [10.0.12.0/22] as available,
    marks [10.0.8.0/22] in-use and deletes [10.0.0.0/20], and makes no
    other call: one [/21] and one [/22] stay available, and every other
    record is as it was. *)
Theorem scenario_20_to_22 account_id account_type env t log :
  config_map account_type = Ok env ->
  only_available "10.0.0.0/20" "/20" "us-west-2" t ->
  let run := allocate account_id account_type "us-west-2" "/22" "no"
                      (mkClient t log) in
  let t' := table (snd run) in
  fst run = Ok "10.0.8.0/22" /\
  calls (snd run)
  = (log ++
    [Scan "/22" "us-west-2"; Scan "/21" "us-west-2"; Scan "/20" "us-west-2";
     UpdateItem "10.0.0.0/21" (sibling_sets "us-west-2" "10.0.0.0/21");
     UpdateItem "10.0.8.0/22" (sibling_sets "us-west-2" "10.0.8.0/22");
     UpdateItem "10.0.12.0/22" (sibling_sets "us-west-2" "10.0.12.0/22");
     UpdateItem "10.0.8.0/22"
       (in_use_sets account_id "us-west-2" (env ++ "-" ++ "us-west-2") "/22");
     DeleteItem "10.0.0.0/20"])%list /\
  (exists it,
     get_item "10.0.0.0/21" t' = Some it /\
     size it = Some "/21" /\ availability it = Some "available" /\
     region it = Some "us-west-2" /\
     (get_item "10.0.0.0/21" t = None -> it = free_block "/21" "us-west-2")) /\
  (exists it,
     get_item "10.0.12.0/22" t' = Some it /\
     size it = Some "/22" /\ availability it = Some "available" /\
     region it = Some "us-west-2" /\
     (get_item "10.0.12.0/22" t = None -> it = free_block "/22" "us-west-2")) /\
  get_item "10.0.8.0/22" t'
  = Some (in_use_item "/22" account_id "us-west-2" (env ++ "-" ++ "us-west-2")) /\
  get_item "10.0.0.0/20" t' = None /\
  (forall k, k <> "10.0.0.0/21" -> k <> "10.0.8.0/22" -> k <> "10.0.12.0/22" ->
             k <> "10.0.0.0/20" -> get_item k t' = get_item k t).
Proof.
  intros Hcfg Honly. cbn zeta.
  destruct (only_available_scan _ _ _ _ Honly) as [Hnone (it1 & rest & Hscan)].
  assert (E : allocate account_id account_type "us-west-2" "/22" "no"
                       (mkClient t log)
              = (Ok "10.0.8.0/22",
                 after_slicing account_id "us-west-2" (env ++ "-" ++ "us-west-2")
                   "10.0.0.0/20" "10.0.8.0/22"
                   ["10.0.0.0/21"; "10.0.8.0/22"; "10.0.12.0/22"]
                   (mkClient t (log ++ [Scan "/22" "us-west-2";
                                        Scan "/21" "us-west-2";
                                        Scan "/20" "us-west-2"])%list))).
  { unfold allocate. change (ip_re_match "/22") with true. cbn [negb].
    change (String.eqb "no" "no") with true. cbv iota.
    unfold automatic, bind at 1. unfold client_scan at 1. cbn [table calls].
    rewrite (Hnone "/22") by discriminate.
    unfold bind at 1. unfold lift at 1.
    change (int (strip is_slash "/22")) with (Ok 22).
    unfold bind at 1. change (S (Z.to_nat 22)) with 23%nat.
    rewrite widen_unfold. cbn [List.length Nat.eqb].
    change (22 - 1 <? 16) with false. change ("/" ++ str (22 - 1)) with "/21".
    cbv iota. unfold bind at 1. unfold client_scan at 1. cbn [table calls].
    rewrite (Hnone "/21") by discriminate.
    rewrite widen_unfold. cbn [List.length Nat.eqb].
    change (22 - 1 - 1 <? 16) with false.
    change ("/" ++ str (22 - 1 - 1)) with "/20".
    cbv iota. unfold bind at 1. unfold client_scan at 1. cbn [table calls].
    rewrite Hscan. rewrite widen_unfold. cbn [List.length Nat.eqb]. unfold ret at 1.
    unfold bind at 1. unfold lift at 1. rewrite Hcfg.
    unfold bind at 1. unfold lift at 1. cbn [index_0 fst].
    unfold bind at 1. unfold lift at 1.
    change (int (strip is_slash "/22")) with (Ok 22).
    change (str_in "/22" "10.0.0.0/20") with false. cbv iota.
    rewrite (slice_and_claim_run _ _ _ _ _ _
               ["10.0.0.0/21"; "10.0.8.0/22"; "10.0.12.0/22"] "10.0.8.0/22");
      [| vm_compute; reflexivity | reflexivity].
    rewrite <- !app_assoc. reflexivity. }
  rewrite E. cbn [fst snd].
  split; [reflexivity |].
  split; [unfold after_slicing; cbn [calls]; rewrite <- app_assoc; reflexivity |].
  unfold after_slicing, sibling_updates.
  cbn [table map replay fold_left apply_call].
  change (last3 "10.0.8.0/22") with "/22".
  split; [| split; [| split; [| split]]].
  - rewrite get_delete_other by discriminate.
    rewrite !get_update_other by discriminate.
    rewrite get_update_same, apply_sibling_sets.
    eexists. split; [reflexivity |]. cbn [size availability region].
    repeat (split; [reflexivity |]).
    intros ->. reflexivity.
  - rewrite get_delete_other by discriminate.
    rewrite get_update_other by discriminate.
    rewrite get_update_same, !get_update_other by discriminate.
    rewrite apply_sibling_sets.
    eexists. split; [reflexivity |]. cbn [size availability region].
    repeat (split; [reflexivity |]).
    intros ->. reflexivity.
  - rewrite get_delete_other by discriminate.
    rewrite get_update_same, apply_in_use_sets. reflexivity.
  - apply get_delete_same.
  - intros k H1 H2 H3 H4.
    rewrite get_delete_other by exact H4.
    rewrite !get_update_other by assumption. reflexivity.
Qed.

Lemma scenario_20_to_22_witness :
  let t := [("10.0.0.0/20", free_block "/20" "us-west-2");
            ("10.1.0.0/24",
             in_use_item "/24" "111111111111" "us-west-2" "nonprod-us-west-2");
            ("10.2.0.0/20", free_block "/20" "eu-west-1")] in
  let run := allocate "006828683766" "production" "us-west-2" "/22" "no"
                      (mkClient t []) in
  let t' := table (snd run) in
  fst run = Ok "10.0.8.0/22" /\
  calls (snd run)
  = ([] ++
    [Scan "/22" "us-west-2"; Scan "/21" "us-west-2"; Scan "/20" "us-west-2";
     UpdateItem "10.0.0.0/21" (sibling_sets "us-west-2" "10.0.0.0/21");
     UpdateItem "10.0.8.0/22" (sibling_sets "us-west-2" "10.0.8.0/22");
     UpdateItem "10.0.12.0/22" (sibling_sets "us-west-2" "10.0.12.0/22");
     UpdateItem "10.0.8.0/22"
       (in_use_sets "006828683766" "us-west-2" ("prod" ++ "-" ++ "us-west-2")
                    "/22");
     DeleteItem "10.0.0.0/20"])%list /\
  (exists it,
     get_item "10.0.0.0/21" t' = Some it /\
     size it = Some "/21" /\ availability it = Some "available" /\
     region it = Some "us-west-2" /\
     (get_item "10.0.0.0/21" t = None -> it = free_block "/21" "us-west-2")) /\
  (exists it,
     get_item "10.0.12.0/22" t' = Some it /\
     size it = Some "/22" /\ availability it = Some "available" /\
     region it = Some "us-west-2" /\
     (get_item "10.0.12.0/22" t = None -> it = free_block "/22" "us-west-2")) /\
  get_item "10.0.8.0/22" t'
  = Some (in_use_item "/22" "006828683766" "us-west-2"
                      ("prod" ++ "-" ++ "us-west-2")) /\
  get_item "10.0.0.0/20" t' = None /\
  (forall k, k <> "10.0.0.0/21" -> k <> "10.0.8.0/22" -> k <> "10.0.12.0/22" ->
             k <> "10.0.0.0/20" -> get_item k t' = get_item k t).
Proof.
  apply (scenario_20_to_22 "006828683766" "production" "prod"
           [("10.0.0.0/20", free_block "/20" "us-west-2");
            ("10.1.0.0/24",
             in_use_item "/24" "111111111111" "us-west-2" "nonprod-us-west-2");
            ("10.2.0.0/20", free_block "/20" "eu-west-1")] []).
  - reflexivity.
  - split.
    + exists (free_block "/20" "us-west-2").
      split; [left; reflexivity | repeat split; reflexivity].
    + intros k it [H | [H | [H | []]]]; injection H as <- <-;
        cbn [free_block in_use_item availability region size];
        intros Ha Hr; try discriminate Ha; try discriminate Hr.
      split; reflexivity.
Defined.

(** C7.  Whatever prefix length was requested, when no scan of the region
    finds a block the automatic path ends with the exit message of the
    widening loop.  It has scanned for the requested size and then for each
    shorter prefix, one by one, down to [/16]; the table is as it was. *)
Theorem widening_gives_up account_id account_type base_region ip_allocation
        netmask c :
  int (strip is_slash ip_allocation) = Ok netmask ->
  (forall sz, scan sz base_region (table c) = []) ->
  automatic account_id account_type base_region ip_allocation c
  = (Raise pool_exhausted,
     mkClient (table c)
              (calls c ++ Scan ip_allocation base_region
                          :: scans base_region (countdown (netmask - 1) 16))).
Proof.
  intros Hint Hempty. unfold automatic, bind.
  unfold client_scan at 1. rewrite Hempty.
  unfold lift at 1. rewrite Hint.
  rewrite widen_empty_pool; [| cbn [table]; exact Hempty | lia].
  cbn [table calls]. rewrite <- app_assoc. reflexivity.
Qed.

Lemma widening_gives_up_witness :
  automatic "006828683766" "production" "eu-west-1" "/24"
            (mkClient [("10.0.0.0/20", free_block "/20" "us-west-2")] [])
  = (Raise pool_exhausted,
     mkClient [("10.0.0.0/20", free_block "/20" "us-west-2")]
              ([] ++ Scan "/24" "eu-west-1"
                  :: scans "eu-west-1" (countdown (24 - 1) 16))).
Proof.
  apply (widening_gives_up "006828683766" "production" "eu-west-1" "/24" 24
           (mkClient [("10.0.0.0/20", free_block "/20" "us-west-2")] [])).
  - vm_compute. reflexivity.
  - intros sz. unfold scan, filter, filter_expression. simpl.
    rewrite andb_false_r. reflexivity.
Defined.

(** C8.  With a manual block the script makes one call, an [update_item]
    on the given key: nothing is read first.  Whatever the table held under
    that key, the record under it afterwards is the in-use record with the
    given account, region, configuration and requested size. *)
Theorem manual_overwrites account_id account_type env base_region
        ip_allocation manual_cidr c :
  ip_re_match ip_allocation = true ->
  manual_cidr <> "no" ->
  config_map account_type = Ok env ->
  let sets := in_use_sets account_id base_region (env ++ "-" ++ base_region)
                          ip_allocation in
  let run := allocate account_id account_type base_region ip_allocation
                      manual_cidr c in
  run = (Ok manual_cidr,
         mkClient (update_item manual_cidr sets (table c))
                  (calls c ++ [UpdateItem manual_cidr sets])) /\
  get_item manual_cidr (table (snd run))
  = Some (in_use_item ip_allocation account_id base_region
                      (env ++ "-" ++ base_region)).
Proof.
  intros Hre Hno Hcfg. cbn zeta.
  assert (E : allocate account_id account_type base_region ip_allocation
                       manual_cidr c
              = (Ok manual_cidr,
                 mkClient
                   (update_item manual_cidr
                      (in_use_sets account_id base_region
                                   (env ++ "-" ++ base_region) ip_allocation)
                      (table c))
                   (calls c ++
                    [UpdateItem manual_cidr
                       (in_use_sets account_id base_region
                                    (env ++ "-" ++ base_region) ip_allocation)]))).
  { unfold allocate. rewrite Hre. cbn [negb].
    replace (String.eqb manual_cidr "no") with false
      by (symmetry; apply String.eqb_neq; exact Hno).
    unfold manual, bind, lift. rewrite Hcfg. reflexivity. }
  rewrite E. split; [reflexivity |].
  cbn [snd table]. rewrite get_update_same, apply_in_use_sets. reflexivity.
Qed.

Lemma manual_overwrites_witness :
  let sets := in_use_sets "006828683766" "us-west-2" ("prod" ++ "-" ++ "us-west-2")
                          "/24" in
  let run := allocate "006828683766" "production" "us-west-2" "/24"
                      "10.1.0.0/24"
                      (mkClient [("10.1.0.0/24",
                                  in_use_item "/24" "111111111111" "us-west-2"
                                              "nonprod-us-west-2")] []) in
  run = (Ok "10.1.0.0/24",
         mkClient (update_item "10.1.0.0/24" sets
                     [("10.1.0.0/24",
                       in_use_item "/24" "111111111111" "us-west-2"
                                   "nonprod-us-west-2")])
                  ([] ++ [UpdateItem "10.1.0.0/24" sets])) /\
  get_item "10.1.0.0/24" (table (snd run))
  = Some (in_use_item "/24" "006828683766" "us-west-2"
                      ("prod" ++ "-" ++ "us-west-2")).
Proof.
  apply (manual_overwrites "006828683766" "production" "prod" "us-west-2" "/24"
           "10.1.0.0/24");
    [reflexivity | discriminate | reflexivity].
Defined.

(** C9.  What the size check lets through: exactly the strings made of a
    slash and a number from 10 to 29, with or without a newline after
    them.  So [/29] and [/10] pass, although the message of the check
    speaks of [/18 - /28]. *)
Theorem ip_re_accepts_10_to_29 s :
  ip_re_match s = true <->
  exists m, 10 <= m <= 29 /\ (s = "/" ++ str m \/ s = "/" ++ str m ++ newline).
Proof.
  split.
  - intros H. exists (requested_netmask s).
    destruct (ip_re_match_inv s H) as (Hm & _ & Hs). auto.
  - intros (m & Hm & Hs).
    assert (Hc : ip_re_check m = true).
    { apply (forall_below ip_re_check 30); [vm_compute; reflexivity | lia]. }
    unfold ip_re_check in Hc.
    replace (10 <=? m) with true in Hc by (symmetry; apply Z.leb_le; lia).
    apply andb_true_iff in Hc. destruct Hc as [H1 H2].
    destruct Hs as [-> | ->]; assumption.
Qed.

(* ================================================================== *)
(** * Runs one after another *)

Section Sequences.

Lemma disjoint_blocks_incl ks ks' :
  NoDup ks' -> (forall k, In k ks' -> In k ks) ->
  disjoint_blocks ks -> disjoint_blocks ks'.
Proof.
  intros Hd Hin (_ & Hread & Hsame). split; [exact Hd |]. split.
  - intros k Hk. apply Hread, Hin, Hk.
  - intros k1 k2 n1 n2 x H1 H2. apply Hsame; apply Hin; assumption.
Qed.

Lemma disjoint_blocks_Permutation ks ks' :
  Permutation ks ks' -> disjoint_blocks ks -> disjoint_blocks ks'.
Proof.
  intros Hp H. apply (disjoint_blocks_incl ks).
  - apply (Permutation_NoDup Hp). apply H.
  - intros k Hk. apply (Permutation_in _ (Permutation_sym Hp)). exact Hk.
  - exact H.
Qed.

Lemma recorded_in_use_key k t : recorded_in_use k t -> In k (keys t).
Proof.
  intros (it & Hget & _). apply get_item_In in Hget.
  change k with (fst (k, it)). apply in_map. exact Hget.
Qed.

Lemma in_net_own_address n : valid n -> in_net (network_address n) n.
Proof.
  intros Hv. apply in_net_valid; [exact Hv |].
  destruct Hv as (Hp & _ & _).
  assert (0 < 2 ^ (32 - prefixlen n)) by (apply Z.pow_pos_nonneg; lia).
  lia.
Qed.

(** Two blocks of a chain that share an address are the same block. *)
Lemma chain_overlap_same r n m1 m2 x :
  valid n -> prefixlen n + Z.of_nat r <= 32 ->
  In m1 (chain r n) -> In m2 (chain r n) ->
  in_net x m1 -> in_net x m2 -> m1 = m2.
Proof.
  intros Hv Hp H1 H2 Hx1 Hx2.
  apply In_nth_error in H1. destruct H1 as [i Hi].
  apply In_nth_error in H2. destruct H2 as [j Hj].
  destruct (Nat.eq_dec i j) as [-> | Hne]; [congruence |].
  exfalso.
  apply (tiles_disjoint _ _ _ (chain_valid r n Hv Hp) (chain_tiles r n Hv Hp)
           i j m1 m2 x Hne Hi Hj Hx1 Hx2).
Qed.

(** A successful automatic run found an available block of the region in
    the table and then took one of the two branches on it. *)
Lemma automatic_inv account_id account_type base_region ip_allocation c cidr c' :
  ip_re_match ip_allocation = true ->
  automatic account_id account_type base_region ip_allocation c = (Ok cidr, c') ->
  exists env ip_block it c1,
    config_map account_type = Ok env /\
    In (ip_block, it) (table c) /\
    availability it = Some "available" /\ region it = Some base_region /\
    table c1 = table c /\
    ((str_in ip_allocation ip_block = true /\
      claim_found account_id (env ++ "-" ++ base_region) ip_block c1
      = (Ok cidr, c')) \/
     (str_in ip_allocation ip_block = false /\
      slice_and_claim account_id base_region (env ++ "-" ++ base_region)
                      ip_block (requested_netmask ip_allocation) c1
      = (Ok cidr, c'))).
Proof.
  intros Hre Hrun.
  destruct (ip_re_match_inv _ Hre) as (Hm & Hint & _).
  unfold automatic, bind in Hrun.
  unfold client_scan in Hrun at 1. unfold lift in Hrun at 1.
  rewrite Hint in Hrun.
  destruct (widen _ _ _ _ _) as [res c1] eqn:Hw in Hrun.
  apply widen_spec in Hw; [| lia | cbn [table]; intros kv Hin; eexists; exact Hin].
  cbn [table] in Hw. destruct Hw as (Ht & _ & Hres).
  destruct Hres as [-> | (response & -> & Hne & Hresp)]; [discriminate |].
  unfold lift in Hrun at 1.
  destruct (config_map account_type) as [env |] eqn:Hcfg; [| discriminate].
  unfold lift in Hrun at 1.
  destruct response as [| [ip_block it] response]; [congruence |].
  cbn [index_0 fst] in Hrun.
  unfold lift in Hrun at 1. cbn [rbind] in Hrun.
  destruct (Hresp (ip_block, it) (or_introl eq_refl)) as [sz Hin].
  apply scan_In in Hin. destruct Hin as (Hin & _ & Hav & Hrg).
  exists env, ip_block, it, c1.
  split; [reflexivity |].
  repeat (split; [assumption |]).
  destruct (str_in ip_allocation ip_block); [left | right]; auto.
Qed.

Lemma claim_sets_in_use account_id config_options it :
  availability (apply_set (claim_sets account_id config_options) it)
  = Some "in-use".
Proof. reflexivity. Qed.

(** One successful automatic run keeps the blocks of the table disjoint.
    The block it returns was not in use before and is in use after it, and
    what was in use stays in use. *)
Lemma allocate_step account_id account_type base_region ip_allocation c cidr c' :
  disjoint_blocks (keys (table c)) ->
  allocate account_id account_type base_region ip_allocation "no" c
  = (Ok cidr, c') ->
  disjoint_blocks (keys (table c')) /\
  recorded_in_use cidr (table c') /\
  ~ recorded_in_use cidr (table c) /\
  (forall k, recorded_in_use k (table c) -> recorded_in_use k (table c')).
Proof.
  intros Hd Hrun. unfold allocate in Hrun.
  destruct (ip_re_match ip_allocation) eqn:Hre; cbn [negb] in Hrun;
    [| discriminate].
  rewrite String.eqb_refl in Hrun.
  destruct (ip_re_match_inv _ Hre) as (Hm & _ & _).
  apply automatic_inv in Hrun; [| exact Hre].
  destruct Hrun as (env & ip_block & it & c1 & Hcfg & Hin & Hav & Hrg & Ht & Hbr).
  pose proof Hd as (Hnd & Hread & Hsame).
  assert (Hget : get_item ip_block (table c) = Some it)
    by (apply In_get_item; assumption).
  assert (Hkey : In ip_block (keys (table c)))
    by (change ip_block with (fst (ip_block, it)); apply in_map; exact Hin).
  assert (Hnot : forall k, recorded_in_use k (table c) -> k <> ip_block).
  { intros k (it' & Hg & Ha) ->. rewrite Hget in Hg. injection Hg as <-.
    rewrite Hav in Ha. discriminate Ha. }
  destruct Hbr as [[_ Hcf] | [_ Hsl]].
  - unfold claim_found, bind, client_update_item, do_call, ret in Hcf.
    injection Hcf as <- <-. cbn [table apply_call]. rewrite Ht.
    split; [| split; [| split]].
    + apply (disjoint_blocks_incl (keys (table c))).
      * apply NoDup_update_item. exact Hnd.
      * intros k Hk. apply keys_update_item in Hk.
        destruct Hk as [-> | Hk]; assumption.
      * exact Hd.
    + eexists. split; [apply get_update_same | apply claim_sets_in_use].
    + intros H. apply (Hnot _ H). reflexivity.
    + intros k Hk. pose proof (Hnot k Hk) as Hne.
      destruct Hk as (it' & Hg & Ha). exists it'. split; [| exact Ha].
      rewrite get_update_other by exact Hne. exact Hg.
  - apply slice_and_claim_inv in Hsl.
    destruct Hsl as [[_ [e He]] | (network_list & claimed & Hs & Hidx & Hres & Hc')];
      [discriminate |].
    injection Hres as ->. subst c'.
    destruct (Hread ip_block Hkey) as [parent Hparse].
    pose proof (IPv4Network_of_string_valid _ _ Hparse) as Hv.
    assert (Hlt : prefixlen parent < requested_netmask ip_allocation).
    { destruct (Z_lt_le_dec (prefixlen parent) (requested_netmask ip_allocation))
        as [H | Hle]; [exact H |].
      rewrite (cidr_slicing_no_split _ _ _ Hparse Hle) in Hs.
      injection Hs as <-. discriminate Hidx. }
    rewrite (cidr_slicing_chain _ _ _ Hparse) in Hs by lia.
    injection Hs as Hs.
    set (r := Z.to_nat (requested_netmask ip_allocation - prefixlen parent)) in *.
    assert (Hr : (1 <= r)%nat) by lia.
    assert (Hp : prefixlen parent + Z.of_nat r <= 32) by lia.
    assert (Hslice : forall k, In k network_list ->
              exists n, In n (chain r parent) /\ valid n /\
                        IPv4Network_of_string k = Ok n /\ k <> ip_block).
    { intros k Hk. rewrite <- Hs in Hk.
      destruct (slices_read_back _ _ _ _ Hparse Hr Hp Hk)
        as (n & Hn & _ & Hvn & Hrd & _ & Hne).
      exists n. auto. }
    assert (Hfresh : forall k, In k network_list -> ~ In k (keys (table c))).
    { intros k Hk Hold. destruct (Hslice k Hk) as (n & Hn & Hvn & Hrd & Hne).
      apply Hne.
      apply (Hsame k ip_block n parent (network_address n) Hold Hkey Hrd Hparse).
      - apply in_net_own_address. exact Hvn.
      - apply (chain_In_inside r parent n _ Hv Hp Hn).
        apply in_net_own_address. exact Hvn. }
    pose proof (index_m2_In _ _ Hidx) as Hcin.
    destruct (Hslice claimed Hcin) as (nc & _ & _ & _ & Hcne).
    pose proof (after_slicing_claimed account_id base_region
                  (env ++ "-" ++ base_region) ip_block claimed network_list c1
                  Hcne) as Hclaimed.
    unfold after_slicing in *. cbn [table] in *. rewrite Ht in *.
    set (T := delete_item ip_block _) in *.
    assert (Hmem : forall k, In k (keys T) ->
              k <> ip_block /\ (In k network_list \/ In k (keys (table c)))).
    { intros k Hk. unfold T in Hk.
      rewrite keys_delete_item, keys_update_item, keys_replay_updates in Hk.
      destruct Hk as [Hne [-> | Hk]]; auto. }
    split; [| split; [| split]].
    + split; [| split].
      * unfold T. apply NoDup_delete_item, NoDup_update_item,
          NoDup_replay_updates. exact Hnd.
      * intros k Hk. apply Hmem in Hk. destruct Hk as [_ [Hk | Hk]].
        -- destruct (Hslice k Hk) as (n & _ & _ & Hrd & _). eauto.
        -- apply Hread. exact Hk.
      * intros k1 k2 n1 n2 x H1 H2 P1 P2 X1 X2.
        apply Hmem in H1. apply Hmem in H2.
        destruct H1 as [N1 [S1 | O1]], H2 as [N2 [S2 | O2]].
        -- destruct (Hslice k1 S1) as (m1 & I1 & V1 & R1 & _).
           destruct (Hslice k2 S2) as (m2 & I2 & V2 & R2 & _).
           rewrite P1 in R1. injection R1 as <-.
           rewrite P2 in R2. injection R2 as <-.
           assert (E : n1 = n2)
             by (apply (chain_overlap_same r parent n1 n2 x); assumption).
           subst n2.
           rewrite <- Hs in S1, S2.
           apply in_map_iff in S1. destruct S1 as (a1 & <- & A1).
           apply in_map_iff in S2. destruct S2 as (a2 & <- & A2).
           pose proof (chain_In_valid r parent a1 Hv Hp A1) as Va1.
           pose proof (chain_In_valid r parent a2 Hv Hp A2) as Va2.
           rewrite (IPv4Network_of_compressed a1 Va1) in P1.
           rewrite (IPv4Network_of_compressed a2 Va2) in P2.
           congruence.
        -- exfalso. apply N2.
           destruct (Hslice k1 S1) as (m1 & I1 & V1 & R1 & _).
           rewrite P1 in R1. injection R1 as <-.
           symmetry.
           apply (Hsame ip_block k2 parent n2 x Hkey O2 Hparse P2); [| exact X2].
           apply (chain_In_inside r parent n1 x Hv Hp I1 X1).
        -- exfalso. apply N1.
           destruct (Hslice k2 S2) as (m2 & I2 & V2 & R2 & _).
           rewrite P2 in R2. injection R2 as <-.
           symmetry.
           apply (Hsame ip_block k1 parent n1 x Hkey O1 Hparse P1); [| exact X1].
           apply (chain_In_inside r parent n2 x Hv Hp I2 X2).
        -- apply (Hsame k1 k2 n1 n2 x); assumption.
    + eexists. split; [exact Hclaimed | reflexivity].
    + intros H. apply recorded_in_use_key in H. exact (Hfresh claimed Hcin H).
    + intros k Hk. pose proof (Hnot k Hk) as Hne.
      pose proof (recorded_in_use_key k _ Hk) as Hold.
      assert (Hnl : ~ In k network_list)
        by (intros H; exact (Hfresh k H Hold)).
      assert (Hkc : k <> claimed) by (intros ->; exact (Hnl Hcin)).
      destruct Hk as (it' & Hg & Ha). exists it'. split; [| exact Ha].
      unfold T. rewrite get_delete_other by exact Hne.
      rewrite get_update_other by exact Hkc.
      rewrite get_replay_updates_other by exact Hnl. exact Hg.
Qed.

Lemma runs_invariant t claimed t' :
  runs t claimed t' ->
  forall done,
    disjoint_blocks (keys t) -> NoDup done ->
    (forall k, In k done -> recorded_in_use k t) ->
    disjoint_blocks (keys t') /\ NoDup (claimed ++ done) /\
    (forall k, In k (claimed ++ done) -> recorded_in_use k t').
Proof.
  induction 1 as [t | t t1 log r cidr c' claimed t' Hperm Hrun Hruns IH];
    intros done Hd Hnd Hdone.
  - cbn [app]. auto.
  - assert (Hd1 : disjoint_blocks (keys t1)).
    { apply (disjoint_blocks_Permutation (keys t)); [| exact Hd].
      apply Permutation_map. exact Hperm. }
    assert (Hdone1 : forall k, In k done -> recorded_in_use k t1).
    { intros k Hk. destruct (Hdone k Hk) as (it & Hg & Ha).
      exists it. split; [| exact Ha].
      rewrite <- (get_item_Permutation t t1 k); [exact Hg | apply Hd | exact Hperm]. }
    destruct (allocate_step _ _ _ _ (mkClient t1 log) cidr c' Hd1 Hrun)
      as (Hd' & Hin & Hnew & Hkeep).
    cbn [table] in Hnew, Hkeep.
    destruct (IH (cidr :: done)) as (Hd'' & Hnd'' & Hall).
    + exact Hd'.
    + constructor; [intros Hc; apply Hnew, Hdone1, Hc | exact Hnd].
    + intros k [<- | Hk]; [exact Hin | apply Hkeep, Hdone1, Hk].
    + split; [exact Hd'' |]. split.
      * apply (Permutation_NoDup (l := claimed ++ cidr :: done)); [| exact Hnd''].
        apply Permutation_sym, Permutation_middle.
      * intros k Hk. apply Hall. cbn [app] in Hk.
        destruct Hk as [<- | Hk]; apply in_or_app;
          [right; left; reflexivity |].
        apply in_app_or in Hk. destruct Hk; [left | right; right]; assumption.
Qed.

End Sequences.

(** C5.  Take a table whose records name blocks that do not overlap, and
    run the automatic path any number of times, each run successful and
    starting from the table the run before it left.  After every such
    sequence the records of the table still name blocks that do not
    overlap; the blocks the runs returned are distinct, do not overlap, and
    are each recorded as in use. *)
Theorem allocations_never_overlap t claimed t' :
  disjoint_blocks (keys t) ->
  runs t claimed t' ->
  disjoint_blocks (keys t') /\
  disjoint_blocks claimed /\
  (forall k, In k claimed -> recorded_in_use k t').
Proof.
  intros Hd Hruns.
  destruct (runs_invariant t claimed t' Hruns [] Hd (NoDup_nil _))
    as (Hd' & Hnd & Hall); [intros k [] |].
  rewrite app_nil_r in Hnd.
  assert (Hall' : forall k, In k claimed -> recorded_in_use k t').
  { intros k Hk. apply Hall. rewrite app_nil_r. exact Hk. }
  split; [exact Hd' |]. split; [| exact Hall'].
  apply (disjoint_blocks_incl (keys t')); [exact Hnd | | exact Hd'].
  intros k Hk. apply recorded_in_use_key, Hall', Hk.
Qed.

Lemma allocations_never_overlap_witness :
  disjoint_blocks
    (keys [("10.0.0.0/21", free_block "/21" "us-west-2");
           ("10.0.8.0/22",
            in_use_item "/22" "006828683766" "us-west-2" "prod-us-west-2");
           ("10.0.12.0/22",
            mkItem (Some "/22") (Some "in-use") (Some "us-west-2")
                   (Some "111111111111") (Some "nonprod-us-west-2"))]) /\
  disjoint_blocks ["10.0.8.0/22"; "10.0.12.0/22"] /\
  (forall k, In k ["10.0.8.0/22"; "10.0.12.0/22"] ->
     recorded_in_use k
       [("10.0.0.0/21", free_block "/21" "us-west-2");
        ("10.0.8.0/22",
         in_use_item "/22" "006828683766" "us-west-2" "prod-us-west-2");
        ("10.0.12.0/22",
         mkItem (Some "/22") (Some "in-use") (Some "us-west-2")
                (Some "111111111111") (Some "nonprod-us-west-2"))]).
Proof.
  apply (allocations_never_overlap
           [("10.0.0.0/20", free_block "/20" "us-west-2")]).
  - split; [| split].
    + constructor; [intros [] | constructor].
    + intros k [<- | []]. eexists. vm_compute. reflexivity.
    + intros k1 k2 n1 n2 x [<- | []] [<- | []] _ _ _ _. reflexivity.
  - apply (runs_step _ [("10.0.0.0/20", free_block "/20" "us-west-2")] []
             (mkRequest "006828683766" "production" "us-west-2" "/22")
             "10.0.8.0/22"
             (mkClient
                [("10.0.0.0/21", free_block "/21" "us-west-2");
                 ("10.0.8.0/22",
                  in_use_item "/22" "006828683766" "us-west-2" "prod-us-west-2");
                 ("10.0.12.0/22", free_block "/22" "us-west-2")]
                (calls (snd (allocate "006828683766" "production" "us-west-2"
                               "/22" "no"
                               (mkClient
                                  [("10.0.0.0/20", free_block "/20" "us-west-2")]
                                  [])))))).
    + apply Permutation_refl.
    + vm_compute. reflexivity.
    + cbn [table].
      apply (runs_step _
               [("10.0.0.0/21", free_block "/21" "us-west-2");
                ("10.0.8.0/22",
                 in_use_item "/22" "006828683766" "us-west-2" "prod-us-west-2");
                ("10.0.12.0/22", free_block "/22" "us-west-2")] []
               (mkRequest "111111111111" "internal" "us-west-2" "/22")
               "10.0.12.0/22"
               (mkClient
                  [("10.0.0.0/21", free_block "/21" "us-west-2");
                   ("10.0.8.0/22",
                    in_use_item "/22" "006828683766" "us-west-2"
                                "prod-us-west-2");
                   ("10.0.12.0/22",
                    mkItem (Some "/22") (Some "in-use") (Some "us-west-2")
                           (Some "111111111111") (Some "nonprod-us-west-2"))]
                  [Scan "/22" "us-west-2";
                   UpdateItem "10.0.12.0/22"
                     (claim_sets "111111111111" "nonprod-us-west-2")])).
      * apply Permutation_refl.
      * vm_compute. reflexivity.
      * cbn [table]. apply runs_done.
Defined.

(* ================================================================== *)
(** * [cidr_slicing] on every input *)

Section SlicingTotal.

Lemma subnets_host n new_prefix :
  prefixlen n = 32 -> subnets n new_prefix = Ok [n].
Proof.
  intros H. unfold subnets, max_prefixlen. rewrite H. reflexivity.
Qed.

(** The loop of [cidr_slicing] from any point on: it returns, and has
    added one element per iteration and one more at the end.  Once the
    block at hand is a single address, [subnets] hands it back. *)
Lemma slicing_loop_length p0 d : forall fuel i avail acc,
  valid avail -> prefixlen avail = Z.min 32 (p0 + i - 1) ->
  (1 <= fuel)%nat -> Z.of_nat fuel = d - i + 1 ->
  exists l,
    slicing_loop fuel p0 d i avail acc = Ok (acc ++ l)%list /\
    List.length l = S fuel.
Proof.
  induction fuel as [| fuel IH]; intros i avail acc Hv Hp Hf Hi; [lia |].
  cbn [slicing_loop].
  replace (i <=? d) with true by (symmetry; apply Z.leb_le; lia).
  assert (Hstep : exists first next,
             subnets avail (p0 + i) = Ok [first; next] /\ valid next /\
             prefixlen next = Z.min 32 (p0 + i) \/
             subnets avail (p0 + i) = Ok [first] /\ next = first /\
             valid next /\ prefixlen next = Z.min 32 (p0 + i)).
  { destruct (Z.eq_dec (prefixlen avail) 32) as [E | E].
    - exists avail, avail. right.
      rewrite (subnets_host _ _ E). repeat split; try apply Hv. lia.
    - assert (Hlt : prefixlen avail < 32) by (destruct Hv; lia).
      exists (first_half avail), (second_half avail). left.
      replace (p0 + i) with (prefixlen avail + 1) by lia.
      rewrite (subnets_halves _ Hv Hlt).
      pose proof (second_half_valid _ Hv Hlt) as Hs.
      repeat split; try apply Hs.
      unfold second_half. cbn [prefixlen]. lia. }
  destruct Hstep as (first & next & Hsub).
  assert (Hnext : valid next /\ prefixlen next = Z.min 32 (p0 + i) /\
                  exists sub, subnets avail (p0 + i) = Ok sub /\
                              index_0 sub = Ok first /\
                              index_m1 sub = Ok next).
  { destruct Hsub as [(E & Hvn & Hpn) | (E & -> & Hvn & Hpn)];
      (split; [exact Hvn |]; split; [exact Hpn |]);
      eexists; (split; [exact E |]); split; reflexivity. }
  destruct Hnext as (Hvn & Hpn & sub & E & E0 & E1).
  rewrite E. cbn [rbind]. rewrite E0. cbn [rbind]. rewrite E1. cbn [rbind].
  destruct (i =? d) eqn:Eid.
  - apply Z.eqb_eq in Eid. rewrite slicing_loop_done by lia.
    exists [compressed first; compressed next]. split.
    + rewrite <- app_assoc. reflexivity.
    + cbn [List.length]. lia.
  - apply Z.eqb_neq in Eid.
    destruct (IH (i + 1) next (acc ++ [compressed first])%list) as (l & El & Hl).
    + exact Hvn.
    + rewrite Hpn. f_equal. lia.
    + lia.
    + lia.
    + exists (compressed first :: l). split.
      * rewrite El, <- app_assoc. reflexivity.
      * cbn [List.length]. lia.
Qed.

Lemma int_error s e : int s = Raise e -> e = ValueError.
Proof.
  unfold int. destruct (NilZero.int_of_string _); [discriminate |].
  intros [= <-]. reflexivity.
Qed.

Lemma parse_octet_error s e : parse_octet s = Raise e -> e = ValueError.
Proof.
  unfold parse_octet.
  destruct (negb (isdigit s)); [intros [= <-]; reflexivity |].
  destruct (Nat.ltb 3 (String.length s)); [intros [= <-]; reflexivity |].
  destruct (negb (String.eqb s "0") && prefix "0" s)%bool;
    [intros [= <-]; reflexivity |].
  destruct (int s) as [z |] eqn:Hi; cbn [rbind].
  - destruct (255 <? z); [intros [= <-]; reflexivity | discriminate].
  - intros [= <-]. apply (int_error _ _ Hi).
Qed.

Lemma parse_octets_error l e : parse_octets l = Raise e -> e = ValueError.
Proof.
  induction l as [| o l IH]; cbn [parse_octets]; [discriminate |].
  destruct (parse_octet o) as [x |] eqn:Ho; cbn [rbind].
  - destruct (parse_octets l) as [xs |]; cbn [rbind]; [discriminate |].
    intros [= <-]. apply IH. reflexivity.
  - intros [= <-]. apply (parse_octet_error _ _ Ho).
Qed.

Lemma ip_int_from_string_error s e :
  ip_int_from_string s = Raise e -> e = ValueError.
Proof.
  unfold ip_int_from_string.
  destruct (String.eqb s ""); [intros [= <-]; reflexivity |].
  destruct (negb (Nat.eqb (List.length (split "." s)) 4));
    [intros [= <-]; reflexivity |].
  destruct (parse_octets (split "." s)) as [bs |] eqn:Hp; cbn [rbind];
    [discriminate |].
  intros [= <-]. apply (parse_octets_error _ _ Hp).
Qed.

Lemma make_netmask_error s e : make_netmask s = Raise e -> e = ValueError.
Proof.
  unfold make_netmask.
  destruct (prefix_from_prefix_string s); [discriminate |].
  unfold prefix_from_ip_string.
  destruct (ip_int_from_string s) as [a |]; [| intros [= <-]; reflexivity].
  destruct (prefix_from_ip_int a); [discriminate |].
  destruct (prefix_from_ip_int (Z.lxor a ALL_ONES));
    [discriminate | intros [= <-]; reflexivity].
Qed.

(** The constructor of [IPv4Network] fails with [ValueError] only. *)
Lemma IPv4Network_of_string_error s e :
  IPv4Network_of_string s = Raise e -> e = ValueError.
Proof.
  unfold IPv4Network_of_string.
  destruct (split "/" s) as [| addr [| mask [| ? ?]]];
    try (intros [= <-]; reflexivity).
  - destruct (ip_int_from_string addr) as [a |] eqn:Ha; cbn [rbind];
      [discriminate |].
    intros [= <-]. apply (ip_int_from_string_error _ _ Ha).
  - destruct (ip_int_from_string addr) as [a |] eqn:Ha; cbn [rbind].
    + destruct (make_netmask mask) as [p |] eqn:Hp; cbn [rbind].
      * destruct (negb (Z.land a (ip_int_from_prefix p) =? a));
          [intros [= <-]; reflexivity | discriminate].
      * intros [= <-]. apply (make_netmask_error _ _ Hp).
    + intros [= <-]. apply (ip_int_from_string_error _ _ Ha).
Qed.

(** [cidr_slicing] on a block that reads: it returns a list. *)
Lemma cidr_slicing_length ip_block parent target :
  IPv4Network_of_string ip_block = Ok parent ->
  exists network_list,
    cidr_slicing ip_block target = Ok network_list /\
    List.length network_list
    = if target <=? prefixlen parent then O
      else S (Z.to_nat (target - prefixlen parent)).
Proof.
  intros Hparse.
  pose proof (IPv4Network_of_string_valid _ _ Hparse) as Hv.
  destruct (target <=? prefixlen parent) eqn:E.
  - apply Z.leb_le in E. exists [].
    split; [apply (cidr_slicing_no_split _ _ _ Hparse E) | reflexivity].
  - apply Z.leb_gt in E. unfold cidr_slicing. rewrite Hparse. cbn [rbind].
    destruct (slicing_loop_length (prefixlen parent) (target - prefixlen parent)
                (Z.to_nat (target - prefixlen parent)) 1 parent [])
      as (l & El & Hl); try lia.
    + exact Hv.
    + destruct Hv; lia.
    + exists l. split; [exact El | exact Hl].
Qed.

Lemma cidr_slicing_fuel ip_block target :
  is_out_of_fuel (cidr_slicing ip_block target) = false.
Proof.
  destruct (IPv4Network_of_string ip_block) as [parent | e] eqn:Hparse.
  - destruct (cidr_slicing_length ip_block parent target Hparse) as (l & -> & _).
    reflexivity.
  - unfold cidr_slicing. rewrite Hparse. cbn [rbind].
    rewrite (IPv4Network_of_string_error _ _ Hparse). reflexivity.
Qed.

End SlicingTotal.

(** X1.  [cidr_slicing] returns for every block that [IPv4Network] reads,
    the mask given as a prefix length or in dotted form, and for every
    target, whatever its sign or size: the empty list when the target is not
    longer than the block's prefix, and otherwise a list with one element
    per prefix length from the block's to the target, plus one. *)
Theorem cidr_slicing_returns ip_block parent target :
  IPv4Network_of_string ip_block = Ok parent ->
  exists network_list,
    cidr_slicing ip_block target = Ok network_list /\
    List.length network_list
    = if target <=? prefixlen parent then O
      else S (Z.to_nat (target - prefixlen parent)).
Proof.
  intros Hparse. exact (cidr_slicing_length ip_block parent target Hparse).
Qed.

Lemma cidr_slicing_returns_witness :
  exists network_list,
    cidr_slicing "10.0.0.0/255.255.255.254" 34 = Ok network_list /\
    List.length network_list
    = if 34 <=? prefixlen (mkNet 167772160 31) then O
      else S (Z.to_nat (34 - prefixlen (mkNet 167772160 31))).
Proof.
  apply (cidr_slicing_returns "10.0.0.0/255.255.255.254"
           (mkNet 167772160 31) 34).
  vm_compute. reflexivity.
Defined.

(** X2.  In a proper split the element at position [i] reads as a block
    whose prefix is [i + 1] longer than the parent's; only the last element
    differs: it has the prefix length of the element before it, the
    target. *)
Theorem cidr_slicing_prefixes ip_block parent target network_list i k :
  IPv4Network_of_string ip_block = Ok parent ->
  prefixlen parent < target <= 32 ->
  cidr_slicing ip_block target = Ok network_list ->
  nth_error network_list i = Some k ->
  exists n,
    IPv4Network_of_string k = Ok n /\
    prefixlen n
    = prefixlen parent + Z.min (Z.of_nat i + 1) (target - prefixlen parent).
Proof.
  intros Hparse Ht Hs Hk.
  pose proof (IPv4Network_of_string_valid _ _ Hparse) as Hv.
  rewrite (cidr_slicing_chain _ _ _ Hparse Ht) in Hs. injection Hs as <-.
  rewrite nth_error_map in Hk.
  destruct (nth_error (chain (Z.to_nat (target - prefixlen parent)) parent) i)
    as [n |] eqn:En; [| discriminate].
  injection Hk as <-. exists n. split.
  - apply IPv4Network_of_compressed.
    apply (chain_In_valid (Z.to_nat (target - prefixlen parent)) parent);
      [exact Hv | lia | apply (nth_error_In _ _ En)].
  - rewrite (chain_prefixes _ _ _ _ En). lia.
Qed.

Lemma cidr_slicing_prefixes_witness :
  exists n,
    IPv4Network_of_string "10.0.12.0/22" = Ok n /\
    prefixlen n
    = prefixlen (mkNet 167772160 20)
      + Z.min (Z.of_nat 2 + 1) (22 - prefixlen (mkNet 167772160 20)).
Proof.
  apply (cidr_slicing_prefixes "10.0.0.0/20" (mkNet 167772160 20) 22
           ["10.0.0.0/21"; "10.0.8.0/22"; "10.0.12.0/22"] 2 "10.0.12.0/22");
    [vm_compute; reflexivity | cbn [prefixlen]; lia | vm_compute; reflexivity
     | reflexivity].
Defined.

(** X3.  The split path touches the slices and the sliced block only: the
    sliced block is gone from the table afterwards, and every record under
    another key is as it was. *)
Theorem split_path_frame account_id base_region config_options ip_block
        parent netmask c :
  IPv4Network_of_string ip_block = Ok parent ->
  prefixlen parent < netmask <= 32 ->
  exists network_list,
    let run := slice_and_claim account_id base_region config_options
                               ip_block netmask c in
    cidr_slicing ip_block netmask = Ok network_list /\
    get_item ip_block (table (snd run)) = None /\
    forall k, ~ In k network_list -> k <> ip_block ->
              get_item k (table (snd run)) = get_item k (table c).
Proof.
  intros Hparse Ht.
  destruct (cidr_slicing_proper ip_block parent netmask Hparse Ht)
    as (pre & x & Hs & _ & _ & _ & _ & Hidx).
  cbn zeta in *.
  set (network_list := map compressed (pre ++ [first_half x; second_half x])) in *.
  exists network_list. cbn zeta.
  rewrite (slice_and_claim_run _ _ _ _ _ c _ _ Hs Hidx). cbn [snd].
  unfold after_slicing. cbn [table].
  split; [exact Hs |]. split; [apply get_delete_same |].
  intros k Hk Hne.
  rewrite get_delete_other by exact Hne.
  rewrite get_update_other
    by (intros ->; apply Hk; apply (index_m2_In _ _ Hidx)).
  apply get_replay_updates_other. exact Hk.
Qed.

Lemma split_path_frame_witness :
  exists network_list,
    let run := slice_and_claim "006828683766" "us-west-2" "prod-us-west-2"
                 "10.0.0.0/20" 22
                 (mkClient [("10.0.0.0/20", free_block "/20" "us-west-2");
                            ("10.1.0.0/24", free_block "/24" "us-west-2")] []) in
    cidr_slicing "10.0.0.0/20" 22 = Ok network_list /\
    get_item "10.0.0.0/20" (table (snd run)) = None /\
    forall k, ~ In k network_list -> k <> "10.0.0.0/20" ->
              get_item k (table (snd run))
              = get_item k [("10.0.0.0/20", free_block "/20" "us-west-2");
                            ("10.1.0.0/24", free_block "/24" "us-west-2")].
Proof.
  apply (split_path_frame "006828683766" "us-west-2" "prod-us-west-2"
           "10.0.0.0/20" (mkNet 167772160 20) 22
           (mkClient [("10.0.0.0/20", free_block "/20" "us-west-2");
                      ("10.1.0.0/24", free_block "/24" "us-west-2")] []));
    [vm_compute; reflexivity | cbn [prefixlen]; lia].
Defined.

(* ================================================================== *)
(** * The automatic path, branch by branch *)

Section Branches.

Lemma config_map_error account_type e :
  config_map account_type = Raise e -> e = KeyError.
Proof.
  unfold config_map.
  repeat (destruct (String.eqb account_type _); [discriminate |]).
  intros [= <-]. reflexivity.
Qed.

Lemma index_m2_error {A} (l : list A) e : index_m2 l = Raise e -> e = IndexError.
Proof.
  unfold index_m2.
  destruct (nth_error l (List.length l - 2)); [| intros [= <-]; reflexivity].
  destruct (Nat.leb 2 (List.length l)); [discriminate | intros [= <-]; reflexivity].
Qed.

Lemma cidr_slicing_error ip_block target e :
  cidr_slicing ip_block target = Raise e -> e = ValueError.
Proof.
  destruct (IPv4Network_of_string ip_block) as [parent | e0] eqn:Hparse.
  - destruct (cidr_slicing_length ip_block parent target Hparse) as (l & -> & _).
    discriminate.
  - unfold cidr_slicing. rewrite Hparse. cbn [rbind].
    intros [= <-]. apply (IPv4Network_of_string_error _ _ Hparse).
Qed.

Lemma slice_and_claim_failure account_id base_region config_options ip_block
      netmask c e c' :
  slice_and_claim account_id base_region config_options ip_block netmask c
  = (Raise e, c') ->
  c' = c /\ (e = ValueError \/ e = IndexError).
Proof.
  destruct (cidr_slicing ip_block netmask) as [network_list | e0] eqn:Hs.
  - destruct (index_m2 network_list) as [claimed | e1] eqn:Hc.
    + rewrite (slice_and_claim_run _ _ _ _ _ _ _ _ Hs Hc). discriminate.
    + unfold slice_and_claim, bind, lift. rewrite Hs, Hc.
      intros [= <- <-]. split; [reflexivity |].
      right. apply (index_m2_error _ _ Hc).
  - unfold slice_and_claim, bind, lift. rewrite Hs.
    intros [= <- <-]. split; [reflexivity |].
    left. apply (cidr_slicing_error _ _ _ Hs).
Qed.

(** How the automatic path can fail, and that it has not written then. *)
Lemma automatic_failure account_id account_type base_region ip_allocation c e c' :
  automatic account_id account_type base_region ip_allocation c = (Raise e, c') ->
  table c' = table c /\
  (e = pool_exhausted \/ e = ValueError \/ e = IndexError \/
   e = KeyError /\ config_map account_type = Raise KeyError).
Proof.
  intros Hrun. unfold automatic, bind in Hrun.
  unfold client_scan in Hrun at 1. unfold lift in Hrun at 1.
  destruct (int (strip is_slash ip_allocation)) as [netmask | e0] eqn:Hint.
  2:{ injection Hrun as <- <-. split; [reflexivity |].
      right. left. apply (int_error _ _ Hint). }
  destruct (widen _ _ _ _ _) as [res c1] eqn:Hw in Hrun.
  apply widen_spec in Hw; [| lia | cbn [table]; intros kv Hin; eexists; exact Hin].
  cbn [table] in Hw. destruct Hw as (Ht & _ & Hres).
  destruct Hres as [-> | (response & -> & Hne & _)].
  { injection Hrun as <- <-. split; [exact Ht | left; reflexivity]. }
  unfold lift in Hrun at 1.
  destruct (config_map account_type) as [env | e1] eqn:Hcfg.
  2:{ injection Hrun as <- <-. split; [exact Ht |].
      pose proof (config_map_error _ _ Hcfg) as ->. auto. }
  unfold lift in Hrun at 1.
  destruct response as [| [ip_block it] response]; [congruence |].
  cbn [index_0 fst] in Hrun. unfold lift in Hrun at 1.
  destruct (str_in ip_allocation ip_block).
  - unfold claim_found, bind, client_update_item, do_call, ret in Hrun.
    discriminate Hrun.
  - apply slice_and_claim_failure in Hrun. destruct Hrun as [-> He].
    split; [exact Ht | tauto].
Qed.

Lemma allocate_failure account_id account_type base_region ip_allocation
      manual_cidr c e c' :
  allocate account_id account_type base_region ip_allocation manual_cidr c
  = (Raise e, c') ->
  table c' = table c /\
  (e = invalid_request \/ e = pool_exhausted \/ e = ValueError \/
   e = IndexError \/
   e = KeyError /\ config_map account_type = Raise KeyError).
Proof.
  unfold allocate.
  destruct (ip_re_match ip_allocation); cbn [negb].
  - destruct (String.eqb manual_cidr "no").
    + intros Hrun. apply automatic_failure in Hrun. tauto.
    + unfold manual, bind, lift.
      destruct (config_map account_type) as [env | e1] eqn:Hcfg.
      * unfold client_update_item, do_call, ret. discriminate.
      * intros [= <- <-]. split; [reflexivity |].
        pose proof (config_map_error _ _ Hcfg) as ->. tauto.
  - unfold raise. intros [= <- <-]. split; [reflexivity | left; reflexivity].
Qed.

Lemma prefix_head_ne a b r t : a <> b -> prefix (String a r) (String b t) = false.
Proof. intros H. cbn [prefix]. destruct (ascii_dec a b); [contradiction | reflexivity]. Qed.

Lemma prefix_head_eq a r t : prefix (String a r) (String a t) = prefix r t.
Proof. cbn [prefix]. destruct (ascii_dec a a); [reflexivity | contradiction]. Qed.

Lemma str_in_no_char c r hay :
  has_char c hay = false -> str_in (String c r) hay = false.
Proof.
  induction hay as [| a t IH]; cbn [has_char str_in]; [reflexivity |].
  intros H. apply orb_false_iff in H. destruct H as [Ha Ht].
  apply Ascii.eqb_neq in Ha.
  rewrite prefix_head_ne by congruence. rewrite (IH Ht). reflexivity.
Qed.

Lemma str_in_skip c r a t :
  has_char c a = false -> str_in (String c r) (a ++ t) = str_in (String c r) t.
Proof.
  induction a as [| x a IH]; cbn [has_char append]; [reflexivity |].
  intros H. apply orb_false_iff in H. destruct H as [Hx Ha].
  apply Ascii.eqb_neq in Hx.
  change (str_in (String c r) (String x (a ++ t)))
    with (prefix (String c r) (String x (a ++ t))
          || str_in (String c r) (a ++ t))%bool.
  rewrite prefix_head_ne by congruence. rewrite (IH Ha). reflexivity.
Qed.

End Branches.



(** X6.  The loops of the allocator end on every input: the widening loop
    and the loop of [cidr_slicing] never need more iterations than the
    model gives them. *)
Theorem allocate_loops_end account_id account_type base_region ip_allocation
        manual_cidr c :
  is_out_of_fuel
    (fst (allocate account_id account_type base_region ip_allocation
                   manual_cidr c)) = false.
Proof.
  destruct (allocate account_id account_type base_region ip_allocation
                     manual_cidr c) as [res c'] eqn:Hrun.
  cbn [fst]. destruct res as [cidr | e]; [reflexivity |].
  destruct (allocate_failure _ _ _ _ _ _ _ _ Hrun) as [_ He].
  destruct He as [-> | [-> | [-> | [-> | [-> _]]]]]; reflexivity.
Qed.

(** X7.  Which branch a found block takes.  For a size [/m] that the check
    accepts and a block in its printed form, the size is found in the key
    exactly when the block has prefix length [m]: then, and only then, the
    block is claimed without slicing. *)
Theorem exact_branch_iff_same_prefix n m :
  valid n -> 10 <= m <= 29 ->
  str_in ("/" ++ str m) (compressed n) = (prefixlen n =? m).
Proof.
  intros (Hp & Ha & _) Hm.
  destruct (string_from_ip_int_spec (network_address n) Ha) as [Hs _].
  destruct (prefix_facts (prefixlen n) Hp) as (Hps & _ & _ & _).
  unfold compressed.
  change ("/" ++ str m) with (String "/" (str m)).
  change ("/" ++ str (prefixlen n)) with (String "/" (str (prefixlen n))).
  rewrite (str_in_skip _ _ _ _ Hs).
  change (str_in (String "/" (str m)) (String "/" (str (prefixlen n))))
    with (prefix (String "/" (str m)) (String "/" (str (prefixlen n)))
          || str_in (String "/" (str m)) (str (prefixlen n)))%bool.
  rewrite prefix_head_eq, (str_in_no_char _ _ _ Hps), orb_false_r.
  assert (Hc : size_in_prefix_check m = true).
  { apply (forall_below size_in_prefix_check 30); [vm_compute; reflexivity | lia]. }
  unfold size_in_prefix_check in Hc.
  replace (m <? 10) with false in Hc by (symmetry; apply Z.ltb_ge; lia).
  cbn [orb] in Hc. rewrite forallb_forall in Hc.
  apply eqb_prop. apply Hc.
  replace (prefixlen n) with (Z.of_nat (Z.to_nat (prefixlen n))) by lia.
  apply in_map, in_seq. lia.
Qed.

Lemma exact_branch_iff_same_prefix_witness :
  str_in ("/" ++ str 22) (compressed (mkNet 167772160 20))
  = (prefixlen (mkNet 167772160 20) =? 22).
Proof.
  apply (exact_branch_iff_same_prefix (mkNet 167772160 20) 22); [| lia].
  unfold valid. cbn [prefixlen network_address].
  split; [lia |]. split; [lia | vm_compute; reflexivity].
Defined.



(** X10.  The widening loop stops at the first size that has a block: when
    the scans for the prefix lengths between [k] and the requested one find
    nothing and the scan for [/k] finds something, with [k] at least 16,
    the loop ends with the answer of that scan, after one scan per prefix
    length from the requested one minus one down to [k]. *)
Theorem widening_finds_closest base_region fuel : forall netmask k c,
  16 <= k < netmask -> (Z.to_nat netmask < fuel)%nat ->
  (forall j, k < j < netmask ->
             scan ("/" ++ str j) base_region (table c) = []) ->
  scan ("/" ++ str k) base_region (table c) <> [] ->
  widen fuel base_region netmask [] c
  = (Ok (scan ("/" ++ str k) base_region (table c)),
     mkClient (table c)
              (calls c ++ scans base_region (countdown (netmask - 1) k))).
Proof.
  induction fuel as [| fuel IH]; intros netmask k c Hk Hfuel Hnone Hsome; [lia |].
  cbn [widen List.length Nat.eqb].
  replace (netmask - 1 <? 16) with false by (symmetry; apply Z.ltb_ge; lia).
  unfold bind, client_scan.
  rewrite (countdown_step (netmask - 1) k) by lia.
  destruct (Z.eq_dec (netmask - 1) k) as [E | E].
  - rewrite E. rewrite countdown_nil by lia.
    destruct (scan ("/" ++ str k) base_region (table c)) as [| kv rest] eqn:Es;
      [contradiction |].
    destruct fuel; cbn [widen List.length Nat.eqb]; unfold ret, scans;
      cbn [table calls map]; reflexivity.
  - rewrite Hnone by lia.
    rewrite (IH (netmask - 1) k); cbn [table calls]; try lia; try assumption.
    + unfold scans. cbn [map]. rewrite <- app_assoc. reflexivity.
    + intros j Hj. apply Hnone. lia.
Qed.

Lemma widening_finds_closest_witness :
  widen 23 "us-west-2" 22 []
        (mkClient [("10.0.0.0/20", free_block "/20" "us-west-2")] [])
  = (Ok (scan ("/" ++ str 20) "us-west-2"
              (table (mkClient [("10.0.0.0/20", free_block "/20" "us-west-2")]
                               []))),
     mkClient (table (mkClient [("10.0.0.0/20", free_block "/20" "us-west-2")]
                               []))
              (calls (mkClient [("10.0.0.0/20", free_block "/20" "us-west-2")] [])
               ++ scans "us-west-2" (countdown (22 - 1) 20))).
Proof.
  apply (widening_finds_closest "us-west-2" 23 22 20
           (mkClient [("10.0.0.0/20", free_block "/20" "us-west-2")] [])).
  - lia.
  - lia.
  - intros j Hj. assert (j = 21) as -> by lia. vm_compute. reflexivity.
  - vm_compute. discriminate.
Defined.

(* ================================================================== *)
(** * What the patterns accept *)

Section Patterns.

Lemma append_assoc (a b c : string) : (a ++ b) ++ c = a ++ (b ++ c).
Proof.
  induction a as [| x a IH]; cbn [append]; [reflexivity | rewrite IH; reflexivity].
Qed.

Lemma append_nil_r (a : string) : a ++ "" = a.
Proof.
  induction a as [| x a IH]; cbn [append]; [reflexivity | rewrite IH; reflexivity].
Qed.

(** The matcher finds a match exactly when some word of the pattern starts
    the string and the continuation accepts the rest. *)
Lemma matches_spec r : forall s k,
  matches r s k = true <->
  exists w rest, s = w ++ rest /\ lang r w /\ k rest = true.
Proof.
  induction r as [| c | cs | r1 IH1 r2 IH2 | r1 IH1 r2 IH2]; intros s k;
    cbn [matches lang].
  - split.
    + intros H. exists "", s. auto.
    + intros (w & rest & -> & -> & H). exact H.
  - destruct s as [| a t].
    + split; [discriminate |].
      intros (w & rest & E & -> & _). discriminate E.
    + rewrite andb_true_iff, Ascii.eqb_eq. split.
      * intros [-> H]. exists (String c ""), t. auto.
      * intros (w & rest & E & -> & H). injection E as -> ->. auto.
  - destruct s as [| a t].
    + split; [discriminate |].
      intros (w & rest & E & (c & _ & ->) & _). discriminate E.
    + rewrite andb_true_iff, existsb_exists. split.
      * intros [(c & Hin & Hc) H]. apply Ascii.eqb_eq in Hc. subst c.
        exists (String a ""), t. split; [reflexivity |]. split; [| exact H].
        exists a. auto.
      * intros (w & rest & E & (c & Hin & ->) & H). injection E as -> ->.
        split; [| exact H]. exists c. split; [exact Hin | apply Ascii.eqb_refl].
  - rewrite IH1. split.
    + intros (u & rest & -> & Hu & H). apply IH2 in H.
      destruct H as (v & rest' & -> & Hv & H).
      exists (u ++ v), rest'. rewrite append_assoc.
      split; [reflexivity |]. split; [| exact H]. exists u, v. auto.
    + intros (w & rest & -> & (u & v & -> & Hu & Hv) & H).
      exists u, (v ++ rest). rewrite append_assoc.
      split; [reflexivity |]. split; [exact Hu |].
      apply IH2. exists v, rest. auto.
  - rewrite orb_true_iff, IH1, IH2. split.
    + intros [(w & rest & E & Hw & H) | (w & rest & E & Hw & H)];
        exists w, rest; auto.
    + intros (w & rest & E & [Hw | Hw] & H); [left | right];
        exists w, rest; auto.
Qed.

Lemma at_end_spec s : at_end s = true <-> s = "" \/ s = newline.
Proof.
  unfold at_end. rewrite orb_true_iff, !String.eqb_eq. reflexivity.
Qed.

(** A match of [^r$]: a word of [r], possibly followed by a newline. *)
Lemma re_match_spec r s :
  re_match r s = true <-> exists w, lang r w /\ (s = w \/ s = w ++ newline).
Proof.
  unfold re_match. rewrite matches_spec. split.
  - intros (w & rest & -> & Hw & H). apply at_end_spec in H.
    exists w. split; [exact Hw |].
    destruct H as [-> | ->]; [left; apply append_nil_r | right; reflexivity].
  - intros (w & Hw & [-> | ->]).
    + exists w, "". rewrite append_nil_r. auto.
    + exists w, newline. auto.
Qed.

Lemma lang_lit s w : lang (lit s) w <-> w = s.
Proof.
  revert w. induction s as [| c s IH]; intros w; cbn [lit lang];
    [reflexivity |].
  split.
  - intros (u & v & -> & -> & Hv). apply IH in Hv. subst v. reflexivity.
  - intros ->. exists (String c ""), s. split; [reflexivity |].
    split; [reflexivity | apply IH; reflexivity].
Qed.

Lemma lang_words w0 ws w : lang (words w0 ws) w <-> In w (w0 :: ws).
Proof.
  revert w0. induction ws as [| w1 ws IH]; intros w0; cbn [words lang].
  - rewrite lang_lit. cbn [In]. intuition.
  - rewrite lang_lit, IH. cbn [In]. intuition.
Qed.

Lemma lang_digit w :
  lang digit w <-> String.length w = 1%nat /\ all_digits w = true.
Proof.
  unfold digit. cbn [lang]. split.
  - intros (c & Hin & ->). cbn [In] in Hin.
    repeat (destruct Hin as [<- | Hin]; [split; reflexivity |]).
    destruct Hin.
  - intros [Hl Hd]. destruct w as [| c [| ? ?]]; try discriminate.
    cbn [all_digits] in Hd. rewrite andb_true_r in Hd.
    exists c. split; [| reflexivity].
    apply isdigit_char_inv in Hd. exact Hd.
Qed.

Lemma lang_times_digit n : forall w,
  lang (times n digit) w <-> String.length w = n /\ all_digits w = true.
Proof.
  induction n as [| n IH]; intros w.
  - cbn [times lang]. split.
    + intros ->. split; reflexivity.
    + intros [Hl _]. destruct w; [reflexivity | discriminate].
  - change (times (S n) digit) with (Seq digit (times n digit)).
    change (lang (Seq digit (times n digit)) w)
      with (exists u v, w = u ++ v /\ lang digit u /\ lang (times n digit) v).
    split.
    + intros (u & v & -> & Hu & Hv). apply lang_digit in Hu. apply IH in Hv.
      destruct Hu as [Hlu Hdu], Hv as [Hlv Hdv].
      destruct u as [| c [| ? ?]]; try discriminate.
      cbn [append String.length all_digits] in *.
      rewrite andb_true_r in Hdu. rewrite Hdu, Hdv, Hlv. auto.
    + intros [Hl Hd]. destruct w as [| c t]; [discriminate |].
      cbn [String.length all_digits] in Hl, Hd.
      apply andb_true_iff in Hd. destruct Hd as [Hc Ht].
      exists (String c ""), t. split; [reflexivity |]. split.
      * apply lang_digit. cbn [String.length all_digits].
        rewrite Hc. auto.
      * apply IH. split; [lia | exact Ht].
Qed.

End Patterns.

(** X12.  On an ASCII string, the account id check of line 38 lets through
    exactly the strings of twelve digits, with or without a newline after
    them. *)
Theorem account_id_re_accepts s :
  isascii s = true ->
  (re_match account_id_re s = true <->
   exists d, String.length d = 12%nat /\ all_digits d = true /\
             (s = d \/ s = d ++ newline)).
Proof.
  intros _. rewrite re_match_spec. unfold account_id_re. split.
  - intros (w & Hw & Hs). apply lang_times_digit in Hw.
    exists w. tauto.
  - intros (d & Hl & Hd & Hs). exists d. split; [| exact Hs].
    apply lang_times_digit. auto.
Qed.

Lemma account_id_re_accepts_witness :
  re_match account_id_re "006828683766" = true <->
  exists d, String.length d = 12%nat /\ all_digits d = true /\
            ("006828683766" = d \/ "006828683766" = d ++ newline).
Proof.
  apply (account_id_re_accepts "006828683766"). vm_compute. reflexivity.
Defined.

(** X13.  The region check of line 62 lets through exactly the names made
    of one of five areas, one of six directions and a number from 1 to 3,
    joined by hyphens, with or without a newline after them. *)
Theorem region_re_accepts s :
  re_match region_re s = true <->
  exists area direction number,
    In area region_areas /\ In direction region_directions /\
    In number ["1"; "2"; "3"] /\
    (s = area ++ "-" ++ direction ++ "-" ++ number \/
     s = (area ++ "-" ++ direction ++ "-" ++ number) ++ newline).
Proof.
  rewrite re_match_spec. unfold region_re. split.
  - intros (w & Hw & Hs). cbn [lang] in Hw.
    destruct Hw as (a & v1 & -> & Ha & h1 & v2 & -> & -> & d & v3 & -> & Hd
                    & h2 & n & -> & -> & c & Hc & ->).
    apply lang_words in Ha. apply lang_words in Hd.
    exists a, d, (String c ""). split; [exact Ha |]. split; [exact Hd |].
    split.
    + cbn [In] in Hc |- *.
      destruct Hc as [<- | [<- | [<- | []]]]; auto.
    + exact Hs.
  - intros (a & d & n & Ha & Hd & Hn & Hs).
    exists (a ++ "-" ++ d ++ "-" ++ n). split; [| exact Hs].
    cbn [lang]. exists a, ("-" ++ d ++ "-" ++ n). split; [reflexivity |].
    split; [apply lang_words; exact Ha |].
    exists "-", (d ++ "-" ++ n). split; [reflexivity |].
    split; [reflexivity |].
    exists d, ("-" ++ n). split; [reflexivity |].
    split; [apply lang_words; exact Hd |].
    exists "-", n. split; [reflexivity |]. split; [reflexivity |].
    cbn [In] in Hn. destruct Hn as [<- | [<- | [<- | []]]];
      eexists; (split; [| reflexivity]); cbn [In]; auto.
Qed.

(* ================================================================== *)
(** * The checks, and the allocation after them *)

Section AfterChecks.


Lemma lower_char_not_space c :
  Ascii.eqb (lower_char (if Ascii.eqb c " " then "_"%char else c)) " " = false.
Proof. destruct c as [[] [] [] [] [] [] [] []]; reflexivity. Qed.

Lemma lower_char_not_upper c :
  let n := nat_of_ascii (lower_char c) in
  (Nat.leb 65 n && Nat.leb n 90)%bool = false.
Proof. destruct c as [[] [] [] [] [] [] [] []]; reflexivity. Qed.

Lemma lower_char_case c :
  lower_char (if Ascii.eqb (lower_char c) " " then "_"%char else lower_char c)
  = lower_char (if Ascii.eqb c " " then "_"%char else c).
Proof. destruct c as [[] [] [] [] [] [] [] []]; reflexivity. Qed.

End AfterChecks.



(** X15.  After the checks, with peering or transit asked for, the account
    type is one that [config_map] has and the mapping table has the item of
    the environment and region; the allocation that follows cannot end with
    [KeyError]. *)
Theorem checked_run_has_config metadata_region account_mapping vpc_mapping
        account_id base_region ip_allocation transit peering
        account_name account_type manual_cidr c :
  checks metadata_region account_mapping vpc_mapping account_id base_region
         ip_allocation transit peering = Ok (account_name, account_type) ->
  peering = "yes" \/ transit = "yes" ->
  exists env,
    config_map account_type = Ok env /\
    lookup (env ++ "-" ++ base_region) vpc_mapping = Some tt /\
    fst (allocate account_id account_type base_region ip_allocation
                  manual_cidr c) <> Raise KeyError.
Proof.
  unfold checks. intros Hchecks Hask.
  destruct (negb (String.eqb metadata_region "us-west-2") &&
            negb (String.eqb metadata_region "eu-west-1"))%bool;
    [discriminate |].
  destruct (negb (re_match account_id_re account_id)); [discriminate |].
  destruct (lookup account_id account_mapping) as [[name type] |];
    [| discriminate].
  destruct (String.eqb type "sandbox"); [discriminate |].
  destruct (negb (re_match region_re base_region)); [discriminate |].
  destruct (check_vpc_mapping vpc_mapping type base_region transit peering)
    as [[] |] eqn:Hmap; cbn [rbind] in Hchecks; [| discriminate].
  assert (type = account_type) as ->.
  { destruct (negb (ip_re_match ip_allocation)); [discriminate |].
    destruct (negb (String.eqb transit "yes") && negb (String.eqb transit "no"))%bool;
      [discriminate |].
    destruct (negb (String.eqb peering "yes") && negb (String.eqb peering "no"))%bool;
      [discriminate |].
    congruence. }
  unfold check_vpc_mapping in Hmap.
  replace (String.eqb peering "yes" || String.eqb transit "yes")%bool
    with true in Hmap.
  2:{ symmetry. apply orb_true_iff.
      destruct Hask as [-> | ->]; [left | right]; reflexivity. }
  destruct (config_map account_type) as [env |] eqn:Hcfg; cbn [rbind] in Hmap;
    [| discriminate].
  destruct (lookup (env ++ "-" ++ base_region) vpc_mapping) as [[] |] eqn:Hl;
    [| discriminate].
  exists env. split; [reflexivity |]. split; [exact Hl |].
  destruct (allocate account_id account_type base_region ip_allocation
                     manual_cidr c) as [res c'] eqn:Hrun.
  cbn [fst]. intros ->.
  apply allocate_failure in Hrun.
  destruct Hrun as [_ [H | [H | [H | [H | [_ H]]]]]]; try discriminate H.
  rewrite Hcfg in H. discriminate H.
Qed.

Lemma checked_run_has_config_witness :
  exists env,
    config_map "production" = Ok env /\
    lookup (env ++ "-" ++ "eu-west-1") [("prod-eu-west-1", tt)] = Some tt /\
    fst (allocate "006828683766" "production" "eu-west-1" "/24" "no"
                  (mkClient [] [])) <> Raise KeyError.
Proof.
  apply (checked_run_has_config "us-west-2"
           [("006828683766", ("payments", "production"))]
           [("prod-eu-west-1", tt)]
           "006828683766" "eu-west-1" "/24" "yes" "no" "payments").
  - vm_compute. reflexivity.
  - right. reflexivity.
Defined.

(** X16.  Without peering and transit the account type is not looked up by
    the checks: an account whose type [config_map] does not have passes
    them when everything else is in order, and the manual path that follows
    ends with [KeyError] and writes nothing. *)
Theorem unknown_account_type_passes metadata_region account_mapping vpc_mapping
        account_id base_region ip_allocation account_name account_type
        manual_cidr c :
  metadata_region = "us-west-2" \/ metadata_region = "eu-west-1" ->
  re_match account_id_re account_id = true ->
  lookup account_id account_mapping = Some (account_name, account_type) ->
  account_type <> "sandbox" ->
  config_map account_type = Raise KeyError ->
  re_match region_re base_region = true ->
  ip_re_match ip_allocation = true ->
  manual_cidr <> "no" ->
  checks metadata_region account_mapping vpc_mapping account_id base_region
         ip_allocation "no" "no" = Ok (account_name, account_type) /\
  allocate account_id account_type base_region ip_allocation manual_cidr c
  = (Raise KeyError, c).
Proof.
  intros Hplace Hid Hacc Hsb Hcfg Hrg Hip Hno. split.
  - unfold checks.
    replace (negb (String.eqb metadata_region "us-west-2") &&
             negb (String.eqb metadata_region "eu-west-1"))%bool with false
      by (destruct Hplace as [-> | ->]; reflexivity).
    rewrite Hid, Hacc. cbn [negb].
    replace (String.eqb account_type "sandbox") with false
      by (symmetry; apply String.eqb_neq; exact Hsb).
    rewrite Hrg. cbn [negb]. unfold check_vpc_mapping.
    cbn [String.eqb Ascii.eqb Bool.eqb orb rbind]. rewrite Hip. reflexivity.
  - unfold allocate. rewrite Hip. cbn [negb].
    replace (String.eqb manual_cidr "no") with false
      by (symmetry; apply String.eqb_neq; exact Hno).
    unfold manual, bind, lift. rewrite Hcfg. reflexivity.
Qed.

Lemma unknown_account_type_passes_witness :
  checks "eu-west-1" [("006828683766", ("payments", "nonproduction"))] []
         "006828683766" "eu-west-1" "/24" "no" "no"
  = Ok ("payments", "nonproduction") /\
  allocate "006828683766" "nonproduction" "eu-west-1" "/24" "10.1.0.0/24"
           (mkClient [] [])
  = (Raise KeyError, mkClient [] []).
Proof.
  apply (unknown_account_type_passes "eu-west-1"
           [("006828683766", ("payments", "nonproduction"))] []
           "006828683766" "eu-west-1" "/24" "payments" "nonproduction"
           "10.1.0.0/24" (mkClient [] []));
    try (vm_compute; reflexivity).
  - right. reflexivity.
  - discriminate.
  - discriminate.
Defined.

(** X17.  The name of the file of the VPC, for a VPC name in ASCII.  The
    part of it that comes from the name (the name in lower case, every
    space replaced by an underscore) has the length of the name, no space
    and no capital letter; and the file does not depend on the case of
    the letters of the name: two names that differ in case only share
    their file. *)
Theorem vpc_file_name account_dir base_region vpc_name :
  isascii vpc_name = true ->
  String.length (lower (normal_name vpc_name)) = String.length vpc_name /\
  has_char " " (lower (normal_name vpc_name)) = false /\
  lower (lower (normal_name vpc_name)) = lower (normal_name vpc_name) /\
  vf account_dir base_region (normal_name (lower vpc_name))
  = vf account_dir base_region (normal_name vpc_name).
Proof.
  intros _. split; [| split; [| split]].
  - unfold normal_name. induction vpc_name as [| c t IH];
      cbn [replace lower String.length]; [reflexivity | rewrite IH; reflexivity].
  - unfold normal_name. induction vpc_name as [| c t IH];
      cbn [replace lower has_char]; [reflexivity |].
    rewrite lower_char_not_space, IH. reflexivity.
  - unfold normal_name. induction vpc_name as [| c t IH];
      cbn [replace lower]; [reflexivity |].
    rewrite IH. f_equal.
    pose proof (lower_char_not_upper (if Ascii.eqb c " " then "_"%char else c)) as H.
    cbn zeta in H. unfold lower_char at 1. rewrite H. reflexivity.
  - assert (E : lower (normal_name (lower vpc_name))
               = lower (normal_name vpc_name)).
    { unfold normal_name.
      induction vpc_name as [| c t IH]; cbn [replace lower]; [reflexivity |].
      rewrite IH, lower_char_case. reflexivity. }
    unfold vf. rewrite E. reflexivity.
Qed.

Lemma vpc_file_name_witness :
  String.length (lower (normal_name "Payments Core"))
  = String.length "Payments Core" /\
  has_char " " (lower (normal_name "Payments Core")) = false /\
  lower (lower (normal_name "Payments Core"))
  = lower (normal_name "Payments Core") /\
  vf "/opt/terraform/accounts/prod/006828683766" "eu-west-1"
     (normal_name (lower "Payments Core"))
  = vf "/opt/terraform/accounts/prod/006828683766" "eu-west-1"
       (normal_name "Payments Core").
Proof.
  apply (vpc_file_name "/opt/terraform/accounts/prod/006828683766" "eu-west-1"
           "Payments Core").
  vm_compute. reflexivity.
Defined.

(* ================================================================== *)
(** * Runs that a refused call ends *)

Section Refusals.

Variable answers : list call -> call -> bool.

Lemma traced_ret {A} (a : A) : traced (ret a).
Proof.
  intros c. exists []. unfold ret. cbn [snd replay fold_left].
  rewrite app_nil_r, client_eta. reflexivity.
Qed.

Lemma traced_raise {A} (e : exn) : traced (@raise A e).
Proof.
  intros c. exists []. unfold raise. cbn [snd replay fold_left].
  rewrite app_nil_r, client_eta. reflexivity.
Qed.

Lemma traced_lift {A} (r : result A) : traced (lift r).
Proof.
  intros c. exists []. unfold lift. cbn [snd replay fold_left].
  rewrite app_nil_r, client_eta. reflexivity.
Qed.

Lemma traced_bind {A B} (m : M A) (k : A -> M B) :
  traced m -> (forall a, traced (k a)) -> traced (bind m k).
Proof.
  intros Hm Hk c. unfold bind.
  destruct (Hm c) as [made1 H1].
  destruct (m c) as [[a | e] c1]; cbn [snd] in H1.
  - destruct (Hk a c1) as [made2 H2]. exists (made1 ++ made2)%list.
    rewrite H2, H1. cbn [table calls]. rewrite replay_app, app_assoc.
    reflexivity.
  - exists made1. exact H1.
Qed.

Lemma traced_scan sz rg : traced (Dynamo.client_scan sz rg).
Proof. intros c. exists [Scan sz rg]. reflexivity. Qed.

Lemma traced_do_call cl : traced (do_call cl).
Proof. intros c. exists [cl]. reflexivity. Qed.

Lemma traced_for_each {A} (l : list A) (body : A -> M unit) :
  (forall a, traced (body a)) -> traced (for_each l body).
Proof.
  intros Hb. induction l as [| a l IH]; cbn [for_each].
  - apply traced_ret.
  - apply traced_bind; [apply Hb | intros _; exact IH].
Qed.

Lemma traced_widen base_region fuel : forall netmask response,
  traced (VpcSetup.widen fuel base_region netmask response).
Proof.
  induction fuel as [| fuel IH]; intros netmask response; cbn [VpcSetup.widen];
    destruct (Nat.eqb (List.length response) 0);
    try apply traced_ret; try apply traced_raise.
  destruct (netmask - 1 <? 16); [apply traced_raise |].
  apply traced_bind; [apply traced_scan | intros r; apply IH].
Qed.

Lemma traced_slice_and_claim account_id base_region config_options ip_block
      netmask :
  traced (VpcSetup.slice_and_claim account_id base_region config_options
            ip_block netmask).
Proof.
  unfold VpcSetup.slice_and_claim.
  repeat (apply traced_bind; [| intros ?]);
    try apply traced_lift; try apply traced_ret; try apply traced_do_call.
  apply traced_for_each. intros ?. apply traced_do_call.
Qed.

Lemma traced_automatic account_id account_type base_region ip_allocation :
  traced (VpcSetup.automatic account_id account_type base_region ip_allocation).
Proof.
  unfold VpcSetup.automatic.
  repeat (apply traced_bind; [| intros ?]);
    try apply traced_lift; try apply traced_scan; try apply traced_widen.
  destruct (str_in ip_allocation _).
  - unfold VpcSetup.claim_found.
    apply traced_bind; [apply traced_do_call | intros _; apply traced_ret].
  - apply traced_slice_and_claim.
Qed.

Lemma traced_allocate account_id account_type base_region ip_allocation
      manual_cidr :
  traced (VpcSetup.allocate account_id account_type base_region ip_allocation
            manual_cidr).
Proof.
  unfold VpcSetup.allocate.
  destruct (negb (ip_re_match ip_allocation)); [apply traced_raise |].
  destruct (String.eqb manual_cidr "no"); [apply traced_automatic |].
  unfold VpcSetup.manual.
  repeat (apply traced_bind; [| intros ?]);
    try apply traced_lift; try apply traced_ret; apply traced_do_call.
Qed.

Lemma interrupts_same {A} (m : M A) : interrupts answers m m.
Proof. intros c. left. reflexivity. Qed.

(** A call that is tried: answered, or refused at once. *)
Lemma interrupts_attempt {A} (cl : call) (m : M A) :
  (forall c, calls (snd (m c)) = (calls c ++ [cl])%list) ->
  interrupts answers (Unreliable.attempt answers cl m) m.
Proof.
  intros Hm c. unfold Unreliable.attempt.
  destruct (answers (calls c) cl) eqn:E; [left; reflexivity |].
  right. exists [], cl, []. cbn [replay fold_left app].
  rewrite app_nil_r, client_eta.
  split; [reflexivity |]. split; [apply Hm | exact E].
Qed.

Lemma interrupts_bind {A B} (mf m : M A) (kf k : A -> M B) :
  traced m -> (forall a, traced (k a)) ->
  interrupts answers mf m -> (forall a, interrupts answers (kf a) (k a)) ->
  interrupts answers (bind mf kf) (bind m k).
Proof.
  intros Tm Tk Hm Hk c. unfold bind.
  destruct (Hm c) as [E | (made & cl & rest & E & Hlog & Hno)].
  - rewrite E. destruct (Tm c) as [made1 H1].
    destruct (m c) as [[a | e] c1]; cbn [snd] in H1; [| left; reflexivity].
    destruct (Hk a c1) as [E2 | (made & cl & rest & E2 & Hlog & Hno)];
      [left; exact E2 |].
    right. exists (made1 ++ made)%list, cl, rest.
    rewrite E2, Hlog, H1. cbn [table calls].
    rewrite replay_app, !app_assoc.
    split; [reflexivity |]. split; [reflexivity |].
    rewrite H1 in Hno. cbn [calls] in Hno. rewrite <- app_assoc in Hno.
    rewrite <- app_assoc. exact Hno.
  - right. rewrite E. exists made, cl.
    destruct (m c) as [[a | e] c1]; cbn [snd] in Hlog.
    + destruct (Tk a c1) as [made2 H2]. exists (rest ++ made2)%list.
      split; [reflexivity |]. split; [| exact Hno].
      rewrite H2. cbn [calls]. rewrite Hlog, <- !app_assoc. reflexivity.
    + exists rest. auto.
Qed.

Lemma interrupts_scan sz rg :
  interrupts answers (Unreliable.client_scan answers sz rg)
             (Dynamo.client_scan sz rg).
Proof. apply interrupts_attempt. reflexivity. Qed.

Lemma interrupts_update key sets :
  interrupts answers (Unreliable.client_update_item answers key sets)
             (Dynamo.client_update_item key sets).
Proof. apply interrupts_attempt. reflexivity. Qed.

Lemma interrupts_delete key :
  interrupts answers (Unreliable.client_delete_item answers key)
             (Dynamo.client_delete_item key).
Proof. apply interrupts_attempt. reflexivity. Qed.

Lemma interrupts_for_each {A} (l : list A) (bodyf body : A -> M unit) :
  (forall a, traced (body a)) ->
  (forall a, interrupts answers (bodyf a) (body a)) ->
  interrupts answers (for_each l bodyf) (for_each l body).
Proof.
  intros Tb Hb. induction l as [| a l IH]; cbn [for_each].
  - apply interrupts_same.
  - apply interrupts_bind; auto.
    intros _. apply traced_for_each. exact Tb.
Qed.

Lemma interrupts_widen base_region fuel : forall netmask response,
  interrupts answers (Unreliable.widen answers fuel base_region netmask response)
             (VpcSetup.widen fuel base_region netmask response).
Proof.
  induction fuel as [| fuel IH]; intros netmask response;
    cbn [VpcSetup.widen Unreliable.widen];
    destruct (Nat.eqb (List.length response) 0); try apply interrupts_same.
  destruct (netmask - 1 <? 16); [apply interrupts_same |].
  apply interrupts_bind.
  - apply traced_scan.
  - intros r. apply traced_widen.
  - apply interrupts_scan.
  - intros r. apply IH.
Qed.

Lemma interrupts_slice_and_claim account_id base_region config_options
      ip_block netmask :
  interrupts answers
    (Unreliable.slice_and_claim answers account_id base_region config_options
       ip_block netmask)
    (VpcSetup.slice_and_claim account_id base_region config_options ip_block
       netmask).
Proof.
  unfold Unreliable.slice_and_claim, VpcSetup.slice_and_claim.
  apply interrupts_bind;
    [apply traced_lift | | apply interrupts_same |]; intros network_list.
  { repeat (apply traced_bind; [| intros ?]);
      try apply traced_lift; try apply traced_ret; try apply traced_do_call.
    apply traced_for_each. intros ?. apply traced_do_call. }
  apply interrupts_bind;
    [apply traced_lift | | apply interrupts_same |]; intros _.
  { repeat (apply traced_bind; [| intros ?]);
      try apply traced_lift; try apply traced_ret; try apply traced_do_call.
    apply traced_for_each. intros ?. apply traced_do_call. }
  apply interrupts_bind.
  - apply traced_for_each. intros ?. apply traced_do_call.
  - intros _. repeat (apply traced_bind; [| intros ?]);
      try apply traced_lift; try apply traced_ret; apply traced_do_call.
  - apply interrupts_for_each; [intros a; apply traced_do_call |].
    intros a. apply interrupts_update.
  - intros _. apply interrupts_bind;
      [apply traced_lift | | apply interrupts_same |]; intros claimed.
    { repeat (apply traced_bind; [| intros ?]);
        try apply traced_ret; apply traced_do_call. }
    apply interrupts_bind.
    + apply traced_do_call.
    + intros _. apply traced_bind; [apply traced_do_call |].
      intros _. apply traced_ret.
    + apply interrupts_update.
    + intros _. apply interrupts_bind.
      * apply traced_do_call.
      * intros _. apply traced_ret.
      * apply interrupts_delete.
      * intros _. apply interrupts_same.
Qed.

Lemma traced_after_scan account_id account_type base_region ip_allocation
      (response : list (string * Item)) :
  traced
    (netmask <~ lift (int (strip is_slash ip_allocation)) ;;
     response <~ VpcSetup.widen (S (Z.to_nat netmask)) base_region netmask
                   response ;;
     env <~ lift (config_map account_type) ;;
     let config_options := env ++ "-" ++ base_region in
     CIDR <~ lift (index_0 response) ;;
     let ip_block := fst CIDR in
     netmask <~ lift (int (strip is_slash ip_allocation)) ;;
     if str_in ip_allocation ip_block
     then VpcSetup.claim_found account_id config_options ip_block
     else VpcSetup.slice_and_claim account_id base_region config_options
            ip_block netmask).
Proof.
  repeat (apply traced_bind; [| intros ?]);
    try apply traced_lift; try apply traced_widen.
  destruct (str_in ip_allocation _).
  - unfold VpcSetup.claim_found.
    apply traced_bind; [apply traced_do_call | intros _; apply traced_ret].
  - apply traced_slice_and_claim.
Qed.

Lemma interrupts_automatic account_id account_type base_region ip_allocation :
  interrupts answers
    (Unreliable.automatic answers account_id account_type base_region
       ip_allocation)
    (VpcSetup.automatic account_id account_type base_region ip_allocation).
Proof.
  unfold Unreliable.automatic, VpcSetup.automatic.
  apply interrupts_bind;
    [apply traced_scan | | apply interrupts_scan |]; intros response.
  { apply traced_after_scan. }
  apply interrupts_bind;
    [apply traced_lift | | apply interrupts_same |]; intros netmask.
  { repeat (apply traced_bind; [| intros ?]);
      try apply traced_lift; try apply traced_widen.
    destruct (str_in ip_allocation _).
    - unfold VpcSetup.claim_found.
      apply traced_bind; [apply traced_do_call | intros _; apply traced_ret].
    - apply traced_slice_and_claim. }
  apply interrupts_bind;
    [apply traced_widen | | apply interrupts_widen |]; intros response'.
  { repeat (apply traced_bind; [| intros ?]); try apply traced_lift.
    destruct (str_in ip_allocation _).
    - unfold VpcSetup.claim_found.
      apply traced_bind; [apply traced_do_call | intros _; apply traced_ret].
    - apply traced_slice_and_claim. }
  apply interrupts_bind;
    [apply traced_lift | | apply interrupts_same |]; intros env.
  { repeat (apply traced_bind; [| intros ?]); try apply traced_lift.
    destruct (str_in ip_allocation _).
    - unfold VpcSetup.claim_found.
      apply traced_bind; [apply traced_do_call | intros _; apply traced_ret].
    - apply traced_slice_and_claim. }
  cbn zeta.
  apply interrupts_bind;
    [apply traced_lift | | apply interrupts_same |]; intros CIDR.
  { repeat (apply traced_bind; [| intros ?]); try apply traced_lift.
    destruct (str_in ip_allocation _).
    - unfold VpcSetup.claim_found.
      apply traced_bind; [apply traced_do_call | intros _; apply traced_ret].
    - apply traced_slice_and_claim. }
  apply interrupts_bind;
    [apply traced_lift | | apply interrupts_same |]; intros netmask'.
  { destruct (str_in ip_allocation _).
    - unfold VpcSetup.claim_found.
      apply traced_bind; [apply traced_do_call | intros _; apply traced_ret].
    - apply traced_slice_and_claim. }
  destruct (str_in ip_allocation (fst CIDR)).
  - unfold Unreliable.claim_found, VpcSetup.claim_found.
    apply interrupts_bind.
    + apply traced_do_call.
    + intros _. apply traced_ret.
    + apply interrupts_update.
    + intros _. apply interrupts_same.
  - apply interrupts_slice_and_claim.
Qed.

(** The allocator on a client that may refuse calls goes as the allocator
    of [VpcSetup] goes, up to the first call refused. *)
Lemma interrupts_allocate account_id account_type base_region ip_allocation
      manual_cidr :
  interrupts answers
    (Unreliable.allocate answers account_id account_type base_region
       ip_allocation manual_cidr)
    (VpcSetup.allocate account_id account_type base_region ip_allocation
       manual_cidr).
Proof.
  unfold Unreliable.allocate, VpcSetup.allocate.
  destruct (negb (ip_re_match ip_allocation)); [apply interrupts_same |].
  destruct (String.eqb manual_cidr "no"); [apply interrupts_automatic |].
  unfold Unreliable.manual, VpcSetup.manual.
  apply interrupts_bind;
    [apply traced_lift | | apply interrupts_same |]; intros env.
  { apply traced_bind; [apply traced_do_call | intros _; apply traced_ret]. }
  cbn zeta. apply interrupts_bind.
  - apply traced_do_call.
  - intros _. apply traced_ret.
  - apply interrupts_update.
  - intros _. apply interrupts_same.
Qed.

End Refusals.

(** When every call is answered, the run is the run of [VpcSetup]. *)
Lemma answered_run answers account_id account_type base_region ip_allocation
      manual_cidr c :
  (forall log cl, answers log cl = true) ->
  Unreliable.allocate answers account_id account_type base_region
    ip_allocation manual_cidr c
  = allocate account_id account_type base_region ip_allocation manual_cidr c.
Proof.
  intros Hall.
  destruct (interrupts_allocate answers account_id account_type base_region
              ip_allocation manual_cidr c)
    as [E | (made & cl & rest & _ & _ & Hno)]; [exact E |].
  rewrite Hall in Hno. discriminate Hno.
Qed.

(** X5.  What a failed run leaves behind.  When the allocator ends with an
    exception on a client that may refuse calls, the calls answered so
    far are the first calls of the run in which every call is answered,
    and the table is what these calls made of it.  If the exception is not
    the one of a refused call, nothing was written and the run is that
    run in full.  If it is, the call refused is the next call of that run:
    what the earlier calls wrote stays in the table. *)
Theorem failed_run_keeps_answered_calls answers account_id account_type
        base_region ip_allocation manual_cidr c e c' :
  Unreliable.allocate answers account_id account_type base_region
    ip_allocation manual_cidr c = (Raise e, c') ->
  exists made rest,
    calls c' = (calls c ++ made)%list /\
    table c' = replay made (table c) /\
    calls (snd (allocate account_id account_type base_region ip_allocation
                         manual_cidr c))
    = (calls c ++ made ++ rest)%list /\
    (e <> ClientError -> table c' = table c /\ rest = []) /\
    (e = ClientError ->
     exists cl rest', rest = cl :: rest' /\ answers (calls c') cl = false).
Proof.
  intros Hrun.
  destruct (interrupts_allocate answers account_id account_type base_region
              ip_allocation manual_cidr c)
    as [E | (made & cl & rest & E & Hlog & Hno)].
  - rewrite E in Hrun.
    destruct (allocate_failure _ _ _ _ _ _ _ _ Hrun) as [Ht He].
    destruct (traced_allocate account_id account_type base_region
                ip_allocation manual_cidr c) as [made Hc].
    rewrite Hrun in Hc |- *. cbn [snd] in Hc |- *. subst c'.
    cbn [table calls] in *.
    exists made, []. rewrite app_nil_r.
    repeat (split; [reflexivity |]). split.
    + intros _. split; [exact Ht | reflexivity].
    + intros ->.
      destruct He as [H | [H | [H | [H | [H _]]]]]; discriminate H.
  - rewrite E in Hrun. injection Hrun as <- <-. cbn [table calls].
    exists made, (cl :: rest).
    repeat (split; [reflexivity || exact Hlog |]). split.
    + intros H. contradiction H. reflexivity.
    + intros _. exists cl, rest. split; [reflexivity | exact Hno].
Qed.

Lemma failed_run_keeps_answered_calls_witness :
  exists made rest,
    calls (mkClient [("10.0.0.0/20", free_block "/20" "us-west-2");
                     ("10.0.0.0/21", free_block "/21" "us-west-2")]
                    [Scan "/22" "us-west-2"; Scan "/21" "us-west-2";
                     Scan "/20" "us-west-2";
                     UpdateItem "10.0.0.0/21"
                       (sibling_sets "us-west-2" "10.0.0.0/21")])
    = (calls (mkClient [("10.0.0.0/20", free_block "/20" "us-west-2")] [])
       ++ made)%list /\
    table (mkClient [("10.0.0.0/20", free_block "/20" "us-west-2");
                     ("10.0.0.0/21", free_block "/21" "us-west-2")]
                    [Scan "/22" "us-west-2"; Scan "/21" "us-west-2";
                     Scan "/20" "us-west-2";
                     UpdateItem "10.0.0.0/21"
                       (sibling_sets "us-west-2" "10.0.0.0/21")])
    = replay made
        (table (mkClient [("10.0.0.0/20", free_block "/20" "us-west-2")] [])) /\
    calls (snd (allocate "006828683766" "production" "us-west-2" "/22" "no"
                  (mkClient [("10.0.0.0/20", free_block "/20" "us-west-2")] [])))
    = (calls (mkClient [("10.0.0.0/20", free_block "/20" "us-west-2")] [])
       ++ made ++ rest)%list /\
    (ClientError <> ClientError ->
     table (mkClient [("10.0.0.0/20", free_block "/20" "us-west-2");
                      ("10.0.0.0/21", free_block "/21" "us-west-2")]
                     [Scan "/22" "us-west-2"; Scan "/21" "us-west-2";
                      Scan "/20" "us-west-2";
                      UpdateItem "10.0.0.0/21"
                        (sibling_sets "us-west-2" "10.0.0.0/21")])
     = table (mkClient [("10.0.0.0/20", free_block "/20" "us-west-2")] []) /\
     rest = []) /\
    (ClientError = ClientError ->
     exists cl rest',
       rest = cl :: rest' /\
       answers_first 4
         (calls (mkClient [("10.0.0.0/20", free_block "/20" "us-west-2");
                           ("10.0.0.0/21", free_block "/21" "us-west-2")]
                          [Scan "/22" "us-west-2"; Scan "/21" "us-west-2";
                           Scan "/20" "us-west-2";
                           UpdateItem "10.0.0.0/21"
                             (sibling_sets "us-west-2" "10.0.0.0/21")]))
         cl = false).
Proof.
  apply (failed_run_keeps_answered_calls (answers_first 4)
           "006828683766" "production" "us-west-2" "/22" "no"
           (mkClient [("10.0.0.0/20", free_block "/20" "us-west-2")] [])
           ClientError).
  vm_compute. reflexivity.
Defined.

(** X9.  How a run can end badly.  On a client that may refuse calls the
    allocator raises nothing but: the exit of the size check, the exit of
    the widening loop, [ValueError] (a size or a key that does not read),
    [IndexError] (the list of slices has no element before the last),
    [KeyError], only for an account type that [config_map] does not have,
    and the exception of a call that the client refused. *)
Theorem allocate_exceptions answers account_id account_type base_region
        ip_allocation manual_cidr c e c' :
  Unreliable.allocate answers account_id account_type base_region
    ip_allocation manual_cidr c = (Raise e, c') ->
  e = invalid_request \/ e = pool_exhausted \/ e = ValueError \/
  e = IndexError \/
  e = KeyError /\ config_map account_type = Raise KeyError \/
  e = ClientError /\ exists cl, answers (calls c') cl = false.
Proof.
  intros Hrun.
  destruct (interrupts_allocate answers account_id account_type base_region
              ip_allocation manual_cidr c)
    as [E | (made & cl & rest & E & _ & Hno)].
  - rewrite E in Hrun.
    destruct (allocate_failure _ _ _ _ _ _ _ _ Hrun) as [_ He]. tauto.
  - rewrite E in Hrun. injection Hrun as <- <-. cbn [calls].
    do 5 right. split; [reflexivity |]. exists cl. exact Hno.
Qed.

Lemma allocate_exceptions_witness :
  ClientError = invalid_request \/ ClientError = pool_exhausted \/
  ClientError = ValueError \/ ClientError = IndexError \/
  ClientError = KeyError /\ config_map "production" = Raise KeyError \/
  ClientError = ClientError /\
  exists cl,
    answers_first 0 (calls (mkClient [] [])) cl = false.
Proof.
  apply (allocate_exceptions (answers_first 0)
           "006828683766" "production" "us-west-2" "/24" ""
           (mkClient [] []) ClientError (mkClient [] [])).
  vm_compute. reflexivity.
Defined.

(* ================================================================== *)
(** * What a refused write leaves in the table *)

Section PartialSplit.

Lemma prefix_of_all_but_last {A} (made rest xs : list A) (cl d : A) :
  (made ++ cl :: rest = xs ++ [d])%list ->
  xs = (made ++ removelast (cl :: rest))%list.
Proof.
  intros E. apply (f_equal (@removelast A)) in E.
  rewrite removelast_last in E. rewrite removelast_app in E by discriminate.
  symmetry. exact E.
Qed.

(** Calls that are all [update_item]s keep the keys of the table and add
    their own. *)
Lemma keys_replay_writes (made : list call) : forall t,
  (forall a, In a made -> exists k sets, a = UpdateItem k sets) ->
  (forall k, In k (keys t) -> In k (keys (replay made t))) /\
  (forall k sets, In (UpdateItem k sets) made -> In k (keys (replay made t))).
Proof.
  induction made as [| a made IH]; intros t Hall.
  - split; [intros k H; exact H | intros k sets []].
  - destruct (Hall a (or_introl eq_refl)) as (k0 & sets0 & ->).
    change (replay (UpdateItem k0 sets0 :: made) t)
      with (replay made (update_item k0 sets0 t)).
    destruct (IH (update_item k0 sets0 t)) as [Hkeep Hadd].
    { intros a Ha. apply Hall. right. exact Ha. }
    split.
    + intros k Hk. apply Hkeep. apply keys_update_item. right. exact Hk.
    + intros k sets [E | Hin].
      * injection E as -> _. apply Hkeep. apply keys_update_item. left.
        reflexivity.
      * apply (Hadd k sets Hin).
Qed.

End PartialSplit.

(** X18.  A refused call in the middle of the split path leaves blocks
    that overlap.  When the client refuses a call of the split path after
    it has answered at least one, the block that was being sliced is still
    in the table, next to its own first half, which the first write has
    recorded: the keys of the table are no longer disjoint blocks. *)
Theorem refused_write_leaves_overlap answers account_id base_region
        config_options ip_block parent netmask c c' :
  IPv4Network_of_string ip_block = Ok parent ->
  prefixlen parent < netmask <= 32 ->
  In ip_block (keys (table c)) ->
  Unreliable.slice_and_claim answers account_id base_region config_options
    ip_block netmask c = (Raise ClientError, c') ->
  calls c' <> calls c ->
  In ip_block (keys (table c')) /\
  In (compressed (first_half parent)) (keys (table c')) /\
  ~ disjoint_blocks (keys (table c')).
Proof.
  intros Hparse Ht Hin Hrun Hsome.
  pose proof (IPv4Network_of_string_valid _ _ Hparse) as Hv.
  assert (Hlt : prefixlen parent < 32) by lia.
  destruct (cidr_slicing_proper ip_block parent netmask Hparse Ht)
    as (pre & x & Hs & Hchain & _ & _ & _ & Hidx).
  cbn zeta in *.
  set (nets := (pre ++ [first_half x; second_half x])%list) in *.
  destruct (interrupts_slice_and_claim answers account_id base_region
              config_options ip_block netmask c)
    as [E | (made & cl & rest & E & Hlog & _)].
  { rewrite E in Hrun. apply slice_and_claim_failure in Hrun.
    destruct Hrun as [_ [H | H]]; discriminate H. }
  rewrite E in Hrun. injection Hrun as <-. cbn [table calls] in *.
  rewrite (slice_and_claim_run _ _ _ _ _ c _ _ Hs Hidx) in Hlog.
  unfold after_slicing in Hlog. cbn [snd calls] in Hlog.
  apply app_inv_head in Hlog.
  change [UpdateItem (compressed (first_half x))
            (in_use_sets account_id base_region config_options
               (last3 (compressed (first_half x))));
          DeleteItem ip_block]
    with ([UpdateItem (compressed (first_half x))
             (in_use_sets account_id base_region config_options
                (last3 (compressed (first_half x))))]
          ++ [DeleteItem ip_block])%list in Hlog.
  rewrite app_assoc in Hlog. symmetry in Hlog.
  apply prefix_of_all_but_last in Hlog.
  assert (Hfirst : exists tl, nets = first_half parent :: tl).
  { rewrite Hchain.
    destruct (Z.to_nat (netmask - prefixlen parent)) as [| r] eqn:Er; [lia |].
    cbn [chain]. eauto. }
  destruct Hfirst as [tl Htl].
  assert (Hwrites : forall a, In a made -> exists k sets, a = UpdateItem k sets).
  { intros a Ha.
    assert (Hin' : In a (sibling_updates base_region (map compressed nets) ++
                         [UpdateItem (compressed (first_half x))
                            (in_use_sets account_id base_region config_options
                               (last3 (compressed (first_half x))))])%list).
    { rewrite Hlog. apply in_or_app. left. exact Ha. }
    apply in_app_or in Hin'. destruct Hin' as [Hin' | [<- | []]]; [| eauto].
    unfold sibling_updates in Hin'. apply in_map_iff in Hin'.
    destruct Hin' as (k & <- & _). eauto. }
  assert (Hhead : exists made',
             made = UpdateItem (compressed (first_half parent))
                      (sibling_sets base_region (compressed (first_half parent)))
                    :: made').
  { destruct made as [| a made'].
    - exfalso. apply Hsome. rewrite app_nil_r. reflexivity.
    - exists made'. f_equal.
      rewrite Htl in Hlog. unfold sibling_updates in Hlog.
      cbn [map app] in Hlog. injection Hlog as Ha _. symmetry. exact Ha. }
  destruct Hhead as [made' Hmade].
  destruct (keys_replay_writes made (table c) Hwrites) as [Hkeep Hadd].
  assert (H1 : In ip_block (keys (replay made (table c))))
    by (apply Hkeep; exact Hin).
  assert (H2 : In (compressed (first_half parent))
                  (keys (replay made (table c)))).
  { apply (Hadd _ (sibling_sets base_region (compressed (first_half parent)))).
    rewrite Hmade. left. reflexivity. }
  split; [exact H1 |]. split; [exact H2 |].
  intros (_ & _ & Hov).
  pose proof (first_half_valid _ Hv Hlt) as Hvf.
  assert (Eq : ip_block = compressed (first_half parent)).
  { apply (Hov ip_block (compressed (first_half parent)) parent
               (first_half parent) (network_address parent));
      try assumption.
    - apply IPv4Network_of_compressed. exact Hvf.
    - apply in_net_own_address. exact Hv.
    - apply (in_net_own_address (first_half parent)). exact Hvf. }
  rewrite Eq in Hparse. rewrite (IPv4Network_of_compressed _ Hvf) in Hparse.
  injection Hparse as Hp. apply (f_equal prefixlen) in Hp.
  unfold first_half in Hp. cbn [prefixlen] in Hp. lia.
Qed.

Lemma refused_write_leaves_overlap_witness :
  In "10.0.0.0/20"
     (keys (table (mkClient [("10.0.0.0/20", free_block "/20" "us-west-2");
                             ("10.0.0.0/21", free_block "/21" "us-west-2")]
                            [UpdateItem "10.0.0.0/21"
                               (sibling_sets "us-west-2" "10.0.0.0/21")]))) /\
  In (compressed (first_half (mkNet 167772160 20)))
     (keys (table (mkClient [("10.0.0.0/20", free_block "/20" "us-west-2");
                             ("10.0.0.0/21", free_block "/21" "us-west-2")]
                            [UpdateItem "10.0.0.0/21"
                               (sibling_sets "us-west-2" "10.0.0.0/21")]))) /\
  ~ disjoint_blocks
      (keys (table (mkClient [("10.0.0.0/20", free_block "/20" "us-west-2");
                              ("10.0.0.0/21", free_block "/21" "us-west-2")]
                             [UpdateItem "10.0.0.0/21"
                                (sibling_sets "us-west-2" "10.0.0.0/21")]))).
Proof.
  apply (refused_write_leaves_overlap (answers_first 1)
           "006828683766" "us-west-2" "prod-us-west-2" "10.0.0.0/20"
           (mkNet 167772160 20) 22
           (mkClient [("10.0.0.0/20", free_block "/20" "us-west-2")] [])).
  - vm_compute. reflexivity.
  - cbn [prefixlen]. lia.
  - left. reflexivity.
  - vm_compute. reflexivity.
  - discriminate.
Defined.
